(** * openclaw-langsmith: the tracer, its ordering keys and its batch queue

    A shallow embedding of [src/tracer.ts], [src/index.ts],
    [src/client.ts] and [src/config.ts].

    Conventions of the embedding.
    - A JavaScript string is a [string]: a sequence of 8-bit code units.
      Comparison of strings ([<] in JavaScript) is comparison of code
      units, which is [String.compare].
    - [Map<string, V>] is [gmap string V]; [Set<string>] is [gset string].
    - [T | undefined] is [option T]; [a ?? b] is [default b a]; a value of
      type [unknown] is a [JSValue].
    - Token counts are integers ([Z]).
    - [crypto.randomUUID()] and [new Date()] are inputs of the operation
      that calls them, one argument per call. A [Date] is the record of what
      its UTC getters return.
    - An [async] function is cut at its [await]: [flush] is what runs
      before [flush] gives control back, [flushSettled] what runs when the
      call of [fetch] settles.
    - The tracer's calls to its client ([createRun], [updateRun]) are
      returned as a list of [ClientCall]s, which the plug-in hands to the
      queue in order.
    - Lines written to the host logger by the tracer are not part of the
      model; the warnings of the queue are. *)

From Stdlib Require Import ZArith QArith Lia Bool Ascii String.
From stdpp Require Import base option list gmap strings.

Set Warnings "-register-all,-clear-no-such-hyp,-abstract-large-number".

Local Open Scope string_scope.
Local Open Scope Z_scope.

(** ** JavaScript strings *)

Module JsString.

(** [s.includes(needle)] *)
Fixpoint includes (needle s : string) : bool :=
  String.prefix needle s ||
  match s with
  | EmptyString => false
  | String _ s' => includes needle s'
  end.

(** [s.startsWith(p)] *)
Definition startsWith (s p : string) : bool := String.prefix p s.

(** [s.split(sep)] for a separator of one character. *)
Fixpoint split (sep : ascii) (s : string) : list string :=
  match s with
  | EmptyString => [EmptyString]
  | String c s' =>
      if Ascii.eqb c sep then EmptyString :: split sep s'
      else match split sep s' with
           | seg :: rest => String c seg :: rest
           | [] => [String c EmptyString]
           end
  end.

(** [parts.join(sep)] *)
Definition join (sep : string) (parts : list string) : string :=
  String.concat sep parts.

(** [parts.includes(x)] on an array of strings. *)
Definition arr_includes (parts : list string) (x : string) : bool :=
  existsb (String.eqb x) parts.

(** [parts.indexOf(x)]: the first index holding [x], or [-1]. *)
Fixpoint indexOf (parts : list string) (x : string) : Z :=
  match parts with
  | [] => -1
  | p :: rest =>
      if String.eqb p x then 0
      else let i := indexOf rest x in
           if i <? 0 then -1 else i + 1
  end.

(** [parts[i]]: [undefined] outside the array. *)
Definition at_index (parts : list string) (i : Z) : option string :=
  if i <? 0 then None else parts !! Z.to_nat i.

(** Truthiness of a string, and of an optional string. *)
Definition truthy (s : string) : bool := negb (String.eqb s "").

Definition truthy_opt (o : option string) : bool :=
  match o with
  | Some s => truthy s
  | None => false
  end.

(** Whitespace: the class [\s] of regular expressions, which is also
    what [trim] strips, on 8-bit code units: tab, line feed, vertical
    tab, form feed, carriage return, space, no-break space. *)
Definition isSpace (c : ascii) : bool :=
  let n := nat_of_ascii c in
  ((9 <=? n) && (n <=? 13) || (n =? 32) || (n =? 160))%nat.

Fixpoint trimStart (s : string) : string :=
  match s with
  | EmptyString => EmptyString
  | String c s' => if isSpace c then trimStart s' else s
  end.

(** [trimEnd] keeps a character when it is not a space or when something
    is left after it. *)
Fixpoint trimEnd (s : string) : string :=
  match s with
  | EmptyString => EmptyString
  | String c s' =>
      match trimEnd s' with
      | EmptyString => if isSpace c then EmptyString else String c EmptyString
      | r => String c r
      end
  end.

(** [s.trim()] *)
Definition trim (s : string) : string := trimEnd (trimStart s).

(** [s.replace(/c/g, "")]: every occurrence of one character removed. *)
Fixpoint removeAll (c : ascii) (s : string) : string :=
  match s with
  | EmptyString => EmptyString
  | String d s' => if Ascii.eqb d c then removeAll c s' else String d (removeAll c s')
  end.

Fixpoint repeat (c : ascii) (n : nat) : string :=
  match n with
  | O => EmptyString
  | S k => String c (repeat c k)
  end.

(** [s.padStart(len, c)] for a filler of one character. *)
Definition padStart (s : string) (len : nat) (c : ascii) : string :=
  repeat c (len - String.length s) +:+ s.

(** [s.slice(0, n)] *)
Definition slice0 (n : nat) (s : string) : string := String.substring 0 n s.

End JsString.

(** ** Regular expressions

    The two patterns of [extractTags] use literals, greedy [+] and [*] over
    a character class, and one capture group. [exec] is a backtracking
    matcher for that fragment, written with a continuation that receives
    the rest of the input and the capture. *)

Module Regex.

Inductive t :=
| Lit (s : string)
| Plus (cls : ascii -> bool)
| Star (cls : ascii -> bool)
| Seq (r1 r2 : t)
| Group (r : t).

Section Matcher.
Context {R : Type}.

(** Greedy [cls*]: the longest run first, then shorter ones. *)
Fixpoint star (cls : ascii -> bool) (s : string) (k : string -> option R) : option R :=
  match s with
  | EmptyString => k EmptyString
  | String c s' =>
      if cls c then
        match star cls s' k with
        | Some r => Some r
        | None => k s
        end
      else k s
  end.

Definition lit (l s : string) (k : string -> option R) : option R :=
  if String.prefix l s then k (String.substring (String.length l) (String.length s - String.length l) s)
  else None.

Fixpoint run (r : t) (s : string) (cap : option string)
    (k : string -> option string -> option R) : option R :=
  match r with
  | Lit l => lit l s (fun s' => k s' cap)
  | Plus cls =>
      match s with
      | String c s' => if cls c then star cls s' (fun s'' => k s'' cap) else None
      | EmptyString => None
      end
  | Star cls => star cls s (fun s' => k s' cap)
  | Seq r1 r2 => run r1 s cap (fun s' cap' => run r2 s' cap' k)
  | Group r1 =>
      run r1 s cap
        (fun s' _ => k s' (Some (String.substring 0 (String.length s - String.length s') s)))
  end.
End Matcher.

(** A match that starts at the first character of [s]; the result is
    the capture. *)
Definition matchHere (r : t) (s : string) : option (option string) :=
  run r s None (fun _ cap => Some cap).

(** [s.match(r)] without the [g] flag: the leftmost match; the result is
    element 1 of the match array. *)
Fixpoint exec (r : t) (s : string) : option (option string) :=
  match matchHere r s with
  | Some cap => Some cap
  | None =>
      match s with
      | EmptyString => None
      | String _ s' => exec r s'
      end
  end.

Definition notSpace (c : ascii) : bool := negb (JsString.isSpace c).
Definition notChar (x c : ascii) : bool := negb (Ascii.eqb c x).

End Regex.

(** [/\[cron:[^\s]+\s+([^\(]+)\s*\(/] *)
Definition cronPromptRegex : Regex.t :=
  Regex.Seq (Regex.Lit "[cron:")
    (Regex.Seq (Regex.Plus Regex.notSpace)
       (Regex.Seq (Regex.Plus JsString.isSpace)
          (Regex.Seq (Regex.Group (Regex.Plus (Regex.notChar "("%char)))
             (Regex.Seq (Regex.Star JsString.isSpace) (Regex.Lit "("))))).

(** [/\[Discord Guild (#[^\s]+)/] *)
Definition guildPromptRegex : Regex.t :=
  Regex.Seq (Regex.Lit "[Discord Guild ")
    (Regex.Group (Regex.Seq (Regex.Lit "#") (Regex.Plus Regex.notSpace))).

(** ** Tag extraction ([extractTags], tracer.ts) *)

Definition sessionTags (sessionKey : string) : list string :=
  let parts := JsString.split ":"%char sessionKey in
  if JsString.arr_includes parts "cron" then
    let cronIdx := JsString.indexOf parts "cron" in
    "cron" ::
      match JsString.at_index parts (cronIdx + 1) with
      | Some seg => if JsString.truthy seg then ["job:" +:+ seg] else []
      | None => []
      end
  else if JsString.arr_includes parts "discord" then
    let channelIdx := JsString.indexOf parts "channel" in
    "discord" ::
      (if channelIdx >=? 0 then
         match JsString.at_index parts (channelIdx + 1) with
         | Some seg => if JsString.truthy seg then ["channel:" +:+ seg] else []
         | None => []
         end
       else [])
  else if JsString.arr_includes parts "telegram" then ["telegram"]
  else if JsString.arr_includes parts "slack" then ["slack"]
  else [].

(** The tag pushed for a prompt that matches [r], when the list of tags
    has [source] in it: [make] builds the tag from the capture. *)
Definition promptTag (prompt : option string) (tags : list string) (source : string)
    (r : Regex.t) (make : string -> string) : list string :=
  if JsString.truthy_opt prompt && JsString.arr_includes tags source then
    match Regex.exec r (default "" prompt) with
    | Some (Some cap) => if JsString.truthy cap then [make cap] else []
    | _ => []
    end
  else [].

Definition extractTags (sessionKey : string) (prompt : option string) : list string :=
  let tags := sessionTags sessionKey in
  let tags := (tags ++ promptTag prompt tags "cron" cronPromptRegex
                         (fun cap => "name:" +:+ JsString.trim cap))%list in
  let tags := (tags ++ promptTag prompt tags "discord" guildPromptRegex
                         (fun cap => "guild:" +:+ cap))%list in
  tags.

(** ** Identity resolution ([parseModelInfo], tracer.ts) *)

Record ModelInfo := mkModelInfo { provider : string; model : string }.

(** The fallback of [parseModelInfo]: the provider inferred from the
    model name. *)
Definition inferredProvider (m : string) : string :=
  if JsString.startsWith m "claude" then "anthropic"
  else if JsString.startsWith m "gpt-" || JsString.startsWith m "o1"
          || JsString.startsWith m "o3" then "openai"
  else if JsString.startsWith m "gemini" then "google"
  else if JsString.startsWith m "glm" then "zai"
  else if JsString.startsWith m "kimi" then "kimi"
  else "unknown".

(** [parseModelInfo] below the test [if (provider)]. *)
Definition parseModelInfo_noProvider (m : string) : ModelInfo :=
  if JsString.includes "/" m then
    match JsString.split "/" m with
    | prov :: rest => mkModelInfo prov (JsString.join "/" rest)
    | [] => mkModelInfo "" ""
    end
  else mkModelInfo (inferredProvider m) m.

Definition parseModelInfo (m : string) (prov : option string) : ModelInfo :=
  match prov with
  | Some p => if JsString.truthy p then mkModelInfo p m else parseModelInfo_noProvider m
  | None => parseModelInfo_noProvider m
  end.

(** ** Ordering keys ([formatDottedOrderTime], [makeDottedOrder], tracer.ts) *)

Module JsNumber.

Definition digit (d : nat) : ascii := ascii_of_nat (48 + d).

(** [n.toString()] for a natural number: decimal, no leading zero. *)
Fixpoint toString_aux (fuel n : nat) (acc : string) : string :=
  match fuel with
  | O => acc
  | S f =>
      let acc' := String (digit (n mod 10)) acc in
      if (n <? 10)%nat then acc' else toString_aux f (n / 10) acc'
  end.

Definition toString (n : nat) : string := toString_aux (S n) n EmptyString.

End JsNumber.

(** A [Date], seen through its UTC getters. *)
Record Date := mkDate {
  getUTCFullYear : nat;
  getUTCMonth : nat;
  getUTCDate : nat;
  getUTCHours : nat;
  getUTCMinutes : nat;
  getUTCSeconds : nat;
  getUTCMilliseconds : nat
}.

(** [pad] of [formatDottedOrderTime]. *)
Definition pad (n len : nat) : string :=
  JsString.padStart (JsNumber.toString n) len "0"%char.

Definition formatDottedOrderTime (date : Date) : string :=
  JsNumber.toString (getUTCFullYear date) +:+ pad (getUTCMonth date + 1) 2
  +:+ pad (getUTCDate date) 2 +:+ "T" +:+ pad (getUTCHours date) 2
  +:+ pad (getUTCMinutes date) 2 +:+ pad (getUTCSeconds date) 2
  +:+ pad (getUTCMilliseconds date) 3 +:+ "000Z".

(** [new Date()] is the argument [now]. *)
Definition makeDottedOrder (runId : string) (parentDottedOrder : option string)
    (now : Date) : string :=
  let ts := formatDottedOrderTime now in
  let cleanId := JsString.removeAll "-"%char runId in
  match parentDottedOrder with
  | Some parent =>
      if JsString.truthy parent then parent +:+ "." +:+ ts +:+ cleanId
      else ts +:+ cleanId
  | None => ts +:+ cleanId
  end.

(** [date.toISOString()], for years of at most four digits. *)
Definition toISOString (date : Date) : string :=
  pad (getUTCFullYear date) 4 +:+ "-" +:+ pad (getUTCMonth date + 1) 2
  +:+ "-" +:+ pad (getUTCDate date) 2 +:+ "T" +:+ pad (getUTCHours date) 2
  +:+ ":" +:+ pad (getUTCMinutes date) 2 +:+ ":" +:+ pad (getUTCSeconds date) 2
  +:+ "." +:+ pad (getUTCMilliseconds date) 3 +:+ "Z".

(** ** Values of type [unknown] *)

Inductive JSValue :=
| JUndefined
| JNull
| JBool (b : bool)
| JNum (n : Z)
| JBigInt (n : Z)
| JStr (s : string)
| JArr (elems : list JSValue)
| JObj (fields : list (string * JSValue)).

Module Js.

(** Truthiness: what [if (v)], [!v] and [a && b] test. *)
Definition truthy (v : JSValue) : bool :=
  match v with
  | JUndefined | JNull => false
  | JBool b => b
  | JNum n | JBigInt n => negb (n =? 0)
  | JStr s => JsString.truthy s
  | JArr _ | JObj _ => true
  end.

(** [typeof v === "object"] *)
Definition isObject (v : JSValue) : bool :=
  match v with
  | JNull | JArr _ | JObj _ => true
  | _ => false
  end.

Fixpoint assoc (fields : list (string * JSValue)) (key : string) : JSValue :=
  match fields with
  | [] => JUndefined
  | (k, v) :: rest => if String.eqb k key then v else assoc rest key
  end.

(** [v.key]: the property of an object; [undefined] on anything else
    that can be read. *)
Definition get (v : JSValue) (key : string) : JSValue :=
  match v with
  | JObj fields => assoc fields key
  | _ => JUndefined
  end.

(** [typeof v === "number" ? v : 0] *)
Definition numberOr0 (v : JSValue) : Z :=
  match v with
  | JNum n => n
  | _ => 0
  end.

Definition ofOptString (o : option string) : JSValue :=
  match o with
  | Some s => JStr s
  | None => JUndefined
  end.

(** [...(c && {fields})] inside an object literal. *)
Definition spreadIf (c : bool) (fields : list (string * JSValue)) : list (string * JSValue) :=
  if c then fields else [].

(** [JSON.stringify(v)] returns a text: it throws a [TypeError] on a
    [bigint], wherever it is in [v]. (The other value it throws on, an
    object that contains itself, is not a finite tree.) *)
Fixpoint serializable (v : JSValue) : bool :=
  match v with
  | JBigInt _ => false
  | JArr elems => forallb serializable elems
  | JObj fields => forallb (fun '(_, x) => serializable x) fields
  | _ => true
  end.

Definition serializable_opt (o : option JSValue) : bool :=
  match o with
  | Some v => serializable v
  | None => true
  end.

End Js.

(** [a ?? b] when [b] may be [undefined] too. *)
Definition nullish {A : Type} (a b : option A) : option A :=
  match a with
  | Some x => Some x
  | None => b
  end.

(** ** Types (types.ts) *)

Module TokenUsage.
Record t := mk {
  prompt_tokens : option Z;
  completion_tokens : option Z;
  total_tokens : option Z;
  input_tokens : option Z;
  output_tokens : option Z
}.
End TokenUsage.

Inductive RunType := chain | tool | llm.

Module LangSmithRun.
Record t := mk {
  id : string;
  trace_id : string;
  dotted_order : string;
  name : string;
  run_type : RunType;
  inputs : JSValue;
  outputs : option JSValue;
  parent_run_id : option string;
  start_time : string;
  end_time : option string;
  error : option string;
  extra : option JSValue;
  session_name : string;
  prompt_tokens : option Z;
  completion_tokens : option Z;
  total_tokens : option Z;
  tags : option (list string)
}.
End LangSmithRun.

(** [Partial<LangSmithRun>] *)
Module PartialRun.
Record t := mk {
  id : option string;
  trace_id : option string;
  dotted_order : option string;
  name : option string;
  run_type : option RunType;
  inputs : option JSValue;
  outputs : option JSValue;
  parent_run_id : option string;
  start_time : option string;
  end_time : option string;
  error : option string;
  extra : option JSValue;
  session_name : option string;
  prompt_tokens : option Z;
  completion_tokens : option Z;
  total_tokens : option Z;
  tags : option (list string)
}.
End PartialRun.

Inductive LlmKind := llm_start | llm_end | llm_error.

Module EventTokenUsage.
Record t := mk { input : option Z; output : option Z; total : option Z }.
End EventTokenUsage.

Module LlmTraceEvent.
Record t := mk {
  kind : LlmKind;
  traceId : string;
  model : string;
  operation : string;
  input : option string;
  output : option string;
  durationMs : JSValue;
  error : option string;
  tokenUsage : option EventTokenUsage.t
}.
End LlmTraceEvent.

(** A value of type [number]; a finite one is a rational. *)
Inductive number :=
| Finite (q : Q)
| NaN
| PosInfinity
| NegInfinity.

(** What [x || d] tests of a number: [0], [-0] and [NaN] are falsy. *)
Definition numberTruthy (x : number) : bool :=
  match x with
  | Finite q => negb (Qeq_bool q 0)
  | NaN => false
  | PosInfinity | NegInfinity => true
  end.

(** [len >= x] for the length of an array. *)
Definition lengthReaches (len : nat) (x : number) : bool :=
  match x with
  | Finite q => Qle_bool q (inject_Z (Z.of_nat len))
  | NaN | PosInfinity => false
  | NegInfinity => true
  end.

Record PluginConfig := mkPluginConfig {
  langsmithApiKey : option string;
  langsmithEndpoint : string;
  projectName : string;
  traceAgentTurns : bool;
  traceToolCalls : bool;
  traceEngramLlm : bool;
  batchIntervalMs : number;
  batchMaxSize : number;
  debug : bool
}.

(** ** Usage of a turn ([extractUsageFromMessages], index.ts) *)

(** The body of the loop for one message: [None] is [continue]. *)
Definition usageOfMessage (msg : JSValue) : option TokenUsage.t :=
  if negb (Js.truthy msg) || negb (Js.isObject msg) then None
  else if negb (match Js.get msg "role" with
                | JStr r => String.eqb r "assistant"
                | _ => false
                end) then None
  else
    let usage := Js.get msg "usage" in
    if negb (Js.truthy usage) then None
    else
      let input := Js.numberOr0 (Js.get usage "input") in
      let output := Js.numberOr0 (Js.get usage "output") in
      let cacheRead := Js.numberOr0 (Js.get usage "cacheRead") in
      let cacheWrite := Js.numberOr0 (Js.get usage "cacheWrite") in
      Some (TokenUsage.mk None None
              (Some (input + output + cacheRead + cacheWrite))
              (Some (input + cacheRead + cacheWrite))
              (Some output)).

(** The loop [for (i = length - 1; i >= 0; i--)], on the messages from the
    last to the first. *)
Fixpoint scanFromEnd (reversed : list JSValue) : option TokenUsage.t :=
  match reversed with
  | [] => None
  | msg :: earlier =>
      match usageOfMessage msg with
      | Some u => Some u
      | None => scanFromEnd earlier
      end
  end.

Definition extractUsageFromMessages (messages : JSValue) : option TokenUsage.t :=
  match messages with
  | JArr elems => scanFromEnd (rev elems)
  | _ => None
  end.

(** ** The tracer (class [Tracer], tracer.ts) *)

Record ActiveRun := mkActiveRun {
  runId : string;
  traceId : string;
  dottedOrder : string;
  parentRunId : option string;
  startTime : string;
  input : option string
}.

Record Tracer := mkTracer {
  activeAgentRuns : gmap string ActiveRun;
  activeToolRuns : gmap string ActiveRun;
  sessionModels : gmap string (list ModelInfo);
  config : PluginConfig
}.

Definition newTracer (cfg : PluginConfig) : Tracer := mkTracer ∅ ∅ ∅ cfg.

(** What the tracer asks of its client. *)
Inductive ClientCall :=
| CreateRun (run : LangSmithRun.t)
| UpdateRun (runId : string) (patch : PartialRun.t).

Definition recordLlmCall (t : Tracer) (sessionKey m : string) (prov : option string) : Tracer :=
  let modelInfo := parseModelInfo m prov in
  let models := default [] (sessionModels t !! sessionKey) in
  let models := (models ++ [modelInfo])%list in
  mkTracer (activeAgentRuns t) (activeToolRuns t)
    (<[sessionKey := models]> (sessionModels t)) (config t).

Definition getSessionModelInfo (t : Tracer) (sessionKey : string) : option ModelInfo :=
  match sessionModels t !! sessionKey with
  | None => None
  | Some models => last models
  end.

(** The [filter] of [getAllSessionModels], with its set [seen]. *)
Fixpoint filterUnseen (seen : gset string) (l : list string) : list string :=
  match l with
  | [] => []
  | s :: rest =>
      if bool_decide (s ∈ seen) then filterUnseen seen rest
      else s :: filterUnseen ({[s]} ∪ seen) rest
  end.

Definition modelLabel (m : ModelInfo) : string := provider m +:+ "/" +:+ model m.

Definition getAllSessionModels (t : Tracer) (sessionKey : string) : list string :=
  match sessionModels t !! sessionKey with
  | None => []
  | Some models => filterUnseen ∅ (map modelLabel models)
  end.

Definition startAgentRun (t : Tracer) (sessionKey prompt : string)
    (uuid : string) (now nowOrder : Date) : Tracer * list ClientCall :=
  let runId := uuid in
  let startTime := toISOString now in
  let dottedOrder := makeDottedOrder runId None nowOrder in
  let tags := extractTags sessionKey (Some prompt) in
  let active :=
    {| runId := runId; traceId := runId; dottedOrder := dottedOrder;
       parentRunId := None; startTime := startTime; input := None |} in
  let run :=
    {| LangSmithRun.id := runId;
       LangSmithRun.trace_id := runId;
       LangSmithRun.dotted_order := dottedOrder;
       LangSmithRun.name := "agent_turn";
       LangSmithRun.run_type := llm;
       LangSmithRun.inputs := JObj [("prompt", JStr prompt)];
       LangSmithRun.outputs := None;
       LangSmithRun.parent_run_id := None;
       LangSmithRun.start_time := startTime;
       LangSmithRun.end_time := None;
       LangSmithRun.error := None;
       LangSmithRun.extra :=
         Some (JObj [("metadata", JObj [("sessionKey", JStr sessionKey)])]);
       LangSmithRun.session_name := projectName (config t);
       LangSmithRun.prompt_tokens := None;
       LangSmithRun.completion_tokens := None;
       LangSmithRun.total_tokens := None;
       LangSmithRun.tags := if (0 <? length tags)%nat then Some tags else None |} in
  (mkTracer (<[sessionKey := active]> (activeAgentRuns t))
     (activeToolRuns t) (sessionModels t) (config t),
   [CreateRun run]).

(** The fields [usage_metadata] of the outputs and [usage] of [extra]. *)
Definition usageFields (promptName completionName : string) (p c tot : Z) : JSValue :=
  JObj [(promptName, JNum p); (completionName, JNum c); ("total_tokens", JNum tot)].

Definition modelFields (modelInfo : option ModelInfo) : list (string * JSValue) :=
  match modelInfo with
  | Some mi => [("model", JStr (model mi)); ("provider", JStr (provider mi))]
  | None => []
  end.

(** The update that [endAgentRun] builds for the run [active]. *)
Definition agentPatch (active : ActiveRun) (modelInfo : option ModelInfo)
    (allModels : list string) (sessionKey : string) (messages : JSValue)
    (success : bool) (usage : option TokenUsage.t) (durationMs : JSValue)
    (now : Date) : PartialRun.t :=
  let promptTokens :=
    default 0 (nullish (usage ≫= TokenUsage.prompt_tokens)
                       (usage ≫= TokenUsage.input_tokens)) in
  let completionTokens :=
    default 0 (nullish (usage ≫= TokenUsage.completion_tokens)
                       (usage ≫= TokenUsage.output_tokens)) in
  let totalTokens :=
    default (promptTokens + completionTokens) (usage ≫= TokenUsage.total_tokens) in
  let hasUsage := 0 <? totalTokens in
  let allModelsValue := JArr (map JStr allModels) in
  {| PartialRun.id := Some (runId active);
     PartialRun.trace_id := Some (traceId active);
     PartialRun.dotted_order := Some (dottedOrder active);
     PartialRun.name := None;
     PartialRun.run_type := None;
     PartialRun.inputs := None;
     PartialRun.outputs :=
       Some (JObj ([("messages", messages); ("success", JBool success)]
                   ++ modelFields modelInfo
                   ++ Js.spreadIf (1 <? length allModels)%nat
                        [("all_models", allModelsValue)]
                   ++ Js.spreadIf hasUsage
                        [("usage_metadata",
                          usageFields "input_tokens" "output_tokens"
                            promptTokens completionTokens totalTokens)])%list);
     PartialRun.parent_run_id := None;
     PartialRun.start_time := None;
     PartialRun.end_time := Some (toISOString now);
     PartialRun.error := if success then None else Some "Agent turn failed";
     PartialRun.extra :=
       Some (JObj ([("metadata",
                     JObj ([("sessionKey", JStr sessionKey); ("durationMs", durationMs)]
                           ++ modelFields modelInfo
                           ++ Js.spreadIf (0 <? length allModels)%nat
                                [("models_used", allModelsValue)])%list)]
                   ++ Js.spreadIf hasUsage
                        [("usage",
                          usageFields "prompt_tokens" "completion_tokens"
                            promptTokens completionTokens totalTokens)])%list);
     PartialRun.session_name := None;
     PartialRun.prompt_tokens := if hasUsage then Some promptTokens else None;
     PartialRun.completion_tokens := if hasUsage then Some completionTokens else None;
     PartialRun.total_tokens := if hasUsage then Some totalTokens else None;
     PartialRun.tags :=
       Some match modelInfo with
            | Some mi => ["provider:" +:+ provider mi; "model:" +:+ model mi]
            | None => []
            end |}.

Definition endAgentRun (t : Tracer) (sessionKey : string) (messages : JSValue)
    (success : bool) (usage : option TokenUsage.t) (durationMs : JSValue)
    (now : Date) : Tracer * list ClientCall :=
  match activeAgentRuns t !! sessionKey with
  | None => (t, [])
  | Some active =>
      let modelInfo := getSessionModelInfo t sessionKey in
      let allModels := getAllSessionModels t sessionKey in
      let patch := agentPatch active modelInfo allModels sessionKey messages
                     success usage durationMs now in
      (mkTracer (delete sessionKey (activeAgentRuns t)) (activeToolRuns t)
         (delete sessionKey (sessionModels t)) (config t),
       [UpdateRun (runId active) patch])
  end.

Definition startToolRun (t : Tracer) (sessionKey toolName : string) (params : JSValue)
    (uuid : string) (now nowOrder : Date) : Tracer * list ClientCall * option string :=
  let runId_ := uuid in
  let startTime := toISOString now in
  let parentRun := activeAgentRuns t !! sessionKey in
  let parentRunId := runId <$> parentRun in
  let traceId := default runId_ (traceId <$> parentRun) in
  let dottedOrder := makeDottedOrder runId_ (dottedOrder <$> parentRun) nowOrder in
  let active :=
    {| runId := runId_; traceId := traceId; dottedOrder := dottedOrder;
       parentRunId := parentRunId; startTime := startTime; input := None |} in
  let run :=
    {| LangSmithRun.id := runId_;
       LangSmithRun.trace_id := traceId;
       LangSmithRun.dotted_order := dottedOrder;
       LangSmithRun.name := toolName;
       LangSmithRun.run_type := tool;
       LangSmithRun.inputs := JObj [("params", params)];
       LangSmithRun.outputs := None;
       LangSmithRun.parent_run_id := parentRunId;
       LangSmithRun.start_time := startTime;
       LangSmithRun.end_time := None;
       LangSmithRun.error := None;
       LangSmithRun.extra := None;
       LangSmithRun.session_name := projectName (config t);
       LangSmithRun.prompt_tokens := None;
       LangSmithRun.completion_tokens := None;
       LangSmithRun.total_tokens := None;
       LangSmithRun.tags := None |} in
  (mkTracer (activeAgentRuns t) (<[runId_ := active]> (activeToolRuns t))
     (sessionModels t) (config t),
   [CreateRun run], Some runId_).

Definition toolPatch (active : ActiveRun) (result : JSValue) (error : option string)
    (now : Date) : PartialRun.t :=
  {| PartialRun.id := Some (runId active);
     PartialRun.trace_id := Some (traceId active);
     PartialRun.dotted_order := Some (dottedOrder active);
     PartialRun.name := None;
     PartialRun.run_type := None;
     PartialRun.inputs := None;
     PartialRun.outputs := Some (JObj [("result", result)]);
     PartialRun.parent_run_id := None;
     PartialRun.start_time := None;
     PartialRun.end_time := Some (toISOString now);
     PartialRun.error := if JsString.truthy_opt error then error else None;
     PartialRun.extra := None;
     PartialRun.session_name := None;
     PartialRun.prompt_tokens := None;
     PartialRun.completion_tokens := None;
     PartialRun.total_tokens := None;
     PartialRun.tags := None |}.

Definition endToolRun (t : Tracer) (toolCallId : string) (result : JSValue)
    (error : option string) (now : Date) : Tracer * list ClientCall :=
  match activeToolRuns t !! toolCallId with
  | None => (t, [])
  | Some active =>
      (mkTracer (activeAgentRuns t) (delete toolCallId (activeToolRuns t))
         (sessionModels t) (config t),
       [UpdateRun (runId active) (toolPatch active result error now)])
  end.

(** The run that [traceLlmCall] creates for [llm_end] and [llm_error]. *)
Definition llmRun (cfg : PluginConfig) (event : LlmTraceEvent.t)
    (startEntry : option ActiveRun) (nowStart nowEnd nowOrder : Date) : LangSmithRun.t :=
  let startTime_ := default (toISOString nowStart) (startTime <$> startEntry) in
  let endTime := toISOString nowEnd in
  let dottedOrder_ :=
    default (makeDottedOrder (LlmTraceEvent.traceId event) None nowOrder)
            (dottedOrder <$> startEntry) in
  let inputText :=
    default "(not captured)"
      (nullish (startEntry ≫= input) (LlmTraceEvent.input event)) in
  let tokenUsage := LlmTraceEvent.tokenUsage event in
  let promptTokens := default 0 (tokenUsage ≫= EventTokenUsage.input) in
  let completionTokens := default 0 (tokenUsage ≫= EventTokenUsage.output) in
  let totalTokens :=
    default (promptTokens + completionTokens) (tokenUsage ≫= EventTokenUsage.total) in
  let hasUsage := 0 <? totalTokens in
  {| LangSmithRun.id := LlmTraceEvent.traceId event;
     LangSmithRun.trace_id := LlmTraceEvent.traceId event;
     LangSmithRun.dotted_order := dottedOrder_;
     LangSmithRun.name := "engram:" +:+ LlmTraceEvent.operation event;
     LangSmithRun.run_type := llm;
     LangSmithRun.inputs := JObj [("prompt", JStr inputText)];
     LangSmithRun.outputs :=
       Some (JObj (Js.spreadIf (JsString.truthy_opt (LlmTraceEvent.output event))
                     [("completion", Js.ofOptString (LlmTraceEvent.output event))]
                   ++ Js.spreadIf hasUsage
                        [("usage_metadata",
                          usageFields "input_tokens" "output_tokens"
                            promptTokens completionTokens totalTokens)])%list);
     LangSmithRun.parent_run_id := None;
     LangSmithRun.start_time := startTime_;
     LangSmithRun.end_time := Some endTime;
     LangSmithRun.error := LlmTraceEvent.error event;
     LangSmithRun.extra :=
       Some (JObj ([("metadata",
                     JObj [("model", JStr (LlmTraceEvent.model event));
                           ("operation", JStr (LlmTraceEvent.operation event));
                           ("durationMs", LlmTraceEvent.durationMs event)])]
                   ++ Js.spreadIf hasUsage
                        [("usage",
                          usageFields "prompt_tokens" "completion_tokens"
                            promptTokens completionTokens totalTokens)])%list);
     LangSmithRun.session_name := projectName cfg;
     LangSmithRun.prompt_tokens := if hasUsage then Some promptTokens else None;
     LangSmithRun.completion_tokens := if hasUsage then Some completionTokens else None;
     LangSmithRun.total_tokens := if hasUsage then Some totalTokens else None;
     LangSmithRun.tags := None |}.

Definition traceLlmCall (t : Tracer) (event : LlmTraceEvent.t)
    (nowStart nowEnd nowOrder : Date) : Tracer * list ClientCall :=
  let key := "llm:" +:+ LlmTraceEvent.traceId event in
  match LlmTraceEvent.kind event with
  | llm_start =>
      let dottedOrder := makeDottedOrder (LlmTraceEvent.traceId event) None nowOrder in
      let entry :=
        {| runId := LlmTraceEvent.traceId event;
           traceId := LlmTraceEvent.traceId event;
           dottedOrder := dottedOrder;
           parentRunId := None;
           startTime := toISOString nowStart;
           input := LlmTraceEvent.input event |} in
      (mkTracer (activeAgentRuns t) (<[key := entry]> (activeToolRuns t))
         (sessionModels t) (config t),
       [])
  | llm_end | llm_error =>
      let startEntry := activeToolRuns t !! key in
      let tools :=
        match startEntry with
        | Some _ => delete key (activeToolRuns t)
        | None => activeToolRuns t
        end in
      (mkTracer (activeAgentRuns t) tools (sessionModels t) (config t),
       [CreateRun (llmRun (config t) event startEntry nowStart nowEnd nowOrder)])
  end.

(** ** The batch queue (class [LangSmithClient], client.ts) *)

Inductive Method := POST | PATCH.

Inductive Body :=
| RunBody (run : LangSmithRun.t)
| PatchBody (patch : PartialRun.t).

Record BatchOp := mkBatchOp { method : Method; path : string; body : Body }.

(** [batchBody]: a field is set only for a list that is not empty. *)
Record BatchBody := mkBatchBody {
  post : option (list Body);
  patch : option (list Body)
}.

(** One call of [fetch]: the address, the value given for the header
    [x-api-key] ([None] is [undefined]) and the value whose JSON text is
    the body. *)
Record Request := mkRequest {
  url : string;
  apiKeyHeader : option string;
  requestBody : BatchBody
}.

(** How the promise of [fetch] settles: with a response ([text] is [None]
    when reading the text fails), or with an error. *)
Inductive FetchOutcome :=
| Response (status : nat) (text : option string)
| Rejected (err : string).

Record LangSmithClient := mkClient {
  queue : list BatchOp;
  timer : bool;
  endpoint : string;
  apiKey : option string;
  clientBatchMaxSize : number;
  fetched : list Request;
  warned : list string
}.

(** [s.replace(/\/$/, "")] *)
Fixpoint dropFinalSlash (s : string) : string :=
  match s with
  | EmptyString => EmptyString
  | String c EmptyString => if Ascii.eqb c "/"%char then EmptyString else s
  | String c s' => String c (dropFinalSlash s')
  end.

Definition newClient (cfg : PluginConfig) : LangSmithClient :=
  mkClient [] true (dropFinalSlash (langsmithEndpoint cfg))
    (langsmithApiKey cfg) (batchMaxSize cfg) [] [].

Definition bodiesOf (keep : Method -> bool) (batch : list BatchOp) : list Body :=
  map body (filter (fun op => keep (method op) = true) batch).

Definition isPost (m : Method) : bool :=
  match m with
  | POST => true
  | PATCH => false
  end.

(** [JSON.stringify(body)] returns a text. *)
Definition serializableBody (b : Body) : bool :=
  match b with
  | RunBody run =>
      Js.serializable (LangSmithRun.inputs run)
      && Js.serializable_opt (LangSmithRun.outputs run)
      && Js.serializable_opt (LangSmithRun.extra run)
  | PatchBody p =>
      Js.serializable_opt (PartialRun.inputs p)
      && Js.serializable_opt (PartialRun.outputs p)
      && Js.serializable_opt (PartialRun.extra p)
  end.

(** The text of the error that [JSON.stringify] throws on a [bigint]. *)
Definition stringifyError : string :=
  "TypeError: Do not know how to serialize a BigInt".

(** [flush] up to [await fetch(...)]: the part that runs before [flush]
    returns to its caller. The body of the request is made, by
    [JSON.stringify], before [fetch] is called: when that throws, the
    [catch] warns and no call is made. *)
Definition flush (c : LangSmithClient) : LangSmithClient :=
  if (length (queue c) =? 0)%nat then c
  else
    let batch := queue c in
    let creates := bodiesOf isPost batch in
    let updates := bodiesOf (fun m => negb (isPost m)) batch in
    let nonEmpty (l : list Body) := if (0 <? length l)%nat then Some l else None in
    if (0 <? length creates)%nat || (0 <? length updates)%nat then
      if forallb serializableBody (creates ++ updates) then
        mkClient [] (timer c) (endpoint c) (apiKey c) (clientBatchMaxSize c)
          (fetched c ++ [mkRequest (endpoint c +:+ "/runs/batch") (apiKey c)
                           (mkBatchBody (nonEmpty creates) (nonEmpty updates))])%list
          (warned c)
      else
        mkClient [] (timer c) (endpoint c) (apiKey c) (clientBatchMaxSize c)
          (fetched c) (warned c ++ ["batch request error: " +:+ stringifyError])%list
    else
      mkClient [] (timer c) (endpoint c) (apiKey c) (clientBatchMaxSize c)
        (fetched c) (warned c).

Definition isOk (status : nat) : bool := ((200 <=? status) && (status <=? 299))%nat.

(** [flush] after the [await]: what is done when the call settles. *)
Definition flushSettled (c : LangSmithClient) (outcome : FetchOutcome) : LangSmithClient :=
  let warn (msg : string) :=
    mkClient (queue c) (timer c) (endpoint c) (apiKey c) (clientBatchMaxSize c)
      (fetched c) (warned c ++ [msg])%list in
  match outcome with
  | Response status text =>
      if isOk status then c
      else warn ("batch request failed: " +:+ JsNumber.toString status +:+ " "
                 +:+ JsString.slice0 200 (default "" text))
  | Rejected err => warn ("batch request error: " +:+ err)
  end.

Definition enqueue (c : LangSmithClient) (op : BatchOp) : LangSmithClient :=
  let c' := mkClient (queue c ++ [op])%list (timer c) (endpoint c) (apiKey c)
              (clientBatchMaxSize c) (fetched c) (warned c) in
  if lengthReaches (length (queue c')) (clientBatchMaxSize c') then flush c' else c'.

Definition createRun (c : LangSmithClient) (run : LangSmithRun.t) : LangSmithClient :=
  enqueue c (mkBatchOp POST "/runs" (RunBody run)).

Definition updateRun (c : LangSmithClient) (runId : string) (p : PartialRun.t)
    : LangSmithClient :=
  enqueue c (mkBatchOp PATCH ("/runs/" +:+ runId) (PatchBody p)).

Definition close (c : LangSmithClient) : LangSmithClient :=
  mkClient (queue c) false (endpoint c) (apiKey c) (clientBatchMaxSize c)
    (fetched c) (warned c).

(** What can happen to the queue: a record is enqueued, the timer fires or
    [flush] is called, a call of [fetch] settles. *)
Inductive ClientStep :=
| DoCreate (run : LangSmithRun.t)
| DoUpdate (runId : string) (p : PartialRun.t)
| DoFlush
| DoSettle (outcome : FetchOutcome).

Definition clientStep (c : LangSmithClient) (st : ClientStep) : LangSmithClient :=
  match st with
  | DoCreate run => createRun c run
  | DoUpdate runId p => updateRun c runId p
  | DoFlush => flush c
  | DoSettle outcome => flushSettled c outcome
  end.

Definition clientSteps (c : LangSmithClient) (sts : list ClientStep) : LangSmithClient :=
  fold_left clientStep sts c.

(** ** The plug-in ([register], index.ts) *)

Record Plugin := mkPlugin {
  tracer : Tracer;
  client : LangSmithClient;
  engramTrace : bool
}.

Definition perform (c : LangSmithClient) (call : ClientCall) : LangSmithClient :=
  match call with
  | CreateRun run => createRun c run
  | UpdateRun runId p => updateRun c runId p
  end.

Definition traced (p : Plugin) (r : Tracer * list ClientCall) : Plugin :=
  mkPlugin r.1 (fold_left perform r.2 (client p)) (engramTrace p).

(** [register]: nothing is set up without an API key. *)
Definition register (cfg : PluginConfig) : option Plugin :=
  if negb (JsString.truthy_opt (langsmithApiKey cfg)) then None
  else Some (mkPlugin (newTracer cfg) (newClient cfg) (traceEngramLlm cfg)).

Definition sessionKeyOf (ctxSessionKey : option string) : string :=
  default "default" ctxSessionKey.

(** The handlers of the hooks, as the tracer sees them. A hook that is
    switched off in the configuration is not registered: its event does
    nothing. *)

(** Hook [before_agent_start]. *)
Definition onBeforeAgentStart (t : Tracer) (prompt ctxSessionKey : option string)
    (uuid : string) (now nowOrder : Date) : Tracer * list ClientCall :=
  if negb (traceAgentTurns (config t)) then (t, [])
  else
    match prompt with
    | Some text =>
        if JsString.truthy text then
          startAgentRun t (sessionKeyOf ctxSessionKey) text uuid now nowOrder
        else (t, [])
    | None => (t, [])
    end.

(** Hook [agent_end]. *)
Definition onAgentEnd (t : Tracer) (messages success durationMs : JSValue)
    (ctxSessionKey : option string) (now : Date) : Tracer * list ClientCall :=
  if negb (traceAgentTurns (config t)) then (t, [])
  else
    let usage := extractUsageFromMessages messages in
    endAgentRun t (sessionKeyOf ctxSessionKey) messages (Js.truthy success)
      usage durationMs now.

(** Hook [before_tool_call]: the last component is what the hook stores
    in [event._langsmithToolRunId]. *)
Definition onBeforeToolCall (t : Tracer) (toolName : string) (params : JSValue)
    (ctxSessionKey : option string) (uuid : string) (now nowOrder : Date)
    : Tracer * list ClientCall * option string :=
  if negb (traceToolCalls (config t)) then (t, [], None)
  else
    let r := startToolRun t (sessionKeyOf ctxSessionKey) toolName params
               uuid now nowOrder in
    (r.1, if JsString.truthy_opt r.2 then r.2 else None).

(** Hook [after_tool_call]. *)
Definition onAfterToolCall (t : Tracer) (langsmithToolRunId toolCallId : option string)
    (result : JSValue) (error : option string) (now : Date) : Tracer * list ClientCall :=
  if negb (traceToolCalls (config t)) then (t, [])
  else
    match nullish langsmithToolRunId toolCallId with
    | Some runId =>
        if JsString.truthy runId then endToolRun t runId result error now
        else (t, [])
    | None => (t, [])
    end.

Definition before_agent_start (p : Plugin) (prompt ctxSessionKey : option string)
    (uuid : string) (now nowOrder : Date) : Plugin :=
  traced p (onBeforeAgentStart (tracer p) prompt ctxSessionKey uuid now nowOrder).

Definition agent_end (p : Plugin) (messages success durationMs : JSValue)
    (ctxSessionKey : option string) (now : Date) : Plugin :=
  traced p (onAgentEnd (tracer p) messages success durationMs ctxSessionKey now).


Definition after_tool_call (p : Plugin) (langsmithToolRunId toolCallId : option string)
    (result : JSValue) (error : option string) (now : Date) : Plugin :=
  traced p (onAfterToolCall (tracer p) langsmithToolRunId toolCallId result error now).


(** ** Sequences of tracer operations *)

Inductive TracerOp :=
| OpStartAgent (sessionKey prompt uuid : string) (now nowOrder : Date)
| OpEndAgent (sessionKey : string) (messages : JSValue) (success : bool)
    (usage : option TokenUsage.t) (durationMs : JSValue) (now : Date)
| OpStartTool (sessionKey toolName : string) (params : JSValue) (uuid : string)
    (now nowOrder : Date)
| OpEndTool (toolCallId : string) (result : JSValue) (error : option string) (now : Date)
| OpTraceLlm (event : LlmTraceEvent.t) (nowStart nowEnd nowOrder : Date)
| OpRecordLlm (sessionKey m : string) (prov : option string).

Definition tracerOp (t : Tracer) (op : TracerOp) : Tracer * list ClientCall :=
  match op with
  | OpStartAgent sessionKey prompt uuid now nowOrder =>
      startAgentRun t sessionKey prompt uuid now nowOrder
  | OpEndAgent sessionKey messages success usage durationMs now =>
      endAgentRun t sessionKey messages success usage durationMs now
  | OpStartTool sessionKey toolName params uuid now nowOrder =>
      (startToolRun t sessionKey toolName params uuid now nowOrder).1
  | OpEndTool toolCallId result error now => endToolRun t toolCallId result error now
  | OpTraceLlm event nowStart nowEnd nowOrder =>
      traceLlmCall t event nowStart nowEnd nowOrder
  | OpRecordLlm sessionKey m prov => (recordLlmCall t sessionKey m prov, [])
  end.

(** The tracer after a sequence of operations. *)
Definition tracerOps (t : Tracer) (ops : list TracerOp) : Tracer :=
  fold_left (fun t op => (tracerOp t op).1) ops t.

(** The key of [activeToolRuns] that an operation writes or deletes. *)
Definition toolKeyOf (op : TracerOp) : option string :=
  match op with
  | OpStartTool _ _ _ uuid _ _ => Some uuid
  | OpEndTool toolCallId _ _ _ => Some toolCallId
  | OpTraceLlm event _ _ _ => Some ("llm:" +:+ LlmTraceEvent.traceId event)
  | _ => None
  end.

(** ** Vocabulary of the statements *)

(** The part of [s] before the first [sep], and the part after it. *)
Fixpoint before (sep : ascii) (s : string) : string :=
  match s with
  | EmptyString => EmptyString
  | String c s' => if Ascii.eqb c sep then EmptyString else String c (before sep s')
  end.

Fixpoint after (sep : ascii) (s : string) : string :=
  match s with
  | EmptyString => EmptyString
  | String c s' => if Ascii.eqb c sep then s' else after sep s'
  end.

(** The table of known prefixes of model names. *)
Definition prefixTable : list (string * string) :=
  [("claude", "anthropic"); ("gpt-", "openai"); ("o1", "openai"); ("o3", "openai");
   ("gemini", "google"); ("glm", "zai"); ("kimi", "kimi")].

(** The segment that follows the first segment equal to [x]. *)
Fixpoint segmentAfter (x : string) (parts : list string) : option string :=
  match parts with
  | [] => None
  | p :: rest => if String.eqb p x then head rest else segmentAfter x rest
  end.

Definition sourceTags : list string := ["cron"; "discord"; "telegram"; "slack"].

(** An assistant message that carries usage data. *)
Definition assistantWithUsage (msg : JSValue) : Prop :=
  Js.get msg "role" = JStr "assistant" /\ Js.truthy (Js.get msg "usage") = true.

(** The canonical form of a usage record [{input, output, cacheRead,
    cacheWrite}]: prompt, completion and total tokens. *)
Definition normalizedUsage (usage : JSValue) : Z * Z * Z :=
  let promptTokens :=
    Js.numberOr0 (Js.get usage "input") + Js.numberOr0 (Js.get usage "cacheRead")
    + Js.numberOr0 (Js.get usage "cacheWrite") in
  let completionTokens := Js.numberOr0 (Js.get usage "output") in
  (promptTokens, completionTokens, promptTokens + completionTokens).

(** The three token fields of an update. *)
Definition tokenFields (p : PartialRun.t) : option Z * option Z * option Z :=
  (PartialRun.prompt_tokens p, PartialRun.completion_tokens p, PartialRun.total_tokens p).

(** Digits of [n] in a field of [k] characters. *)
Fixpoint fixedWidth (k n : nat) : string :=
  match k with
  | O => EmptyString
  | S k' => fixedWidth k' (n / 10) +:+ String (JsNumber.digit (n mod 10)) EmptyString
  end.

(** Lexicographic comparison of lists of numbers; two dates are in
    chronological order when their fields, from the year to the
    millisecond, are in that order. *)
Fixpoint lexCompare (l1 l2 : list nat) : comparison :=
  match l1, l2 with
  | x :: r1, y :: r2 =>
      match Nat.compare x y with
      | Eq => lexCompare r1 r2
      | c => c
      end
  | [], [] => Eq
  | [], _ :: _ => Lt
  | _ :: _, [] => Gt
  end.

Definition dateFields (d : Date) : list nat :=
  [getUTCFullYear d; getUTCMonth d; getUTCDate d; getUTCHours d;
   getUTCMinutes d; getUTCSeconds d; getUTCMilliseconds d].

Definition dateCompare (d1 d2 : Date) : comparison :=
  lexCompare (dateFields d1) (dateFields d2).

(** The ranges of the getters, for a year of four digits. *)
Definition validDate (d : Date) : Prop :=
  (10 ^ 3 <= getUTCFullYear d < 10 ^ 4 /\ getUTCMonth d <= 11
   /\ 1 <= getUTCDate d <= 31 /\ getUTCHours d <= 23 /\ getUTCMinutes d <= 59
   /\ getUTCSeconds d <= 59 /\ getUTCMilliseconds d <= 999)%nat.

(** [s1 < s2] on strings. *)
Definition strLt (s1 s2 : string) : Prop := String.compare s1 s2 = Lt.

(** The runs that a list of calls creates, and the updates it makes. *)
Definition createdRuns (calls : list ClientCall) : list LangSmithRun.t :=
  omap (fun call => match call with CreateRun run => Some run | UpdateRun _ _ => None end)
    calls.

Definition updates (calls : list ClientCall) : list PartialRun.t :=
  omap (fun call => match call with UpdateRun _ p => Some p | CreateRun _ => None end)
    calls.

(** The records of a batch body. *)
Definition bodiesIn (b : BatchBody) : list Body :=
  (default [] (post b) ++ default [] (patch b))%list.

(** ** Example data *)

Definition exampleConfig : PluginConfig :=
  {| langsmithApiKey := Some "lsv2_pt_example";
     langsmithEndpoint := "https://api.smith.langchain.com";
     projectName := "openclaw";
     traceAgentTurns := true;
     traceToolCalls := true;
     traceEngramLlm := true;
     batchIntervalMs := Finite 1000;
     batchMaxSize := Finite 20;
     debug := false |}.

(** 8 February 2026, 09:05:03.007 UTC, and later instants. *)
Definition exampleDate (ms : nat) : Date :=
  {| getUTCFullYear := 2026; getUTCMonth := 1; getUTCDate := 8; getUTCHours := 9;
     getUTCMinutes := 5; getUTCSeconds := 3; getUTCMilliseconds := ms |}.

Definition turnId : string := "11111111-1111-4111-8111-111111111111".
Definition toolIdA : string := "aaaaaaaa-0000-4000-8000-000000000001".
Definition toolIdB : string := "bbbbbbbb-0000-4000-8000-000000000002".

(** A tracer with one open turn, for the session ["agent:generalist:cron:96b7"]. *)
Definition exampleSession : string := "agent:generalist:cron:96b7".

Definition exampleTurn : Tracer :=
  (startAgentRun (newTracer exampleConfig) exampleSession "run the nightly job"
     turnId (exampleDate 7) (exampleDate 7)).1.

(** A model call reported by the memory plug-in. *)
Definition exampleLlmEnd : LlmTraceEvent.t :=
  {| LlmTraceEvent.kind := llm_end;
     LlmTraceEvent.traceId := "eeeeeeee-0000-4000-8000-000000000005";
     LlmTraceEvent.model := "gpt-5.2";
     LlmTraceEvent.operation := "extraction";
     LlmTraceEvent.input := Some "Extract the facts.";
     LlmTraceEvent.output := Some "[]";
     LlmTraceEvent.durationMs := JNum 420;
     LlmTraceEvent.error := None;
     LlmTraceEvent.tokenUsage :=
       Some {| EventTokenUsage.input := Some 100; EventTokenUsage.output := Some 20;
               EventTokenUsage.total := None |} |}.

(** A queue that holds the two records of a turn: its create record and
    its update. *)
Definition exampleClient : LangSmithClient :=
  fold_left perform
    ((startAgentRun (newTracer exampleConfig) exampleSession "run the nightly job"
        turnId (exampleDate 7) (exampleDate 7)).2
     ++ (endAgentRun exampleTurn exampleSession (JArr []) true None JUndefined
           (exampleDate 9)).2)%list
    (newClient exampleConfig).

(** ** Configuration ([resolveEnvVars], [parseConfig], config.ts) *)

(** The plug-in configuration as the host hands it over. The fields read
    through [as string] and [as number] have these types when they are
    present; the fields tested with [!== false] and [!!] are any value. *)
Module RawConfig.
Record t := mk {
  langsmithApiKey : option string;
  langsmithEndpoint : option string;
  projectName : option string;
  traceAgentTurns : JSValue;
  traceToolCalls : JSValue;
  traceEngramLlm : JSValue;
  batchIntervalMs : option number;
  batchMaxSize : option number;
  debug : JSValue
}.

(** [{}] *)
Definition empty : t :=
  mk None None None JUndefined JUndefined JUndefined None None JUndefined.
End RawConfig.

(** A match of [r] at the first character of [s]: the capture and what is
    left of [s] after the match. *)
Definition matchRest (r : Regex.t) (s : string) : option (option string * string) :=
  Regex.run r s None (fun rest cap => Some (cap, rest)).

(** [s.replace(r, f)] for a pattern [r] with the [g] flag whose matches
    are never empty: [skip] counts the characters of the last match that
    are still to be passed over. *)
Fixpoint replaceAll (r : Regex.t) (f : option string -> string) (s : string)
    (skip : nat) : string :=
  match s with
  | EmptyString => EmptyString
  | String c s' =>
      match skip with
      | S k => replaceAll r f s' k
      | O =>
          match matchRest r s with
          | Some (cap, rest) =>
              f cap +:+ replaceAll r f s' (String.length s' - String.length rest)
          | None => String c (replaceAll r f s' 0)
          end
      end
  end.

(** [/\$\{([^}]+)\}/g] *)
Definition envVarRegex : Regex.t :=
  Regex.Seq (Regex.Lit "${")
    (Regex.Seq (Regex.Group (Regex.Plus (Regex.notChar "}"%char))) (Regex.Lit "}")).

(** [process.env]: the variables that are set, and the members that it
    inherits, each with the text that [String] gives for it. *)
Record Env := mkEnv {
  variables : gmap string string;
  inherited : gmap string string
}.

(** [process.env[name]]: a variable, or else an inherited member;
    [None] is [undefined]. *)
Definition getenv (env : Env) (name : string) : option string :=
  match variables env !! name with
  | Some v => Some v
  | None => inherited env !! name
  end.

(** The members of [Object.prototype], with the text that V8 gives for
    a built-in function and for an object. *)
Definition builtin (name : string) : string * string :=
  (name, "function " +:+ name +:+ "() { [native code] }").

Definition objectPrototype : gmap string string :=
  list_to_map
    [("constructor", "function Object() { [native code] }");
     builtin "__defineGetter__"; builtin "__defineSetter__";
     builtin "hasOwnProperty"; builtin "__lookupGetter__";
     builtin "__lookupSetter__"; builtin "isPrototypeOf";
     builtin "propertyIsEnumerable"; builtin "toString"; builtin "valueOf";
     ("__proto__", "[object Object]"); builtin "toLocaleString"].

(** The environment of a process with the variables [vars]. *)
Definition processEnv (vars : gmap string string) : Env := mkEnv vars objectPrototype.

Definition resolveEnvVars (env : Env) (value : option string)
    : option string :=
  match value with
  | None => None
  | Some v =>
      if negb (JsString.truthy v) then Some v
      else Some (replaceAll envVarRegex
                   (fun name => default "" (name ≫= getenv env)) v 0)
  end.

(** [a || b] on optional strings. *)
Definition orElse (a b : option string) : option string :=
  if JsString.truthy_opt a then a else b.

(** [(n as number) || d] *)
Definition numberOr (n : option number) (d : number) : number :=
  match n with
  | Some x => if numberTruthy x then x else d
  | None => d
  end.

(** [v !== false] *)
Definition notFalse (v : JSValue) : bool :=
  match v with
  | JBool false => false
  | _ => true
  end.

Definition parseConfig (raw : option RawConfig.t) (env : Env) : PluginConfig :=
  let r := default RawConfig.empty raw in
  let apiKey :=
    orElse (resolveEnvVars env (RawConfig.langsmithApiKey r))
           (getenv env "LANGSMITH_API_KEY") in
  {| langsmithApiKey := orElse apiKey None;
     langsmithEndpoint :=
       default "https://api.smith.langchain.com"
         (orElse (RawConfig.langsmithEndpoint r) None);
     projectName := default "openclaw" (orElse (RawConfig.projectName r) None);
     traceAgentTurns := notFalse (RawConfig.traceAgentTurns r);
     traceToolCalls := notFalse (RawConfig.traceToolCalls r);
     traceEngramLlm := notFalse (RawConfig.traceEngramLlm r);
     batchIntervalMs := numberOr (RawConfig.batchIntervalMs r) (Finite 1000);
     batchMaxSize := numberOr (RawConfig.batchMaxSize r) (Finite 20);
     debug := Js.truthy (RawConfig.debug r) |}.

(** ** The timer and the end of the service (client.ts, index.ts) *)




(** ** Sequences of events of the plug-in *)





(** ** Vocabulary of the further statements *)

(** The records of the calls of [fetch] made so far. *)
Definition sentBodies (c : LangSmithClient) : list Body :=
  concat (map (fun req => bodiesIn (requestBody req)) (fetched c)).

(** The records that a sequence of steps hands to the queue. *)
Definition enqueuedBodies (sts : list ClientStep) : list Body :=
  omap (fun st =>
          match st with
          | DoCreate run => Some (RunBody run)
          | DoUpdate _ p => Some (PatchBody p)
          | _ => None
          end) sts.

(** A request with at least one record, whose lists are absent rather
    than empty. *)
Definition wellFormedRequest (req : Request) : Prop :=
  bodiesIn (requestBody req) <> [] /\
  post (requestBody req) <> Some [] /\ patch (requestBody req) <> Some [].

(** What a call made by a client looks like. *)
Definition requestOf (c : LangSmithClient) (req : Request) : Prop :=
  url req = endpoint c +:+ "/runs/batch" /\ apiKeyHeader req = apiKey c /\
  wellFormedRequest req.

(** [JSON.stringify] accepts every record of a batch. *)
Definition serializableBatch (batch : list BatchOp) : bool :=
  forallb serializableBody (map body batch).

(** A new run, and an update. *)
Definition isCreate (b : Body) : Prop :=
  match b with
  | RunBody _ => True
  | PatchBody _ => False
  end.

Definition isUpdate (b : Body) : Prop :=
  match b with
  | PatchBody _ => True
  | RunBody _ => False
  end.

(** An operation as [createRun] and [updateRun] make them: a new run is
    posted, an update is patched. *)
Definition consistentOp (op : BatchOp) : Prop :=
  if isPost (method op) then isCreate (body op) else isUpdate (body op).

(** A call of the client [c0] whose records are among [known]: the new
    runs in [post], the updates in [patch], each accepted by
    [JSON.stringify]. *)
Definition goodRequest (c0 : LangSmithClient) (known : Body -> Prop) (req : Request)
    : Prop :=
  requestOf c0 req /\
  Forall isCreate (default [] (post (requestBody req))) /\
  Forall isUpdate (default [] (patch (requestBody req))) /\
  Forall (fun b => known b /\ serializableBody b = true) (bodiesIn (requestBody req)).

(** A state of the client [c0]: the buffer holds operations as
    [createRun] and [updateRun] make them, of records among [known], and
    the calls made so far are good. *)
Definition goodClient (c0 : LangSmithClient) (known : Body -> Prop)
    (c : LangSmithClient) : Prop :=
  endpoint c = endpoint c0 /\ apiKey c = apiKey c0 /\
  Forall (fun op => consistentOp op /\ known (body op)) (queue c) /\
  Forall (goodRequest c0 known) (fetched c).

(** [s.endsWith(c)] for one character. *)
Fixpoint endsWithChar (c : ascii) (s : string) : bool :=
  match s with
  | EmptyString => false
  | String d EmptyString => Ascii.eqb d c
  | String _ s' => endsWithChar c s'
  end.

(** Every character of [s] passes [cls]. *)
Fixpoint allChars (cls : ascii -> bool) (s : string) : bool :=
  match s with
  | EmptyString => true
  | String c s' => cls c && allChars cls s'
  end.

(** [s] is empty or starts with a character that fails [cls]. *)
Definition stopsAt (cls : ascii -> bool) (s : string) : bool :=
  match s with
  | EmptyString => true
  | String c _ => negb (cls c)
  end.

(** What holds of the entries of a tracer that started empty: an open
    turn is a root, and an entry of the tool map is filed under the
    identifier of its run, or under ["llm:"] followed by it. *)
Definition rootEntry (a : ActiveRun) : Prop :=
  traceId a = runId a /\ parentRunId a = None /\ JsString.truthy (dottedOrder a) = true.

Definition tracerInvariant (t : Tracer) : Prop :=
  (forall sessionKey a, activeAgentRuns t !! sessionKey = Some a -> rootEntry a) /\
  (forall key a, activeToolRuns t !! key = Some a ->
     (key = runId a \/ key = "llm:" +:+ runId a) /\
     (parentRunId a = None -> traceId a = runId a)).

(** The session key that an operation on turns or ledgers works on. *)
Definition sessionOf (op : TracerOp) : option string :=
  match op with
  | OpStartAgent sessionKey _ _ _ _ => Some sessionKey
  | OpEndAgent sessionKey _ _ _ _ _ => Some sessionKey
  | OpRecordLlm sessionKey _ _ => Some sessionKey
  | _ => None
  end.

(** The session key whose open turn an operation writes or deletes. *)
Definition turnKeyOf (op : TracerOp) : option string :=
  match op with
  | OpStartAgent sessionKey _ _ _ _ => Some sessionKey
  | OpEndAgent sessionKey _ _ _ _ _ => Some sessionKey
  | _ => None
  end.

(** The operation opens a turn for the session. *)
Definition startsTurn (sessionKey : string) (op : TracerOp) : Prop :=
  match op with
  | OpStartAgent sk _ _ _ _ => sk = sessionKey
  | _ => False
  end.

(** The elements of a list, each once, in the order in which they first
    occur. *)
Fixpoint firstOccurrences (l : list string) : list string :=
  match l with
  | [] => []
  | x :: rest => x :: filter (fun y => y <> x) (firstOccurrences rest)
  end.

(** The identifiers of the updates among some calls. *)
Definition updatedIds (calls : list ClientCall) : list string :=
  omap (fun call => match call with UpdateRun runId _ => Some runId | CreateRun _ => None end)
    calls.

(** * Properties *)

(** ** Strings *)

Lemma prefix_empty (s : string) : String.prefix "" s = true.
Proof. by destruct s. Qed.

Lemma includes_char (c a : ascii) (s : string) :
  JsString.includes (String c "") (String a s)
  = Ascii.eqb a c || JsString.includes (String c "") s.
Proof.
  cbn [JsString.includes String.prefix].
  destruct (ascii_dec c a) as [->|Hne].
  - by rewrite prefix_empty, Ascii.eqb_refl.
  - destruct (Ascii.eqb_spec a c); [congruence | done].
Qed.

Lemma join_cons (sep x : string) (rest : list string) :
  rest <> [] -> JsString.join sep (x :: rest) = x +:+ sep +:+ JsString.join sep rest.
Proof. by destruct rest. Qed.

Lemma split_not_nil (sep : ascii) (s : string) : JsString.split sep s <> [].
Proof.
  destruct s as [|c s]; cbn; [done |].
  destruct (Ascii.eqb c sep); [done |].
  by destruct (JsString.split sep s).
Qed.

Lemma join_split (sep : ascii) (s : string) :
  JsString.join (String sep "") (JsString.split sep s) = s.
Proof.
  induction s as [|c s IH]; [done |].
  cbn [JsString.split].
  destruct (Ascii.eqb_spec c sep) as [->|Hne].
  - rewrite join_cons by apply split_not_nil. by rewrite IH.
  - pose proof (split_not_nil sep s) as Hnil.
    destruct (JsString.split sep s) as [|seg rest]; [done |].
    destruct rest as [|seg' rest].
    + cbn in *. by rewrite IH.
    + rewrite join_cons in IH by done. rewrite join_cons by done.
      cbn. by rewrite <- IH.
Qed.

(** [split] cuts at the first separator: its head is what precedes it, and
    the other parts joined again are what follows it. *)
Lemma split_first (sep : ascii) (s : string) :
  exists rest,
    JsString.split sep s = before sep s :: rest /\
    (JsString.includes (String sep "") s = true ->
     JsString.join (String sep "") rest = after sep s).
Proof.
  induction s as [|c s (rest & Hsplit & Hjoin)].
  - exists []. by split.
  - cbn [JsString.split before after]. rewrite includes_char.
    destruct (Ascii.eqb_spec c sep) as [->|Hne].
    + exists (JsString.split sep s). split; [done |]. intros _. apply join_split.
    + rewrite Hsplit. exists rest. split; [done |]. cbn. exact Hjoin.
Qed.

(** ** Identity resolution *)

Lemma prefix_cons_inv (a : ascii) (p m : string) :
  String.prefix (String a p) m = true ->
  exists m', m = String a m' /\ String.prefix p m' = true.
Proof.
  destruct m as [|c m']; cbn; [done |].
  destruct (ascii_dec a c) as [->|]; [eauto | done].
Qed.

(** Replaces [m] by its first two characters, read off a prefix test that
    succeeded. *)
Ltac expose_two H :=
  apply prefix_cons_inv in H as (? & -> & H);
  apply prefix_cons_inv in H as (? & -> & H).

Lemma inferredProvider_table (m pre name : string) :
  In (pre, name) prefixTable ->
  JsString.startsWith m pre = true ->
  inferredProvider m = name.
Proof.
  unfold prefixTable, JsString.startsWith. cbn [In].
  intros Hin Hpre.
  repeat (destruct Hin as [[= <- <-]|Hin];
          [expose_two Hpre; unfold inferredProvider, JsString.startsWith;
           cbn; rewrite Hpre; reflexivity |]).
  destruct Hin.
Qed.

Lemma inferredProvider_unknown (m : string) :
  (forall pre name, In (pre, name) prefixTable -> JsString.startsWith m pre = false) ->
  inferredProvider m = "unknown".
Proof.
  intros Hnone. unfold inferredProvider.
  rewrite (Hnone "claude" "anthropic"), (Hnone "gpt-" "openai"),
    (Hnone "o1" "openai"), (Hnone "o3" "openai"), (Hnone "gemini" "google"),
    (Hnone "glm" "zai"), (Hnone "kimi" "kimi");
    [reflexivity | unfold prefixTable; cbn [In]; tauto ..].
Qed.

Lemma parseModelInfo_noProvider_eq (m : string) (prov : option string) :
  prov = None \/ prov = Some "" ->
  parseModelInfo m prov = parseModelInfo_noProvider m.
Proof. by intros [-> | ->]. Qed.

Lemma parseModelInfo_slash (m : string) :
  JsString.includes "/" m = true ->
  parseModelInfo_noProvider m = mkModelInfo (before "/" m) (after "/" m).
Proof.
  intros Hinc. unfold parseModelInfo_noProvider. rewrite Hinc.
  destruct (split_first "/" m) as (rest & -> & Hjoin).
  by rewrite Hjoin.
Qed.

(** C2, counterexample. The claim lets every supplied provider win. An
    empty provider string is supplied here, and the test [if (provider)]
    rejects it: the provider comes from the prefix table instead. *)
Lemma parseModelInfo_empty_provider :
  parseModelInfo "gpt-5.2" (Some "") = mkModelInfo "openai" "gpt-5.2" /\
  parseModelInfo "gpt-5.2" (Some "") <> mkModelInfo "" "gpt-5.2".
Proof. split; [reflexivity | discriminate]. Qed.

(** C2, amended. Identity resolution is a function with this precedence:
    (1) a supplied provider that is not the empty string is used as it is,
    with the model string as given; (2) otherwise, a model string that
    contains ["/"] is cut at the first ["/"], the provider is what
    precedes it and the model all that follows it; (3) otherwise the model
    string is kept and the provider is read from the prefix table,
    ["unknown"] when no prefix of the table matches. *)
Theorem parseModelInfo_precedence (m : string) (prov : option string) :
  (forall p, prov = Some p -> p <> "" -> parseModelInfo m prov = mkModelInfo p m) /\
  (prov = None \/ prov = Some "" ->
   JsString.includes "/" m = true ->
   parseModelInfo m prov = mkModelInfo (before "/" m) (after "/" m)) /\
  (prov = None \/ prov = Some "" ->
   JsString.includes "/" m = false ->
   model (parseModelInfo m prov) = m /\
   (forall pre name,
      In (pre, name) prefixTable -> JsString.startsWith m pre = true ->
      provider (parseModelInfo m prov) = name) /\
   ((forall pre name,
       In (pre, name) prefixTable -> JsString.startsWith m pre = false) ->
    provider (parseModelInfo m prov) = "unknown")).
Proof.
  split; [| split].
  - intros p -> Hp. cbn. unfold JsString.truthy.
    by destruct (String.eqb_spec p "").
  - intros Hprov Hinc.
    rewrite parseModelInfo_noProvider_eq by done. by apply parseModelInfo_slash.
  - intros Hprov Hinc.
    rewrite parseModelInfo_noProvider_eq by done.
    unfold parseModelInfo_noProvider. rewrite Hinc. cbn.
    split; [done |]. split.
    + apply inferredProvider_table.
    + apply inferredProvider_unknown.
Qed.

Lemma parseModelInfo_precedence_witness :
  parseModelInfo "claude-opus-4-5" (Some "bedrock") = mkModelInfo "bedrock" "claude-opus-4-5" /\
  parseModelInfo "openrouter/anthropic/claude-opus-4-5" None
  = mkModelInfo "openrouter" "anthropic/claude-opus-4-5" /\
  provider (parseModelInfo "gpt-5.2" None) = "openai" /\
  provider (parseModelInfo "mystery-model" None) = "unknown".
Proof.
  split; [| split; [| split]].
  - apply (proj1 (parseModelInfo_precedence "claude-opus-4-5" (Some "bedrock")));
      [reflexivity | discriminate].
  - apply (proj1 (proj2 (parseModelInfo_precedence
                            "openrouter/anthropic/claude-opus-4-5" None)));
      [by left | reflexivity].
  - apply (proj1 (proj2 (proj2 (proj2 (parseModelInfo_precedence "gpt-5.2" None))
                          (or_introl eq_refl) eq_refl)) "gpt-" "openai");
      [cbn; tauto | reflexivity].
  - apply (proj2 (proj2 (proj2 (proj2 (parseModelInfo_precedence "mystery-model" None))
                          (or_introl eq_refl) eq_refl))).
    intros pre name Hin. cbn in Hin.
    repeat (destruct Hin as [[= <- <-]|Hin]; [reflexivity |]). destruct Hin.
Defined.

(** ** Tag extraction *)

Lemma arr_includes_In (parts : list string) (x : string) :
  JsString.arr_includes parts x = true <-> In x parts.
Proof.
  unfold JsString.arr_includes. rewrite existsb_exists. split.
  - intros (y & Hin & Heq). apply String.eqb_eq in Heq. by subst.
  - intros Hin. exists x. split; [done | apply String.eqb_refl].
Qed.

Lemma arr_includes_not_In (parts : list string) (x : string) :
  JsString.arr_includes parts x = false <-> ~ In x parts.
Proof.
  rewrite <- arr_includes_In. by destruct (JsString.arr_includes parts x).
Qed.

Lemma indexOf_range (parts : list string) (x : string) :
  JsString.indexOf parts x = -1 \/ 0 <= JsString.indexOf parts x.
Proof.
  induction parts as [|p rest IH]; cbn; [by left |].
  destruct (String.eqb p x); [right; lia |].
  destruct (Z.ltb_spec (JsString.indexOf rest x) 0); [by left | right; lia].
Qed.

Lemma at_index_cons (p : string) (rest : list string) (i : Z) :
  0 <= i -> JsString.at_index (p :: rest) (i + 1) = JsString.at_index rest i.
Proof.
  intros Hi. unfold JsString.at_index.
  destruct (Z.ltb_spec (i + 1) 0), (Z.ltb_spec i 0); try lia.
  replace (Z.to_nat (i + 1)) with (S (Z.to_nat i)) by lia. done.
Qed.

(** What follows the first occurrence of [x], read as the code reads it:
    through [indexOf], guarded or not by [idx >= 0]. *)
Lemma at_index_indexOf (parts : list string) (x : string) :
  (0 <= JsString.indexOf parts x ->
   JsString.at_index parts (JsString.indexOf parts x + 1) = segmentAfter x parts) /\
  (JsString.indexOf parts x = -1 -> segmentAfter x parts = None).
Proof.
  induction parts as [|p rest [IHge IHnone]]; cbn; [split; [lia | done] |].
  destruct (String.eqb p x).
  - split; [| lia]. intros _. by destruct rest.
  - destruct (Z.ltb_spec (JsString.indexOf rest x) 0) as [Hlt|Hge].
    + split; [lia |]. intros _. apply IHnone.
      destruct (indexOf_range rest x); lia.
    + split; [| lia]. intros _. rewrite at_index_cons by lia. by apply IHge.
Qed.

Lemma indexOf_In (parts : list string) (x : string) :
  In x parts -> 0 <= JsString.indexOf parts x.
Proof.
  induction parts as [|p rest IH]; cbn; [done |].
  destruct (String.eqb_spec p x) as [->|Hne]; [lia |].
  intros [Heq|Hin]; [done |]. specialize (IH Hin).
  destruct (Z.ltb_spec (JsString.indexOf rest x) 0); lia.
Qed.

(** The tag of the detail that goes with a source: what follows the first
    segment [marker], when it is not empty. *)
Lemma detail_tag (parts : list string) (marker label seg : string) :
  segmentAfter marker parts = Some seg -> seg <> "" ->
  0 <= JsString.indexOf parts marker /\
  match JsString.at_index parts (JsString.indexOf parts marker + 1) with
  | Some s => if JsString.truthy s then [label +:+ s] else []
  | None => []
  end = [label +:+ seg].
Proof.
  intros Hseg Hne.
  destruct (at_index_indexOf parts marker) as [Hge Hnone].
  destruct (indexOf_range parts marker) as [Hm|Hm].
  - rewrite Hnone in Hseg; done.
  - split; [done |]. rewrite Hge, Hseg by done.
    unfold JsString.truthy. by destruct (String.eqb_spec seg "").
Qed.

Lemma promptTag_elem (prompt : option string) (tags : list string) (source : string)
    (r : Regex.t) (make : string -> string) (x : string) :
  In x (promptTag prompt tags source r make) -> exists cap, x = make cap.
Proof.
  unfold promptTag.
  destruct (_ && _); [| done].
  destruct (Regex.exec _ _) as [[cap|]|]; [| done ..].
  destruct (JsString.truthy cap); [| done].
  intros [<-|[]]. by exists cap.
Qed.

Lemma extractTags_elem (sessionKey : string) (prompt : option string) (x : string) :
  In x (extractTags sessionKey prompt) ->
  In x (sessionTags sessionKey)
  \/ (exists cap, x = "name:" +:+ cap) \/ (exists cap, x = "guild:" +:+ cap).
Proof.
  unfold extractTags. cbn zeta. rewrite !in_app_iff.
  intros [[Hin|Hin]|Hin]; [by left | right; left | right; right];
    apply promptTag_elem in Hin as [cap ->]; eauto.
Qed.

Lemma sessionTags_extractTags (sessionKey : string) (prompt : option string) (x : string) :
  In x (sessionTags sessionKey) -> In x (extractTags sessionKey prompt).
Proof. unfold extractTags. cbn zeta. rewrite !in_app_iff. tauto. Qed.

(** A source tag of the result is the tag that [sessionTags] starts with. *)
Lemma source_in_sessionTags (sessionKey : string) (prompt : option string) (a : string) :
  In a sourceTags -> In a (extractTags sessionKey prompt) ->
  head (sessionTags sessionKey) = Some a.
Proof.
  intros Ha Hin. apply extractTags_elem in Hin as [Hin|[[cap ->]|[cap ->]]].
  - revert Hin. unfold sessionTags.
    repeat match goal with
           | |- context [JsString.arr_includes ?p ?x] =>
               destruct (JsString.arr_includes p x)
           end; cbn [In head];
      repeat match goal with
             | |- context [match ?o with Some _ => _ | None => _ end] => destruct o
             | |- context [if ?b then _ else _] => destruct b
             end; cbn [In head];
      intros Hin; cbn in Ha;
      repeat (destruct Ha as [<-|Ha]; [intuition (try discriminate; done) |]);
      destruct Ha.
  - cbn in Ha. repeat (destruct Ha as [Ha|Ha]; [discriminate Ha |]). destruct Ha.
  - cbn in Ha. repeat (destruct Ha as [Ha|Ha]; [discriminate Ha |]). destruct Ha.
Qed.

(** C9, counterexample. In ["agent:generalist:cron:"] a segment follows
    ["cron"]: the empty one. The claim asks for the tag ["job:"]; the test
    [if (parts[cronIdx + 1])] rejects the empty segment and only ["cron"]
    is emitted. In the same way a ["channel"] segment followed by a value
    gives no tag when an earlier ["channel"] segment is followed by the
    empty segment. *)
Lemma extractTags_empty_job_segment :
  JsString.split ":" "agent:generalist:cron:" = ["agent"; "generalist"; "cron"; ""] /\
  segmentAfter "cron" (JsString.split ":" "agent:generalist:cron:") = Some "" /\
  extractTags "agent:generalist:cron:" None = ["cron"] /\
  ~ In ("job:" +:+ "") (extractTags "agent:generalist:cron:" None) /\
  extractTags "agent:generalist:discord:channel::channel:123" None = ["discord"].
Proof.
  repeat split; try reflexivity.
  cbn. intros [H|[]]. discriminate H.
Qed.

(** C9, amended. Tag extraction is a function that looks for the sources
    in the order cron, discord, telegram, slack, and at most one source tag
    is in its result, which is one of the segments of the session key. If
    the segments contain ["cron"], the result contains ["cron"] and, when
    the segment after the first ["cron"] exists and is not empty,
    ["job:<that segment>"]. Else if they contain ["discord"], the result
    contains ["discord"] and, when the segment after the first ["channel"]
    exists and is not empty, ["channel:<that segment>"]. Else ["telegram"],
    else ["slack"]. The two session keys of the specification give the
    tags it names. *)
Theorem extractTags_sources (sessionKey : string) (prompt : option string) :
  let parts := JsString.split ":" sessionKey in
  let tags := extractTags sessionKey prompt in
  (In "cron" parts ->
   In "cron" tags /\
   forall seg, segmentAfter "cron" parts = Some seg -> seg <> "" ->
               In ("job:" +:+ seg) tags) /\
  (~ In "cron" parts -> In "discord" parts ->
   In "discord" tags /\
   forall seg, segmentAfter "channel" parts = Some seg -> seg <> "" ->
               In ("channel:" +:+ seg) tags) /\
  (~ In "cron" parts -> ~ In "discord" parts -> In "telegram" parts ->
   In "telegram" tags) /\
  (~ In "cron" parts -> ~ In "discord" parts -> ~ In "telegram" parts ->
   In "slack" parts -> In "slack" tags) /\
  (forall a b, In a sourceTags -> In b sourceTags -> In a tags -> In b tags -> a = b) /\
  (forall a, In a sourceTags -> In a tags -> In a parts) /\
  (In "cron" (extractTags "agent:generalist:cron:96b7" None) /\
   In "job:96b7" (extractTags "agent:generalist:cron:96b7" None)) /\
  (In "discord" (extractTags "agent:generalist:discord:channel:123" None) /\
   In "channel:123" (extractTags "agent:generalist:discord:channel:123" None)).
Proof.
  intros parts tags.
  repeat match goal with |- _ /\ _ => split end.
  - intros Hcron. apply arr_includes_In in Hcron.
    split; [| intros seg Hseg Hne];
      apply sessionTags_extractTags; unfold sessionTags; fold parts; rewrite Hcron.
    + by left.
    + right. destruct (detail_tag parts "cron" "job:" seg Hseg Hne) as [_ ->]. by left.
  - intros Hcron Hdiscord.
    apply arr_includes_not_In in Hcron. apply arr_includes_In in Hdiscord.
    split; [| intros seg Hseg Hne];
      apply sessionTags_extractTags; unfold sessionTags; fold parts;
      rewrite Hcron, Hdiscord.
    + by left.
    + right. destruct (detail_tag parts "channel" "channel:" seg Hseg Hne) as [Hge ->].
      destruct (Z.geb_spec (JsString.indexOf parts "channel") 0); [by left | lia].
  - intros Hcron Hdiscord Htele.
    apply arr_includes_not_In in Hcron, Hdiscord. apply arr_includes_In in Htele.
    apply sessionTags_extractTags; unfold sessionTags; fold parts.
    rewrite Hcron, Hdiscord, Htele. by left.
  - intros Hcron Hdiscord Htele Hslack.
    apply arr_includes_not_In in Hcron, Hdiscord, Htele. apply arr_includes_In in Hslack.
    apply sessionTags_extractTags; unfold sessionTags; fold parts.
    rewrite Hcron, Hdiscord, Htele, Hslack. by left.
  - intros a b Ha Hb Hina Hinb.
    apply source_in_sessionTags in Hina, Hinb; [congruence | done ..].
  - intros a Ha Hin. apply source_in_sessionTags in Hin; [| done].
    revert Hin. unfold sessionTags. fold parts.
    repeat match goal with
           | |- context [JsString.arr_includes parts ?x] =>
               let E := fresh "E" in
               destruct (JsString.arr_includes parts x) eqn:E;
               [apply arr_includes_In in E |]
           end; cbn [head]; intros [= <-]; done.
  - vm_compute. intuition.
  - vm_compute. intuition.
  - vm_compute. intuition.
  - vm_compute. intuition.
Qed.

Lemma extractTags_sources_witness :
  In "cron" (extractTags "agent:ops:cron:nightly" (Some "[cron:nightly Backup (0 3 * * *)]")) /\
  In "job:nightly" (extractTags "agent:ops:cron:nightly" (Some "[cron:nightly Backup (0 3 * * *)]")).
Proof.
  pose proof (proj1 (extractTags_sources "agent:ops:cron:nightly"
                       (Some "[cron:nightly Backup (0 3 * * *)]"))) as H.
  cbv zeta in H.
  assert (Hin : In "cron" (JsString.split ":" "agent:ops:cron:nightly")) by (vm_compute; intuition).
  destruct (H Hin) as [Hcron Hjob].
  split; [exact Hcron |].
  apply (Hjob "nightly"); [reflexivity | discriminate].
Defined.

(** ** Comparison of strings *)

Lemma append_cons (x : ascii) (a b : string) : String x a +:+ b = String x (a +:+ b).
Proof. reflexivity. Qed.

Lemma append_empty_l (a : string) : "" +:+ a = a.
Proof. reflexivity. Qed.

Lemma append_assoc (a b c : string) : (a +:+ b) +:+ c = a +:+ (b +:+ c).
Proof.
  induction a as [|x a IH]; [done |]. rewrite !append_cons. by f_equal.
Qed.

Lemma append_length (a b : string) :
  String.length (a +:+ b) = (String.length a + String.length b)%nat.
Proof.
  induction a as [|x a IH]; [done |]. rewrite append_cons. cbn. by f_equal.
Qed.

Lemma ascii_compare_refl (c : ascii) : Ascii.compare c c = Eq.
Proof. apply N.compare_refl. Qed.

Lemma compare_append_same (p a b : string) :
  String.compare (p +:+ a) (p +:+ b) = String.compare a b.
Proof.
  induction p as [|c p IH]; [done |].
  rewrite !append_cons. cbn [String.compare]. by rewrite ascii_compare_refl.
Qed.

Lemma prefix_append (p a : string) : String.prefix p (p +:+ a) = true.
Proof.
  induction p as [|c p IH]; [apply prefix_empty |].
  rewrite append_cons. cbn [String.prefix]. by destruct (ascii_dec c c).
Qed.

(** ** Decimal digits *)

Lemma digit_compare (a b : nat) :
  (a < 10)%nat -> (b < 10)%nat ->
  Ascii.compare (JsNumber.digit a) (JsNumber.digit b) = Nat.compare a b.
Proof.
  intros Ha Hb.
  do 10 (destruct a as [|a];
         [do 10 (destruct b as [|b]; [reflexivity |]); lia |]).
  lia.
Qed.

Lemma compare_div_mod (a b : nat) :
  Nat.compare a b =
  match Nat.compare (a / 10) (b / 10) with
  | Eq => Nat.compare (a mod 10) (b mod 10)
  | c => c
  end.
Proof.
  pose proof (Nat.div_mod_eq a 10). pose proof (Nat.div_mod_eq b 10).
  pose proof (Nat.mod_upper_bound a 10). pose proof (Nat.mod_upper_bound b 10).
  destruct (Nat.compare_spec (a / 10) (b / 10));
    [destruct (Nat.compare_spec (a mod 10) (b mod 10)) | ..];
    first [apply Nat.compare_eq_iff | apply Nat.compare_lt_iff | apply Nat.compare_gt_iff];
    lia.
Qed.

Lemma fixedWidth_length (k n : nat) : String.length (fixedWidth k n) = k.
Proof.
  revert n. induction k as [|k IH]; intros n; cbn; [done |].
  rewrite append_length, IH. cbn. lia.
Qed.

(** Fields of the same width compare as the numbers in them. *)
Lemma fixedWidth_compare (k a b : nat) (x y : string) :
  (a < 10 ^ k)%nat -> (b < 10 ^ k)%nat ->
  String.compare (fixedWidth k a +:+ x) (fixedWidth k b +:+ y) =
  match Nat.compare a b with
  | Eq => String.compare x y
  | c => c
  end.
Proof.
  revert a b x y. induction k as [|k IH]; intros a b x y Ha Hb.
  - cbn in Ha, Hb. assert (a = 0%nat) as -> by lia. assert (b = 0%nat) as -> by lia.
    done.
  - cbn [fixedWidth]. rewrite !append_assoc.
    rewrite Nat.pow_succ_r' in Ha, Hb.
    rewrite IH by (apply Nat.Div0.div_lt_upper_bound; lia).
    rewrite (compare_div_mod a b).
    destruct (Nat.compare (a / 10) (b / 10)); [| done ..].
    rewrite !append_cons, !append_empty_l. cbn [String.compare].
    rewrite digit_compare by (apply Nat.mod_upper_bound; lia).
    by destruct (Nat.compare (a mod 10) (b mod 10)).
Qed.

Lemma toString_aux_fixedWidth (k fuel n : nat) (acc : string) :
  (1 <= k <= fuel)%nat -> (n < 10 ^ k)%nat -> (k = 1%nat \/ 10 ^ (k - 1) <= n)%nat ->
  JsNumber.toString_aux fuel n acc = fixedWidth k n +:+ acc.
Proof.
  revert fuel n acc. induction k as [|k IH]; intros fuel n acc Hk Hlt Hge; [lia |].
  destruct fuel as [|fuel]; [lia |]. cbn [JsNumber.toString_aux fixedWidth].
  rewrite append_assoc, append_cons, append_empty_l.
  destruct (Nat.ltb_spec n 10) as [Hsmall|Hbig].
  - destruct k as [|k]; [done |].
    destruct Hge as [Hk1|Hge]; [lia |].
    replace (S (S k) - 1)%nat with (S k) in Hge by lia.
    rewrite Nat.pow_succ_r' in Hge.
    pose proof (Nat.pow_nonzero 10 k). lia.
  - destruct k as [|k]; [cbn in Hlt; lia |].
    apply IH.
    + lia.
    + rewrite Nat.pow_succ_r' in Hlt. apply Nat.Div0.div_lt_upper_bound. lia.
    + destruct Hge as [Hk1|Hge]; [lia |].
      replace (S (S k) - 1)%nat with (S k) in Hge by lia.
      replace (S k - 1)%nat with k by lia.
      rewrite Nat.pow_succ_r' in Hge.
      destruct k as [|k]; [by left | right].
      apply Nat.div_le_lower_bound; lia.
Qed.

Lemma append_empty_r (a : string) : a +:+ "" = a.
Proof. induction a as [|x a IH]; [done |]. rewrite append_cons. by f_equal. Qed.

Lemma toString_fixedWidth (k n : nat) :
  (1 <= k)%nat -> (n < 10 ^ k)%nat -> (k = 1%nat \/ 10 ^ (k - 1) <= n)%nat ->
  JsNumber.toString n = fixedWidth k n.
Proof.
  intros Hk Hlt Hge. unfold JsNumber.toString.
  rewrite (toString_aux_fixedWidth k); [apply append_empty_r | | done ..].
  destruct Hge as [->|Hge]; [lia |].
  pose proof (Nat.pow_gt_lin_r 10 (k - 1)). lia.
Qed.

Lemma digits_exist (k n : nat) :
  (1 <= k)%nat -> (n < 10 ^ k)%nat ->
  exists j, (1 <= j <= k /\ n < 10 ^ j /\ (j = 1 \/ 10 ^ (j - 1) <= n))%nat.
Proof.
  induction k as [|k IH]; intros Hk Hlt; [lia |].
  destruct k as [|k]; [exists 1%nat; lia |].
  destruct (Nat.lt_ge_cases n (10 ^ S k)) as [Hsmall|Hbig].
  - destruct IH as (j & ? & ? & ?); [lia | done |]. exists j. lia.
  - exists (S (S k)). replace (S (S k) - 1)%nat with (S k) by lia. lia.
Qed.

Lemma repeat_snoc (c : ascii) (n : nat) :
  JsString.repeat c n +:+ String c "" = String c (JsString.repeat c n).
Proof.
  induction n as [|n IH]; [done |].
  cbn [JsString.repeat]. rewrite append_cons. by f_equal.
Qed.

Lemma fixedWidth_zero (k : nat) : fixedWidth k 0 = JsString.repeat "0" k.
Proof.
  induction k as [|k IH]; [done |].
  cbn [fixedWidth JsString.repeat]. change (0 / 10)%nat with 0%nat.
  rewrite IH. apply repeat_snoc.
Qed.

Lemma fixedWidth_extend (j i n : nat) :
  (n < 10 ^ j)%nat ->
  fixedWidth (i + j) n = JsString.repeat "0" i +:+ fixedWidth j n.
Proof.
  revert n. induction j as [|j IH]; intros n Hlt.
  - cbn in Hlt. assert (n = 0%nat) as -> by lia.
    rewrite Nat.add_0_r, fixedWidth_zero. cbn [fixedWidth]. by rewrite append_empty_r.
  - rewrite Nat.add_succ_r. cbn [fixedWidth].
    rewrite Nat.pow_succ_r' in Hlt.
    rewrite IH by (apply Nat.Div0.div_lt_upper_bound; lia).
    apply append_assoc.
Qed.

(** [pad] writes a number that fits in [len] digits as a field of width
    [len]. *)
Lemma pad_fixedWidth (n len : nat) :
  (1 <= len)%nat -> (n < 10 ^ len)%nat -> pad n len = fixedWidth len n.
Proof.
  intros Hlen Hlt.
  destruct (digits_exist len n Hlen Hlt) as (j & Hj & Hltj & Hgej).
  unfold pad, JsString.padStart.
  rewrite (toString_fixedWidth j) by (done || lia).
  rewrite fixedWidth_length, <- fixedWidth_extend by done.
  by replace (len - j + j)%nat with len by lia.
Qed.

(** ** Ordering keys *)

Lemma formatDottedOrderTime_fixed (d : Date) :
  validDate d ->
  formatDottedOrderTime d =
  fixedWidth 4 (getUTCFullYear d) +:+ fixedWidth 2 (getUTCMonth d + 1)
  +:+ fixedWidth 2 (getUTCDate d) +:+ "T" +:+ fixedWidth 2 (getUTCHours d)
  +:+ fixedWidth 2 (getUTCMinutes d) +:+ fixedWidth 2 (getUTCSeconds d)
  +:+ fixedWidth 3 (getUTCMilliseconds d) +:+ "000Z".
Proof.
  intros (Hy & Hm & Hd & Hh & Hmi & Hs & Hms).
  assert (10 ^ 2 = 100)%nat as E2 by reflexivity.
  assert (10 ^ 3 = 1000)%nat as E3 by reflexivity.
  unfold formatDottedOrderTime.
  rewrite (toString_fixedWidth 4) by (lia || (right; apply Hy)).
  rewrite !pad_fixedWidth by lia.
  reflexivity.
Qed.

(** Two timestamps compare as the dates they are made from; what follows
    them decides between equal dates. *)
Lemma formatDottedOrderTime_compare (d1 d2 : Date) (x y : string) :
  validDate d1 -> validDate d2 ->
  String.compare (formatDottedOrderTime d1 +:+ x) (formatDottedOrderTime d2 +:+ y) =
  match dateCompare d1 d2 with
  | Eq => String.compare x y
  | c => c
  end.
Proof.
  intros Hv1 Hv2.
  rewrite !formatDottedOrderTime_fixed by done.
  destruct Hv1 as (Hy1 & Hm1 & Hd1 & Hh1 & Hmi1 & Hs1 & Hms1).
  destruct Hv2 as (Hy2 & Hm2 & Hd2 & Hh2 & Hmi2 & Hs2 & Hms2).
  assert (10 ^ 2 = 100)%nat as E2 by reflexivity.
  assert (10 ^ 3 = 1000)%nat as E3 by reflexivity.
  unfold dateCompare, dateFields. cbn [lexCompare].
  rewrite !append_assoc.
  rewrite fixedWidth_compare by lia.
  destruct (Nat.compare (getUTCFullYear d1) (getUTCFullYear d2)); [| done ..].
  rewrite fixedWidth_compare by lia.
  rewrite !Nat.add_1_r, Nat.compare_succ.
  destruct (Nat.compare (getUTCMonth d1) (getUTCMonth d2)); [| done ..].
  rewrite fixedWidth_compare by lia.
  destruct (Nat.compare (getUTCDate d1) (getUTCDate d2)); [| done ..].
  rewrite !(append_cons "T"), !append_empty_l. cbn [String.compare].
  rewrite ascii_compare_refl.
  rewrite fixedWidth_compare by lia.
  destruct (Nat.compare (getUTCHours d1) (getUTCHours d2)); [| done ..].
  rewrite fixedWidth_compare by lia.
  destruct (Nat.compare (getUTCMinutes d1) (getUTCMinutes d2)); [| done ..].
  rewrite fixedWidth_compare by lia.
  destruct (Nat.compare (getUTCSeconds d1) (getUTCSeconds d2)); [| done ..].
  rewrite fixedWidth_compare by lia.
  destruct (Nat.compare (getUTCMilliseconds d1) (getUTCMilliseconds d2)); [| done ..].
  apply (compare_append_same "000Z").
Qed.

Lemma formatDottedOrderTime_length (d : Date) :
  (4 <= String.length (formatDottedOrderTime d))%nat.
Proof. unfold formatDottedOrderTime. rewrite !append_length. cbn. lia. Qed.

Lemma truthy_length (s : string) : (0 < String.length s)%nat -> JsString.truthy s = true.
Proof. destruct s; cbn; [lia | done]. Qed.

(** An ordering key is never the empty string. *)
Lemma makeDottedOrder_truthy (runId : string) (parent : option string) (now : Date) :
  JsString.truthy (makeDottedOrder runId parent now) = true.
Proof.
  pose proof (formatDottedOrderTime_length now).
  apply truthy_length. unfold makeDottedOrder.
  destruct parent as [p|]; [destruct (JsString.truthy p) |];
    rewrite !append_length; lia.
Qed.

Lemma makeDottedOrder_child (runId parent : string) (now : Date) :
  JsString.truthy parent = true ->
  makeDottedOrder runId (Some parent) now =
  (parent +:+ ".") +:+ formatDottedOrderTime now +:+ JsString.removeAll "-" runId.
Proof.
  intros Hp. unfold makeDottedOrder. rewrite Hp. by rewrite append_assoc.
Qed.

(** The width of the year is not fixed: the first instant of the year
    10000 sorts before the last instant of the year 9999. *)
Lemma formatDottedOrderTime_five_digit_year :
  dateCompare (mkDate 9999 11 31 23 59 59 999) (mkDate 10000 0 1 0 0 0 0) = Lt /\
  String.compare (formatDottedOrderTime (mkDate 9999 11 31 23 59 59 999))
    (formatDottedOrderTime (mkDate 10000 0 1 0 0 0 0)) = Gt.
Proof. split; by vm_compute. Qed.

(** C4, counterexample. Two tool calls start under the same turn, the
    second after the first, while the clock still shows the same
    millisecond. The two keys carry the same timestamp and the identifiers
    decide: the key of the first child is the greater one. *)
Lemma makeDottedOrder_same_millisecond :
  let first := startToolRun exampleTurn exampleSession "read" JNull
                 toolIdB (exampleDate 8) (exampleDate 8) in
  let second := startToolRun first.1.1 exampleSession "write" JNull
                  toolIdA (exampleDate 8) (exampleDate 8) in
  map LangSmithRun.parent_run_id (createdRuns first.1.2) = [Some turnId] /\
  map LangSmithRun.parent_run_id (createdRuns second.1.2) = [Some turnId] /\
  map LangSmithRun.dotted_order (createdRuns first.1.2)
  = ["20260208T090503007000Z11111111111141118111111111111111.20260208T090503008000Zbbbbbbbb000040008000000000000002"] /\
  map LangSmithRun.dotted_order (createdRuns second.1.2)
  = ["20260208T090503007000Z11111111111141118111111111111111.20260208T090503008000Zaaaaaaaa000040008000000000000001"] /\
  ~ strLt
      "20260208T090503007000Z11111111111141118111111111111111.20260208T090503008000Zbbbbbbbb000040008000000000000002"
      "20260208T090503007000Z11111111111141118111111111111111.20260208T090503008000Zaaaaaaaa000040008000000000000001".
Proof.
  cbv zeta. repeat split; try (vm_compute; reflexivity).
  unfold strLt. vm_compute. discriminate.
Qed.

(** C4, amended. Let P be the ordering key of a span and C1, C2 two
    children of P, C1 created at the clock reading [d1] and C2 at [d2].
    Both keys begin with the key of P followed by ["."]. If [d1] is
    earlier than [d2] by the millisecond clock, the key of C1 is strictly
    less than the key of C2. If the two readings are the same
    millisecond, the keys are ordered as the identifiers of the two spans
    with their dashes removed. *)
Theorem makeDottedOrder_children (parentId : string) (grandParent : option string)
    (dp : Date) (id1 id2 : string) (d1 d2 : Date) :
  validDate d1 -> validDate d2 ->
  let parent := makeDottedOrder parentId grandParent dp in
  let key1 := makeDottedOrder id1 (Some parent) d1 in
  let key2 := makeDottedOrder id2 (Some parent) d2 in
  String.prefix (parent +:+ ".") key1 = true /\
  String.prefix (parent +:+ ".") key2 = true /\
  (dateCompare d1 d2 = Lt -> strLt key1 key2) /\
  (dateCompare d1 d2 = Eq ->
   String.compare key1 key2 =
   String.compare (JsString.removeAll "-" id1) (JsString.removeAll "-" id2)).
Proof.
  intros Hv1 Hv2 parent key1 key2. subst key1 key2.
  rewrite !makeDottedOrder_child by apply makeDottedOrder_truthy.
  split; [apply prefix_append |]. split; [apply prefix_append |].
  unfold strLt. rewrite compare_append_same, formatDottedOrderTime_compare by done.
  split; intros ->; done.
Qed.

Lemma makeDottedOrder_children_witness :
  strLt (makeDottedOrder toolIdB (Some (makeDottedOrder turnId None (exampleDate 7)))
           (exampleDate 8))
        (makeDottedOrder toolIdA (Some (makeDottedOrder turnId None (exampleDate 7)))
           (exampleDate 9)).
Proof.
  assert (Hv : forall ms, (ms <= 999)%nat -> validDate (exampleDate ms)).
  { intros ms Hms. unfold validDate. cbn [exampleDate getUTCFullYear getUTCMonth
      getUTCDate getUTCHours getUTCMinutes getUTCSeconds getUTCMilliseconds].
    assert (10 ^ 3 <= 2026 < 10 ^ 4)%nat by (split; vm_compute; lia).
    repeat split; lia. }
  apply (makeDottedOrder_children turnId None (exampleDate 7) toolIdB toolIdA
           (exampleDate 8) (exampleDate 9)); [apply Hv; lia | apply Hv; lia |].
  reflexivity.
Defined.

(** ** The tracer: closing a turn *)

Lemma endAgentRun_open (t : Tracer) (sessionKey : string) (messages : JSValue)
    (success : bool) (usage : option TokenUsage.t) (durationMs : JSValue) (now : Date)
    (active : ActiveRun) :
  activeAgentRuns t !! sessionKey = Some active ->
  endAgentRun t sessionKey messages success usage durationMs now =
  (mkTracer (delete sessionKey (activeAgentRuns t)) (activeToolRuns t)
     (delete sessionKey (sessionModels t)) (config t),
   [UpdateRun (runId active)
      (agentPatch active (getSessionModelInfo t sessionKey)
         (getAllSessionModels t sessionKey) sessionKey messages success usage
         durationMs now)]).
Proof. intros Hopen. unfold endAgentRun. by rewrite Hopen. Qed.

Lemma onAgentEnd_open (t : Tracer) (messages success durationMs : JSValue)
    (ctxSessionKey : option string) (now : Date) (active : ActiveRun) :
  traceAgentTurns (config t) = true ->
  activeAgentRuns t !! sessionKeyOf ctxSessionKey = Some active ->
  (onAgentEnd t messages success durationMs ctxSessionKey now).2 =
  [UpdateRun (runId active)
     (agentPatch active (getSessionModelInfo t (sessionKeyOf ctxSessionKey))
        (getAllSessionModels t (sessionKeyOf ctxSessionKey))
        (sessionKeyOf ctxSessionKey) messages (Js.truthy success)
        (extractUsageFromMessages messages) durationMs now)].
Proof.
  intros Hon Hopen. unfold onAgentEnd. rewrite Hon. cbn [negb].
  by rewrite (endAgentRun_open _ _ _ _ _ _ _ active).
Qed.

Lemma traced_nothing (p : Plugin) : traced p (tracer p, []) = p.
Proof. by destruct p. Qed.

(** C10. A turn-end event that closes an open turn puts the error
    ["Agent turn failed"] in the update when its [success] is false (or
    any other falsy value), and no error when [success] is true. *)
Theorem onAgentEnd_error (t : Tracer) (messages success durationMs : JSValue)
    (ctxSessionKey : option string) (now : Date) (active : ActiveRun) :
  traceAgentTurns (config t) = true ->
  activeAgentRuns t !! sessionKeyOf ctxSessionKey = Some active ->
  exists p,
    (onAgentEnd t messages success durationMs ctxSessionKey now).2
    = [UpdateRun (runId active) p] /\
    PartialRun.error p
    = (if Js.truthy success then None else Some "Agent turn failed") /\
    (success = JBool false -> PartialRun.error p = Some "Agent turn failed") /\
    (success = JBool true -> PartialRun.error p = None).
Proof.
  intros Hon Hopen. eexists. split; [by apply onAgentEnd_open |].
  cbn [agentPatch PartialRun.error].
  split; [done |]. split; by intros ->.
Qed.

Lemma onAgentEnd_error_witness :
  map PartialRun.error
    (updates (onAgentEnd exampleTurn (JArr []) (JBool false) JUndefined
                (Some exampleSession) (exampleDate 9)).2)
  = [Some "Agent turn failed"].
Proof.
  destruct (onAgentEnd_error exampleTurn (JArr []) (JBool false) JUndefined
              (Some exampleSession) (exampleDate 9)
              {| runId := turnId; traceId := turnId;
                 dottedOrder := makeDottedOrder turnId None (exampleDate 7);
                 parentRunId := None; startTime := toISOString (exampleDate 7);
                 input := None |} eq_refl)
    as (p & -> & _ & Herr & _); [by vm_compute |].
  cbn. by rewrite Herr.
Defined.

(** ** Events that match nothing *)

(** C7. An end event that matches no open span does nothing: a turn-end
    for a session without an open turn, and a tool-end whose identifier
    is missing or names no entry of the map of open tool spans
    ([activeToolRuns]), leave the tracer as it was and
    ask nothing of the client, so the plug-in (the span maps, the ledger,
    the queue and the calls already sent) is unchanged. A turn-start
    without a prompt, or with an empty one, does nothing either. The
    operations are functions: they return, and raise nothing. *)
Theorem unmatched_events_do_nothing (p : Plugin) :
  (forall sessionKey messages success usage durationMs now,
     activeAgentRuns (tracer p) !! sessionKey = None ->
     endAgentRun (tracer p) sessionKey messages success usage durationMs now
     = (tracer p, [])) /\
  (forall toolCallId result error now,
     activeToolRuns (tracer p) !! toolCallId = None ->
     endToolRun (tracer p) toolCallId result error now = (tracer p, [])) /\
  (forall messages success durationMs ctxSessionKey now,
     activeAgentRuns (tracer p) !! sessionKeyOf ctxSessionKey = None ->
     agent_end p messages success durationMs ctxSessionKey now = p) /\
  (forall langsmithToolRunId toolCallId result error now,
     (forall runId, nullish langsmithToolRunId toolCallId = Some runId ->
                    activeToolRuns (tracer p) !! runId = None) ->
     after_tool_call p langsmithToolRunId toolCallId result error now = p) /\
  (forall prompt ctxSessionKey uuid now nowOrder,
     prompt = None \/ prompt = Some "" ->
     before_agent_start p prompt ctxSessionKey uuid now nowOrder = p).
Proof.
  assert (Hturn : forall sessionKey messages success usage durationMs now,
            activeAgentRuns (tracer p) !! sessionKey = None ->
            endAgentRun (tracer p) sessionKey messages success usage durationMs now
            = (tracer p, [])).
  { intros * Hnone. unfold endAgentRun. by rewrite Hnone. }
  assert (Htool : forall toolCallId result error now,
            activeToolRuns (tracer p) !! toolCallId = None ->
            endToolRun (tracer p) toolCallId result error now = (tracer p, [])).
  { intros * Hnone. unfold endToolRun. by rewrite Hnone. }
  repeat split; [exact Hturn | exact Htool | ..].
  - intros * Hnone. unfold agent_end, onAgentEnd.
    destruct (negb _); [apply traced_nothing |].
    rewrite Hturn by done. apply traced_nothing.
  - intros * Hnone. unfold after_tool_call, onAfterToolCall.
    destruct (negb _); [apply traced_nothing |].
    destruct (nullish _ _) as [runId|]; [| apply traced_nothing].
    destruct (JsString.truthy runId); [| apply traced_nothing].
    rewrite Htool by by apply Hnone. apply traced_nothing.
  - intros * Hprompt. unfold before_agent_start, onBeforeAgentStart.
    destruct (negb _); [apply traced_nothing |].
    destruct Hprompt as [-> | ->]; apply traced_nothing.
Qed.

Lemma unmatched_events_do_nothing_witness :
  let p := mkPlugin exampleTurn (newClient exampleConfig) true in
  agent_end p (JArr []) (JBool true) JUndefined (Some "agent:other") (exampleDate 9) = p /\
  after_tool_call p None (Some "call_17") JNull None (exampleDate 9) = p /\
  before_agent_start p None (Some "agent:other") toolIdA (exampleDate 9) (exampleDate 9) = p.
Proof.
  intros p.
  destruct (unmatched_events_do_nothing p) as (_ & _ & Hturn & Htool & Hstart).
  split; [| split].
  - apply Hturn. by vm_compute.
  - apply Htool. intros runId [= <-]. by vm_compute.
  - apply Hstart. by left.
Defined.

(** ** Tags of a turn *)

(** C6, counterexample. The turn is opened for a cron session, whose
    tags are ["cron"] and ["job:96b7"]. The update emitted when it closes
    carries an empty list of tags. *)
Lemma endAgentRun_tags_not_extracted :
  extractTags exampleSession (Some "run the nightly job") = ["cron"; "job:96b7"] /\
  map PartialRun.tags
    (updates (endAgentRun exampleTurn exampleSession (JArr []) true None JUndefined
                (exampleDate 9)).2)
  = [Some []].
Proof. split; by vm_compute. Qed.

(** C6, amended. The tags computed by the tag extractor from the session
    key and the prompt are carried by the create record emitted when the
    turn starts (no tags field when there is none). The update emitted
    when the turn closes carries the tags [provider:<provider>] and
    [model:<model>] of the last identity of the ledger, or an empty list
    when the ledger holds no identity. The entry kept for the open turn
    does not hold the prompt. *)
Theorem turn_tags (t : Tracer) (sessionKey prompt uuid : string) (now nowOrder : Date) :
  let started := startAgentRun t sessionKey prompt uuid now nowOrder in
  map LangSmithRun.tags (createdRuns started.2)
  = [match extractTags sessionKey (Some prompt) with
     | [] => None
     | tags => Some tags
     end] /\
  (input <$> activeAgentRuns started.1 !! sessionKey) = Some None /\
  forall (t' : Tracer) messages success usage durationMs nowEnd (active : ActiveRun),
    activeAgentRuns t' !! sessionKey = Some active ->
    map PartialRun.tags
      (updates (endAgentRun t' sessionKey messages success usage durationMs nowEnd).2)
    = [Some match getSessionModelInfo t' sessionKey with
            | Some mi => ["provider:" +:+ provider mi; "model:" +:+ model mi]
            | None => []
            end].
Proof.
  cbv zeta. split; [| split].
  - unfold startAgentRun. cbn. by destruct (extractTags _ _).
  - unfold startAgentRun. cbn. by rewrite lookup_insert_eq.
  - intros * Hopen. by rewrite (endAgentRun_open _ _ _ _ _ _ _ active).
Qed.

Lemma turn_tags_witness :
  map PartialRun.tags
    (updates (endAgentRun (recordLlmCall exampleTurn exampleSession "gpt-5.2" None)
                exampleSession (JArr []) true None JUndefined (exampleDate 9)).2)
  = [Some ["provider:openai"; "model:gpt-5.2"]].
Proof.
  pose proof (proj2 (proj2 (turn_tags (newTracer exampleConfig) exampleSession
                              "run the nightly job" turnId (exampleDate 7) (exampleDate 7))))
    as H.
  rewrite (H (recordLlmCall exampleTurn exampleSession "gpt-5.2" None) (JArr []) true None
             JUndefined (exampleDate 9)
             {| runId := turnId; traceId := turnId;
                dottedOrder := makeDottedOrder turnId None (exampleDate 7);
                parentRunId := None; startTime := toISOString (exampleDate 7);
                input := None |}); by vm_compute.
Defined.

(** ** Usage of a turn *)

Lemma usageOfMessage_Some (msg : JSValue) :
  assistantWithUsage msg ->
  usageOfMessage msg =
  let '(p, c, tot) := normalizedUsage (Js.get msg "usage") in
  Some (TokenUsage.mk None None (Some tot) (Some p) (Some c)).
Proof.
  intros [Hrole Husage]. unfold usageOfMessage, normalizedUsage.
  destruct msg; try discriminate Hrole.
  cbn [Js.truthy Js.isObject negb orb]. rewrite Hrole, Husage. cbv beta iota.
  rewrite String.eqb_refl. cbn [negb]. do 3 f_equal. lia.
Qed.

Lemma usageOfMessage_None (msg : JSValue) :
  ~ assistantWithUsage msg -> usageOfMessage msg = None.
Proof.
  intros Hnot. unfold usageOfMessage.
  destruct (negb (Js.truthy msg) || negb (Js.isObject msg)); [done |].
  destruct (Js.get msg "role") as [| | | | |r| |] eqn:Hrole; try done.
  destruct (String.eqb_spec r "assistant") as [->|Hne]; [| done]. cbn [negb].
  destruct (Js.truthy (Js.get msg "usage")) eqn:Husage; [| done].
  destruct Hnot. by split.
Qed.

Lemma scanFromEnd_None (msgs : list JSValue) :
  Forall (fun m => ~ assistantWithUsage m) msgs -> scanFromEnd msgs = None.
Proof.
  induction 1 as [|m msgs Hm _ IH]; [done |].
  cbn. by rewrite usageOfMessage_None.
Qed.

(** The scan stops at the last assistant message that carries usage. *)
Lemma extractUsageFromMessages_last (pre post : list JSValue) (msg : JSValue) :
  assistantWithUsage msg ->
  Forall (fun m => ~ assistantWithUsage m) post ->
  extractUsageFromMessages (JArr (pre ++ msg :: post)) = usageOfMessage msg.
Proof.
  intros Hmsg Hpost. unfold extractUsageFromMessages.
  rewrite rev_app_distr. cbn [rev]. rewrite <- app_assoc. cbn [app].
  assert (Hrev : Forall (fun m => ~ assistantWithUsage m) (rev post)).
  { apply List.Forall_forall. intros m Hin. rewrite <- in_rev in Hin.
    rewrite List.Forall_forall in Hpost. by apply Hpost. }
  clear Hpost. induction Hrev as [|m ms Hm _ IH].
  - cbn. rewrite usageOfMessage_Some by done.
    by destruct (normalizedUsage _) as [[? ?] ?].
  - cbn. by rewrite usageOfMessage_None.
Qed.

Lemma extractUsageFromMessages_none (messages : JSValue) :
  (forall elems, messages = JArr elems ->
                 Forall (fun m => ~ assistantWithUsage m) elems) ->
  extractUsageFromMessages messages = None.
Proof.
  intros Hnone. destruct messages as [| | | | | |elems|]; try done.
  cbn. apply scanFromEnd_None.
  specialize (Hnone elems eq_refl).
  apply List.Forall_forall. intros m Hin. rewrite <- in_rev in Hin.
  rewrite List.Forall_forall in Hnone. by apply Hnone.
Qed.

Lemma agentPatch_tokens_extracted (active : ActiveRun) (modelInfo : option ModelInfo)
    (allModels : list string) (sessionKey : string) (messages : JSValue)
    (success : bool) (durationMs : JSValue) (now : Date) (p c tot : Z) :
  tokenFields (agentPatch active modelInfo allModels sessionKey messages success
                 (Some (TokenUsage.mk None None (Some tot) (Some p) (Some c)))
                 durationMs now)
  = if 0 <? tot then (Some p, Some c, Some tot) else (None, None, None).
Proof. unfold tokenFields, agentPatch. cbn. by destruct (0 <? tot). Qed.

(** C1, counterexample. The last message is an assistant message whose
    usage counts no token. The claim gives the turn the normalized usage
    of that message, three zeros; the update carries no token field. *)
Lemma onAgentEnd_zero_usage :
  let messages :=
    JArr [JObj [("role", JStr "user"); ("content", JStr "ping")];
          JObj [("role", JStr "assistant"); ("content", JStr "");
                ("usage", JObj [("input", JNum 0); ("output", JNum 0);
                                ("cacheRead", JNum 0); ("cacheWrite", JNum 0)])]] in
  extractUsageFromMessages messages
  = Some (TokenUsage.mk None None (Some 0) (Some 0) (Some 0)) /\
  map tokenFields
    (updates (onAgentEnd exampleTurn messages (JBool true) JUndefined
                (Some exampleSession) (exampleDate 9)).2)
  = [(None, None, None)].
Proof. split; by vm_compute. Qed.

(** C1, amended. For every turn-end event that closes an open turn, the
    token fields of the update are those of the last assistant message
    with usage data in the message list of the event (the first one met
    from the end): promptTokens = input + cacheRead + cacheWrite,
    completionTokens = output, totalTokens = promptTokens +
    completionTokens, when that total is positive. When the total is not
    positive, or when no assistant message with usage exists, the update
    has no token field. *)
Theorem onAgentEnd_token_fields (t : Tracer) (messages success durationMs : JSValue)
    (ctxSessionKey : option string) (now : Date) (active : ActiveRun) :
  traceAgentTurns (config t) = true ->
  activeAgentRuns t !! sessionKeyOf ctxSessionKey = Some active ->
  exists p,
    (onAgentEnd t messages success durationMs ctxSessionKey now).2
    = [UpdateRun (runId active) p] /\
    (forall pre msg post,
       messages = JArr (pre ++ msg :: post) ->
       assistantWithUsage msg ->
       Forall (fun m => ~ assistantWithUsage m) post ->
       let '(promptTokens, completionTokens, totalTokens) :=
         normalizedUsage (Js.get msg "usage") in
       totalTokens = promptTokens + completionTokens /\
       tokenFields p =
       if 0 <? totalTokens
       then (Some promptTokens, Some completionTokens, Some totalTokens)
       else (None, None, None)) /\
    ((forall elems, messages = JArr elems ->
                    Forall (fun m => ~ assistantWithUsage m) elems) ->
     tokenFields p = (None, None, None)).
Proof.
  intros Hon Hopen. eexists. split; [by apply onAgentEnd_open |]. split.
  - intros pre msg post -> Hmsg Hpost.
    rewrite extractUsageFromMessages_last, usageOfMessage_Some by done.
    unfold normalizedUsage. cbv zeta. split; [done |].
    apply agentPatch_tokens_extracted.
  - intros Hnone. by rewrite extractUsageFromMessages_none.
Qed.

Lemma onAgentEnd_token_fields_witness :
  map tokenFields
    (updates (onAgentEnd exampleTurn
                (JArr [JObj [("role", JStr "assistant");
                             ("usage", JObj [("input", JNum 90); ("output", JNum 40)])];
                       JObj [("role", JStr "assistant");
                             ("usage", JObj [("input", JNum 10); ("output", JNum 5);
                                             ("cacheRead", JNum 2); ("cacheWrite", JNum 1)])];
                       JObj [("role", JStr "toolResult")]])
                (JBool true) JUndefined (Some exampleSession) (exampleDate 9)).2)
  = [(Some 13, Some 5, Some 18)].
Proof.
  destruct (onAgentEnd_token_fields exampleTurn
              (JArr [JObj [("role", JStr "assistant");
                           ("usage", JObj [("input", JNum 90); ("output", JNum 40)])];
                     JObj [("role", JStr "assistant");
                           ("usage", JObj [("input", JNum 10); ("output", JNum 5);
                                           ("cacheRead", JNum 2); ("cacheWrite", JNum 1)])];
                     JObj [("role", JStr "toolResult")]])
              (JBool true) JUndefined (Some exampleSession) (exampleDate 9)
              {| runId := turnId; traceId := turnId;
                 dottedOrder := makeDottedOrder turnId None (exampleDate 7);
                 parentRunId := None; startTime := toISOString (exampleDate 7);
                 input := None |} eq_refl)
    as (p & -> & Hlast & _); [by vm_compute |].
  specialize (Hlast
    [JObj [("role", JStr "assistant");
           ("usage", JObj [("input", JNum 90); ("output", JNum 40)])]]
    (JObj [("role", JStr "assistant");
           ("usage", JObj [("input", JNum 10); ("output", JNum 5);
                           ("cacheRead", JNum 2); ("cacheWrite", JNum 1)])])
    [JObj [("role", JStr "toolResult")]] eq_refl).
  cbn in Hlast. destruct Hlast as [_ Hfields].
  - by split.
  - constructor; [| constructor]. intros [Hrole _]. discriminate Hrole.
  - cbn. by rewrite Hfields.
Defined.

(** ** The ledger of models *)

Lemma filterUnseen_spec (seen : gset string) (l : list string) :
  NoDup (filterUnseen seen l) /\
  forall x, x ∈ filterUnseen seen l <-> x ∈ l /\ x ∉ seen.
Proof.
  revert seen. induction l as [|s l IH]; intros seen.
  - split; [constructor |]. intros x. cbn. set_solver.
  - cbn [filterUnseen]. case_bool_decide as Hseen.
    + destruct (IH seen) as [Hnd Hin]. split; [done |].
      intros x. rewrite Hin. set_solver.
    + destruct (IH ({[s]} ∪ seen)) as [Hnd Hin]. split.
      * apply NoDup_cons. split; [| done]. rewrite Hin. set_solver.
      * intros x. rewrite elem_of_cons, Hin.
        destruct (decide (x = s)) as [->|Hne]; set_solver.
Qed.

(** [getAllSessionModels] lists every label of the ledger once. *)
Lemma getAllSessionModels_distinct (t : Tracer) (sessionKey : string) :
  NoDup (getAllSessionModels t sessionKey) /\
  forall x, x ∈ getAllSessionModels t sessionKey
            <-> x ∈ map modelLabel (default [] (sessionModels t !! sessionKey)).
Proof.
  unfold getAllSessionModels.
  destruct (sessionModels t !! sessionKey) as [models|]; cbn [default].
  - destruct (filterUnseen_spec ∅ (map modelLabel models)) as [Hnd Hin].
    split; [done |]. intros x. rewrite Hin. set_solver.
  - split; [constructor | done].
Qed.

Lemma filterUnseen_firstOccurrences (seen : gset string) (l : list string) :
  filterUnseen seen l = filter (fun y => y ∉ seen) (firstOccurrences l).
Proof.
  revert seen. induction l as [|s l IH]; intros seen; [done |].
  cbn [filterUnseen firstOccurrences]. case_bool_decide as Hseen.
  - rewrite filter_cons_False by (intros Hs; by apply Hs).
    rewrite IH, list_filter_filter. apply list_filter_iff.
    intros y. split; [| by intros [? _]].
    intros Hy. split; [done |]. by intros ->.
  - rewrite filter_cons_True by done. f_equal.
    rewrite IH, list_filter_filter. apply list_filter_iff. set_solver.
Qed.

(** [getAllSessionModels] lists the labels of the ledger in the order
    in which they first occur. *)
Lemma getAllSessionModels_firstOccurrences (t : Tracer) (sessionKey : string) :
  getAllSessionModels t sessionKey
  = firstOccurrences (map modelLabel (default [] (sessionModels t !! sessionKey))).
Proof.
  unfold getAllSessionModels.
  destruct (sessionModels t !! sessionKey) as [models|]; [| done].
  change (default [] (Some models)) with models.
  rewrite filterUnseen_firstOccurrences.
  generalize (firstOccurrences (map modelLabel models)). intros l.
  induction l as [|x l IH]; [done |].
  rewrite filter_cons_True by set_solver. by rewrite IH.
Qed.

Lemma traceLlmCall_sessionModels (t : Tracer) (event : LlmTraceEvent.t)
    (nowStart nowEnd nowOrder : Date) :
  sessionModels (traceLlmCall t event nowStart nowEnd nowOrder).1 = sessionModels t /\
  activeAgentRuns (traceLlmCall t event nowStart nowEnd nowOrder).1 = activeAgentRuns t.
Proof. unfold traceLlmCall. by destruct (LlmTraceEvent.kind event). Qed.

Lemma agentPatch_outputs_identity (active : ActiveRun) (modelInfo : option ModelInfo)
    (allModels : list string) (sessionKey : string) (messages : JSValue)
    (success : bool) (usage : option TokenUsage.t) (durationMs : JSValue) (now : Date) :
  exists out,
    PartialRun.outputs (agentPatch active modelInfo allModels sessionKey messages
                          success usage durationMs now) = Some out /\
    Js.get out "model" = Js.ofOptString (model <$> modelInfo) /\
    Js.get out "provider" = Js.ofOptString (provider <$> modelInfo) /\
    Js.get out "all_models" =
    (if (1 <? length allModels)%nat then JArr (map JStr allModels) else JUndefined).
Proof.
  eexists. split; [reflexivity |].
  match goal with
  | |- context [Js.spreadIf ?b [("usage_metadata", _)]] => generalize b
  end.
  intros hasUsage.
  by destruct modelInfo as [mi|], (1 <? length allModels)%nat, hasUsage.
Qed.

(** A model call that ends while a turn is open: its event names no
    session, and [traceLlmCall] creates the run of the call without
    touching the ledger. *)
Lemma traceLlmCall_leaves_ledger :
  let traced := traceLlmCall exampleTurn exampleLlmEnd
                  (exampleDate 8) (exampleDate 8) (exampleDate 8) in
  is_Some (activeAgentRuns exampleTurn !! exampleSession) /\
  length (createdRuns traced.2) = 1%nat /\
  sessionModels traced.1 !! exampleSession = None /\
  getSessionModelInfo traced.1 exampleSession = None.
Proof. cbv zeta. split; [by eexists | by vm_compute]. Qed.




(** ** Tool spans *)

(** An operation changes [activeToolRuns] at its own key only. *)
Lemma tracerOp_other_tool (t : Tracer) (op : TracerOp) (key : string) :
  toolKeyOf op <> Some key ->
  activeToolRuns (tracerOp t op).1 !! key = activeToolRuns t !! key.
Proof.
  intros Hkey. destruct op; cbn in Hkey |- *.
  - done.
  - unfold endAgentRun. by destruct (activeAgentRuns t !! sessionKey).
  - apply lookup_insert_ne. congruence.
  - unfold endToolRun. destruct (activeToolRuns t !! toolCallId); [| done].
    apply lookup_delete_ne. congruence.
  - unfold traceLlmCall. destruct (LlmTraceEvent.kind event); cbn.
    + apply lookup_insert_ne. congruence.
    + destruct (activeToolRuns t !! _); [| done]. apply lookup_delete_ne. congruence.
    + destruct (activeToolRuns t !! _); [| done]. apply lookup_delete_ne. congruence.
  - done.
Qed.

Lemma tracerOps_other_tool (ops : list TracerOp) (t : Tracer) (key : string) :
  Forall (fun op => toolKeyOf op <> Some key) ops ->
  activeToolRuns (tracerOps t ops) !! key = activeToolRuns t !! key.
Proof.
  intros Hops. revert t. induction Hops as [|op ops Hop _ IH]; intros t; [done |].
  unfold tracerOps in *. cbn [fold_left]. rewrite IH. by apply tracerOp_other_tool.
Qed.

Lemma tracerOp_config (t : Tracer) (op : TracerOp) : config (tracerOp t op).1 = config t.
Proof.
  destruct op; cbn; try done.
  - unfold endAgentRun. by destruct (activeAgentRuns t !! sessionKey).
  - unfold endToolRun. by destruct (activeToolRuns t !! toolCallId).
  - unfold traceLlmCall. by destruct (LlmTraceEvent.kind event).
Qed.







(** ** The batch queue *)

Lemma flush_empty (c : LangSmithClient) : queue c = [] -> flush c = c.
Proof. intros Hq. unfold flush. by rewrite Hq. Qed.

Lemma nonEmpty_default (l : list Body) :
  default [] (if (0 <? length l)%nat then Some l else None) = l.
Proof. by destruct l. Qed.

Lemma nonEmpty_cases (l : list Body) :
  (if (0 <? length l)%nat then Some l else None) <> Some [].
Proof. by destruct l. Qed.

Lemma flush_some (c : LangSmithClient) :
  queue c <> [] ->
  (0 <? length (bodiesOf isPost (queue c)))%nat
  || (0 <? length (bodiesOf (fun m => negb (isPost m)) (queue c)))%nat = true.
Proof.
  destruct (queue c) as [|op batch]; [done |]. intros _.
  unfold bodiesOf. cbn [filter list_filter]. destruct op as [[] ? ?]; cbn;
    repeat case_decide; try done; cbn; by rewrite ?orb_true_r.
Qed.

Lemma bodiesOf_partition (batch : list BatchOp) :
  bodiesOf isPost batch ++ bodiesOf (fun m => negb (isPost m)) batch ≡ₚ map body batch.
Proof.
  unfold bodiesOf. induction batch as [|op batch IH]; [done |].
  cbn [map]. rewrite !filter_cons.
  destruct (isPost (method op)) eqn:Hm; repeat case_decide; try done; cbn [map negb].
  - cbn [app]. by f_equiv.
  - rewrite <- Permutation_middle. by f_equiv.
Qed.

(** [JSON.stringify] throws on the body of the request exactly when it
    throws on a record of the batch. *)
Lemma serializableBatch_bodiesOf (batch : list BatchOp) :
  forallb serializableBody
    (bodiesOf isPost batch ++ bodiesOf (fun m => negb (isPost m)) batch)
  = serializableBatch batch.
Proof.
  unfold serializableBatch. apply eq_iff_eq_true. rewrite !forallb_forall.
  pose proof (bodiesOf_partition batch) as Hperm.
  split; intros Hall b Hin; apply Hall.
  - eapply Permutation_in; [symmetry; exact Hperm | exact Hin].
  - eapply Permutation_in; [exact Hperm | exact Hin].
Qed.

(** A flush of records that [JSON.stringify] accepts issues one call. *)
Lemma flush_sent (c : LangSmithClient) :
  queue c <> [] -> serializableBatch (queue c) = true ->
  exists req,
    flush c = mkClient [] (timer c) (endpoint c) (apiKey c) (clientBatchMaxSize c)
                (fetched c ++ [req]) (warned c) /\
    url req = endpoint c +:+ "/runs/batch" /\ apiKeyHeader req = apiKey c /\
    post (requestBody req) <> Some [] /\ patch (requestBody req) <> Some [] /\
    default [] (post (requestBody req)) = bodiesOf isPost (queue c) /\
    default [] (patch (requestBody req)) = bodiesOf (fun m => negb (isPost m)) (queue c).
Proof.
  intros Hq Hser. unfold flush.
  rewrite (flush_some c Hq), serializableBatch_bodiesOf, Hser.
  destruct (queue c) as [|op batch] eqn:Hqueue; [done |]. cbn [length Nat.eqb].
  eexists. split; [reflexivity |]. cbn [url apiKeyHeader requestBody post patch].
  split; [done |]. split; [done |].
  split; [apply nonEmpty_cases |]. split; [apply nonEmpty_cases |].
  by rewrite !nonEmpty_default.
Qed.

(** A flush of a batch with a record that [JSON.stringify] throws on
    drops the batch: it warns and calls nothing. *)
Lemma flush_dropped (c : LangSmithClient) :
  queue c <> [] -> serializableBatch (queue c) = false ->
  flush c = mkClient [] (timer c) (endpoint c) (apiKey c) (clientBatchMaxSize c)
              (fetched c)
              (warned c ++ ["batch request error: " +:+ stringifyError]).
Proof.
  intros Hq Hser. unfold flush.
  rewrite (flush_some c Hq), serializableBatch_bodiesOf, Hser.
  by destruct (queue c).
Qed.

Lemma bodiesOf_elem (keep : Method -> bool) (batch : list BatchOp) (b : Body) :
  b ∈ bodiesOf keep batch <-> exists op, op ∈ batch /\ keep (method op) = true /\ body op = b.
Proof.
  unfold bodiesOf. rewrite list_elem_of_fmap. split.
  - intros (op & -> & Hin). apply list_elem_of_filter in Hin as [Hkeep Hin]. eauto.
  - intros (op & Hin & Hkeep & <-). exists op. split; [done |].
    by apply list_elem_of_filter.
Qed.

Lemma flush_fields (c : LangSmithClient) :
  queue (flush c) = [] /\ timer (flush c) = timer c /\ endpoint (flush c) = endpoint c /\
  apiKey (flush c) = apiKey c /\ clientBatchMaxSize (flush c) = clientBatchMaxSize c.
Proof.
  unfold flush. destruct (queue c) as [|op batch] eqn:Hq; cbn [length Nat.eqb].
  - by rewrite Hq.
  - destruct (_ || _); [destruct (forallb _ _) |]; done.
Qed.

(** Steps of the queue only add calls of [fetch] after those already
    made. *)
Lemma flush_fetched (c : LangSmithClient) :
  exists more, fetched (flush c) = (fetched c ++ more)%list.
Proof.
  unfold flush. destruct (length (queue c) =? 0)%nat.
  - exists []. by rewrite app_nil_r.
  - destruct (_ || _); [destruct (forallb _ _) |]; cbn [fetched];
      [by eexists | exists [] | exists []]; by rewrite app_nil_r.
Qed.

Lemma enqueue_fetched (c : LangSmithClient) (op : BatchOp) :
  exists more, fetched (enqueue c op) = (fetched c ++ more)%list.
Proof.
  unfold enqueue. destruct (lengthReaches _ _).
  - apply (flush_fetched (mkClient _ _ _ _ _ _ _)).
  - exists []. cbn. by rewrite app_nil_r.
Qed.

Lemma flushSettled_keeps (c : LangSmithClient) (outcome : FetchOutcome) :
  queue (flushSettled c outcome) = queue c /\
  fetched (flushSettled c outcome) = fetched c.
Proof.
  unfold flushSettled. destruct outcome as [status text|err]; [| done].
  by destruct (isOk status).
Qed.

Lemma clientStep_fetched (c : LangSmithClient) (st : ClientStep) :
  exists more, fetched (clientStep c st) = (fetched c ++ more)%list.
Proof.
  destruct st; cbn.
  - apply enqueue_fetched.
  - apply enqueue_fetched.
  - apply flush_fetched.
  - exists []. rewrite app_nil_r. apply flushSettled_keeps.
Qed.

Lemma clientSteps_fetched (sts : list ClientStep) (c : LangSmithClient) :
  exists more, fetched (clientSteps c sts) = (fetched c ++ more)%list.
Proof.
  revert c. induction sts as [|st sts IH]; intros c.
  - exists []. cbn. by rewrite app_nil_r.
  - unfold clientSteps in *. cbn [fold_left].
    destruct (IH (clientStep c st)) as [more2 ->].
    destruct (clientStep_fetched c st) as [more1 ->].
    exists (more1 ++ more2)%list. by rewrite app_assoc.
Qed.

(** One record in an empty buffer, below the threshold, stays there. *)
Lemma createRun_first (c : LangSmithClient) (run : LangSmithRun.t) :
  queue c = [] -> lengthReaches 1 (clientBatchMaxSize c) = false ->
  queue (createRun c run) = [mkBatchOp POST "/runs" (RunBody run)] /\
  fetched (createRun c run) = fetched c.
Proof.
  intros Hq Hmax. unfold createRun, enqueue. cbn [queue clientBatchMaxSize].
  rewrite Hq. cbn [app length]. by rewrite Hmax.
Qed.

(** C8. Flushing an empty buffer changes nothing and calls [fetch] not at
    all. Flushing a buffer that is not empty empties it before [flush]
    gives control back. When [JSON.stringify] accepts the records, one
    call of [fetch] is issued, and its records are those the buffer held;
    whatever happens next (records enqueued, further flushes, calls that
    settle), that call stays as it was issued, and a record enqueued
    after the flush is the first of a new buffer. When [JSON.stringify]
    throws, no call is issued, a warning is logged, and the records are
    gone from the buffer all the same. When a call settles, with any
    response or with an error, the buffer is left as it is and no call is
    issued again: the batch is not enqueued again. *)
Theorem flush_batch (c : LangSmithClient) :
  (queue c = [] -> flush c = c) /\
  (queue c <> [] ->
   queue (flush c) = [] /\
   (serializableBatch (queue c) = true ->
    exists req,
      fetched (flush c) = (fetched c ++ [req])%list /\
      (forall b, b ∈ bodiesIn (requestBody req) <-> exists op, op ∈ queue c /\ body op = b) /\
      (forall sts, exists more,
         fetched (clientSteps (flush c) sts) = (fetched c ++ [req] ++ more)%list) /\
      (forall run, lengthReaches 1 (clientBatchMaxSize c) = false ->
         queue (createRun (flush c) run) = [mkBatchOp POST "/runs" (RunBody run)] /\
         fetched (createRun (flush c) run) = (fetched c ++ [req])%list)) /\
   (serializableBatch (queue c) = false ->
    fetched (flush c) = fetched c /\
    warned (flush c) = (warned c ++ ["batch request error: " +:+ stringifyError])%list /\
    (forall run, lengthReaches 1 (clientBatchMaxSize c) = false ->
       queue (createRun (flush c) run) = [mkBatchOp POST "/runs" (RunBody run)] /\
       fetched (createRun (flush c) run) = fetched c))) /\
  (forall outcome,
     queue (flushSettled c outcome) = queue c /\
     fetched (flushSettled c outcome) = fetched c).
Proof.
  split; [apply flush_empty |]. split; [| apply flushSettled_keeps].
  intros Hq. destruct (flush_fields c) as (Hempty & _ & _ & _ & Hmax).
  split; [done |]. split.
  - intros Hser.
    destruct (flush_sent c Hq Hser) as (req & Hflush & _ & _ & _ & _ & Hpost & Hpatch).
    exists req. split; [by rewrite Hflush |]. split; [| split].
    + intros b. unfold bodiesIn. rewrite elem_of_app, Hpost, Hpatch, !bodiesOf_elem.
      split.
      * intros [(op & ? & _ & ?)|(op & ? & _ & ?)]; eauto.
      * intros (op & Hin & Hbody).
        destruct (isPost (method op)) eqn:Hm; [left | right]; exists op;
          by rewrite ?Hm.
    + intros sts. destruct (clientSteps_fetched sts (flush c)) as [more ->].
      exists more. rewrite Hflush. cbn [fetched]. by rewrite <- app_assoc.
    + intros run Hone.
      destruct (createRun_first (flush c) run) as [-> ->]; [done | by rewrite Hmax |].
      by rewrite Hflush.
  - intros Hser. rewrite (flush_dropped c Hq Hser) in *. cbn [fetched warned].
    split; [done |]. split; [done |]. intros run Hone.
    by apply (createRun_first (mkClient _ _ _ _ _ _ _)).
Qed.

Lemma flush_batch_witness :
  exists req,
    queue (flush exampleClient) = [] /\
    fetched (flush exampleClient) = [req] /\
    fetched (clientSteps (flush exampleClient)
               [DoUpdate toolIdA (toolPatch (mkActiveRun toolIdA toolIdA "" None "" None)
                                    JNull None (exampleDate 9));
                DoSettle (Response 500 (Some "internal error"))])
    = [req].
Proof.
  destruct (proj1 (proj2 (flush_batch exampleClient))) as (Hq & Hsent & _).
  - by vm_compute.
  - destruct Hsent as (req & Hf & _ & Hlater & _); [by vm_compute |].
    exists req. split; [exact Hq |]. split; [exact Hf |].
    destruct (Hlater [DoUpdate toolIdA
                        (toolPatch (mkActiveRun toolIdA toolIdA "" None "" None)
                           JNull None (exampleDate 9));
                      DoSettle (Response 500 (Some "internal error"))])
      as [more Hmore].
    assert (Hlen : length (fetched (clientSteps (flush exampleClient)
                     [DoUpdate toolIdA
                        (toolPatch (mkActiveRun toolIdA toolIdA "" None "" None)
                           JNull None (exampleDate 9));
                      DoSettle (Response 500 (Some "internal error"))])) = 1%nat)
      by by vm_compute.
    rewrite Hmore in Hlen |- *. rewrite !length_app in Hlen. cbn in Hlen.
    destruct more; [done | cbn in Hlen; lia].
Defined.

(** * Further properties *)

(** ** The batch queue: what every sequence of steps keeps *)

Lemma flush_maxSize (c : LangSmithClient) :
  clientBatchMaxSize (flush c) = clientBatchMaxSize c.
Proof. apply flush_fields. Qed.

Lemma flush_queue (c : LangSmithClient) : queue (flush c) = [].
Proof. apply flush_fields. Qed.

Lemma flushSettled_maxSize (c : LangSmithClient) (outcome : FetchOutcome) :
  clientBatchMaxSize (flushSettled c outcome) = clientBatchMaxSize c.
Proof.
  unfold flushSettled. destruct outcome as [status ?|?]; [| done].
  by destruct (isOk status).
Qed.

(** A length that reaches a threshold is reached by every greater one. *)
Lemma lengthReaches_mono (n m : nat) (x : number) :
  (n <= m)%nat -> lengthReaches n x = true -> lengthReaches m x = true.
Proof.
  intros Hnm. destruct x as [q| | |]; cbn [lengthReaches]; try done.
  rewrite !Qle_bool_iff. intros Hq. eapply Qle_trans; [exact Hq |].
  rewrite <- Zle_Qle. lia.
Qed.

Lemma lengthReaches_zero (n : nat) (x : number) :
  lengthReaches n x = false -> lengthReaches 0 x = false.
Proof.
  intros Hn. destruct (lengthReaches 0 x) eqn:H0; [| done].
  rewrite (lengthReaches_mono 0 n x) in Hn; [done | lia | done].
Qed.

Lemma clientStep_bound (c : LangSmithClient) (st : ClientStep) :
  lengthReaches (length (queue c)) (clientBatchMaxSize c) = false ->
  lengthReaches (length (queue (clientStep c st))) (clientBatchMaxSize (clientStep c st))
  = false /\
  clientBatchMaxSize (clientStep c st) = clientBatchMaxSize c.
Proof.
  intros Hlt. pose proof (lengthReaches_zero _ _ Hlt) as Hzero.
  assert (Henq : forall op,
            lengthReaches (length (queue (enqueue c op)))
              (clientBatchMaxSize (enqueue c op)) = false /\
            clientBatchMaxSize (enqueue c op) = clientBatchMaxSize c).
  { intros op. unfold enqueue. cbn [queue clientBatchMaxSize].
    destruct (lengthReaches (length (queue c ++ [op])) (clientBatchMaxSize c)) eqn:Hfull.
    - by rewrite flush_maxSize, flush_queue.
    - by cbn [queue clientBatchMaxSize]. }
  destruct st; cbn [clientStep].
  - apply Henq.
  - apply Henq.
  - by rewrite flush_maxSize, flush_queue.
  - destruct (flushSettled_keeps c outcome) as [-> _].
    by rewrite flushSettled_maxSize.
Qed.

Lemma clientSteps_bound (sts : list ClientStep) (c : LangSmithClient) :
  lengthReaches (length (queue c)) (clientBatchMaxSize c) = false ->
  lengthReaches (length (queue (clientSteps c sts))) (clientBatchMaxSize c) = false /\
  clientBatchMaxSize (clientSteps c sts) = clientBatchMaxSize c.
Proof.
  revert c. induction sts as [|st sts IH]; intros c Hlt; [done |].
  unfold clientSteps in *. cbn [fold_left].
  destruct (clientStep_bound c st Hlt) as [Hlt' Hmax].
  destruct (IH _ Hlt') as [Hq Hm]. rewrite Hmax in Hq, Hm. done.
Qed.

(** X1. The buffer never holds as many records as the flush threshold:
    if that is so of a queue, it stays so through every sequence of
    enqueued records, flushes and settled calls, and the threshold does
    not change. *)
Theorem queue_below_threshold (c : LangSmithClient) (sts : list ClientStep) :
  lengthReaches (length (queue c)) (clientBatchMaxSize c) = false ->
  lengthReaches (length (queue (clientSteps c sts))) (clientBatchMaxSize c) = false /\
  clientBatchMaxSize (clientSteps c sts) = clientBatchMaxSize c.
Proof. apply clientSteps_bound. Qed.

Lemma queue_below_threshold_witness :
  lengthReaches
    (length (queue (clientSteps (newClient exampleConfig)
                      [DoUpdate toolIdA (toolPatch (mkActiveRun toolIdA toolIdA "" None "" None)
                                           JNull None (exampleDate 9));
                       DoFlush; DoSettle (Rejected "ECONNRESET")])))
    (Finite 20) = false.
Proof.
  apply (queue_below_threshold (newClient exampleConfig)). reflexivity.
Defined.

(** A buffer that started empty is empty or below the threshold,
    whatever the threshold is. *)
Lemma clientSteps_empty_or_below (sts : list ClientStep) (c : LangSmithClient) :
  queue c = [] \/ lengthReaches (length (queue c)) (clientBatchMaxSize c) = false ->
  (queue (clientSteps c sts) = []
   \/ lengthReaches (length (queue (clientSteps c sts))) (clientBatchMaxSize c) = false) /\
  clientBatchMaxSize (clientSteps c sts) = clientBatchMaxSize c.
Proof.
  revert c. induction sts as [|st sts IH]; intros c Hinv; [done |].
  unfold clientSteps in *. cbn [fold_left].
  assert (Hstep : (queue (clientStep c st) = []
                   \/ lengthReaches (length (queue (clientStep c st)))
                        (clientBatchMaxSize (clientStep c st)) = false) /\
                  clientBatchMaxSize (clientStep c st) = clientBatchMaxSize c).
  { assert (Henq : forall op,
              (queue (enqueue c op) = []
               \/ lengthReaches (length (queue (enqueue c op)))
                    (clientBatchMaxSize (enqueue c op)) = false) /\
              clientBatchMaxSize (enqueue c op) = clientBatchMaxSize c).
    { intros op. unfold enqueue. cbn [queue clientBatchMaxSize].
      destruct (lengthReaches (length (queue c ++ [op])) (clientBatchMaxSize c)) eqn:Hfull.
      - rewrite flush_maxSize, flush_queue. by split; [left |].
      - cbn [queue clientBatchMaxSize]. by split; [right |]. }
    destruct st; cbn [clientStep].
    - apply Henq.
    - apply Henq.
    - rewrite flush_maxSize, flush_queue. by split; [left |].
    - destruct (flushSettled_keeps c outcome) as [-> _].
      by rewrite flushSettled_maxSize. }
  destruct Hstep as [Hinv' Hmax]. destruct (IH _ Hinv') as [Hq Hm].
  rewrite Hmax in Hq, Hm. done.
Qed.

Lemma sentBodies_snoc (c : LangSmithClient) (req : Request) (q : list BatchOp)
    (w : list string) :
  sentBodies (mkClient q (timer c) (endpoint c) (apiKey c) (clientBatchMaxSize c)
                (fetched c ++ [req]) w)
  = (sentBodies c ++ bodiesIn (requestBody req))%list.
Proof.
  unfold sentBodies. cbn [fetched]. rewrite map_app, concat_app. cbn.
  by rewrite app_nil_r.
Qed.

Lemma flush_conserves (c : LangSmithClient) :
  serializableBatch (queue c) = true ->
  sentBodies (flush c) ++ map body (queue (flush c))
  ≡ₚ sentBodies c ++ map body (queue c).
Proof.
  intros Hser. destruct (queue c) as [|op batch] eqn:Hq.
  - rewrite flush_empty by done. by rewrite Hq.
  - destruct (flush_sent c) as (req & -> & _ & _ & _ & _ & Hpost & Hpatch);
      [by rewrite Hq | by rewrite Hq |].
    rewrite sentBodies_snoc. cbn [queue map]. rewrite app_nil_r.
    unfold bodiesIn. rewrite Hpost, Hpatch, Hq.
    by rewrite bodiesOf_partition.
Qed.

Lemma flush_keeps_or_drops (c : LangSmithClient) :
  (sentBodies (flush c) ++ map body (queue (flush c)))%list
  ⊆+ (sentBodies c ++ map body (queue c))%list.
Proof.
  destruct (serializableBatch (queue c)) eqn:Hser.
  - by rewrite flush_conserves.
  - destruct (queue c) as [|op batch] eqn:Hq.
    + rewrite flush_empty by done. by rewrite Hq.
    + rewrite flush_dropped by (by rewrite Hq).
      unfold sentBodies. cbn [fetched queue map]. rewrite app_nil_r.
      apply submseteq_inserts_r. done.
Qed.

Lemma enqueue_pushed (c : LangSmithClient) (op : BatchOp) :
  let c' := mkClient (queue c ++ [op]) (timer c) (endpoint c) (apiKey c)
              (clientBatchMaxSize c) (fetched c) (warned c) in
  (enqueue c op = c' \/ enqueue c op = flush c') /\
  (sentBodies c' ++ map body (queue c'))%list
  = (sentBodies c ++ map body (queue c) ++ [body op])%list.
Proof.
  intros c'. split.
  - unfold enqueue. fold c'. destruct (lengthReaches _ _); auto.
  - unfold c', sentBodies. cbn. by rewrite map_app.
Qed.

(** What one step does to the records: the records of the buffer stay
    in it or leave it, and those that leave it are sent or dropped. *)
Lemma clientStep_records (c : LangSmithClient) (st : ClientStep) :
  map body (queue (clientStep c st)) ⊆+ (map body (queue c) ++ enqueuedBodies [st])%list /\
  (sentBodies (clientStep c st) ++ map body (queue (clientStep c st)))%list
  ⊆+ ((sentBodies c ++ map body (queue c)) ++ enqueuedBodies [st])%list /\
  (Forall (fun b => serializableBody b = true) (map body (queue c) ++ enqueuedBodies [st]) ->
   sentBodies (clientStep c st) ++ map body (queue (clientStep c st))
   ≡ₚ (sentBodies c ++ map body (queue c)) ++ enqueuedBodies [st]).
Proof.
  assert (Hser : forall batch,
            Forall (fun b => serializableBody b = true) (map body batch) ->
            serializableBatch batch = true).
  { intros batch Hall. unfold serializableBatch. apply forallb_forall.
    by apply List.Forall_forall. }
  assert (Henq : forall op,
            map body (queue (enqueue c op)) ⊆+ (map body (queue c) ++ [body op])%list /\
            (sentBodies (enqueue c op) ++ map body (queue (enqueue c op)))%list
            ⊆+ ((sentBodies c ++ map body (queue c)) ++ [body op])%list /\
            (Forall (fun b => serializableBody b = true) (map body (queue c) ++ [body op]) ->
             sentBodies (enqueue c op) ++ map body (queue (enqueue c op))
             ≡ₚ (sentBodies c ++ map body (queue c)) ++ [body op])).
  { intros op. destruct (enqueue_pushed c op) as [Hcases Hpushed]. cbv zeta in *.
    rewrite <- app_assoc, <- Hpushed.
    destruct Hcases as [-> | ->].
    - cbn [queue]. rewrite map_app. done.
    - split; [rewrite flush_queue; apply submseteq_nil_l |].
      split; [apply flush_keeps_or_drops |].
      intros Hall. apply flush_conserves, Hser. cbn [queue]. by rewrite map_app. }
  destruct st; cbn [clientStep enqueuedBodies omap list_omap].
  - apply Henq.
  - apply Henq.
  - rewrite !app_nil_r. split; [rewrite flush_queue; apply submseteq_nil_l |].
    split; [apply flush_keeps_or_drops |].
    intros Hall. by apply flush_conserves, Hser.
  - rewrite !app_nil_r. unfold sentBodies.
    by destruct (flushSettled_keeps c outcome) as [-> ->].
Qed.

(** X2. No record is sent twice and none is made up: after any sequence
    of steps, the records sent in calls of [fetch] together with the
    records still in the buffer are, counted with their multiplicity,
    among the records sent or buffered before together with the records
    enqueued by the steps. When [JSON.stringify] accepts every record
    that was buffered or is enqueued, none is lost either: the two
    collections are the same. *)
Theorem queue_conserves_records (sts : list ClientStep) (c : LangSmithClient) :
  (sentBodies (clientSteps c sts) ++ map body (queue (clientSteps c sts)))%list
  ⊆+ ((sentBodies c ++ map body (queue c)) ++ enqueuedBodies sts)%list /\
  (Forall (fun b => serializableBody b = true) (map body (queue c) ++ enqueuedBodies sts) ->
   sentBodies (clientSteps c sts) ++ map body (queue (clientSteps c sts))
   ≡ₚ (sentBodies c ++ map body (queue c)) ++ enqueuedBodies sts).
Proof.
  revert c. induction sts as [|st sts IH]; intros c.
  - cbn. rewrite app_nil_r. done.
  - unfold clientSteps in *. cbn [fold_left].
    destruct (clientStep_records c st) as (Hqueue & Hsub & Hperm).
    destruct (IH (clientStep c st)) as [IHsub IHperm].
    assert (Hcons : enqueuedBodies (st :: sts)
                    = (enqueuedBodies [st] ++ enqueuedBodies sts)%list).
    { unfold enqueuedBodies. by destruct st. }
    rewrite Hcons, !app_assoc. split.
    + etrans; [exact IHsub |]. apply submseteq_skips_r.
      by rewrite <- !app_assoc in *.
    + intros Hall. apply Forall_app in Hall as [Hall Hlater].
      rewrite IHperm.
      * f_equiv. rewrite <- !app_assoc in *. by apply Hperm.
      * apply Forall_app. split; [| done].
        apply List.Forall_forall. intros b Hin.
        apply (proj1 (List.Forall_forall _ _) Hall).
        apply list_elem_of_In. eapply elem_of_submseteq; [| exact Hqueue].
        by apply list_elem_of_In.
Qed.

Lemma queue_conserves_records_witness :
  sentBodies (clientSteps exampleClient [DoFlush; DoSettle (Rejected "ECONNRESET")])
  ++ map body (queue (clientSteps exampleClient [DoFlush; DoSettle (Rejected "ECONNRESET")]))
  ≡ₚ map body (queue exampleClient).
Proof.
  rewrite (proj2 (queue_conserves_records [DoFlush; DoSettle (Rejected "ECONNRESET")]
                    exampleClient)).
  - cbn [enqueuedBodies omap list_omap]. by rewrite app_nil_r.
  - rewrite app_nil_r. apply List.Forall_forall, forallb_forall. by vm_compute.
Defined.

(** ** The batch queue: its requests *)

Lemma Forall_bodiesOf (P : Body -> Prop) (Q : BatchOp -> Prop) (keep : Method -> bool)
    (batch : list BatchOp) :
  (forall op, Q op -> keep (method op) = true -> P (body op)) ->
  Forall Q batch -> Forall P (bodiesOf keep batch).
Proof.
  intros HQP Hall. apply List.Forall_forall. intros b Hin.
  apply list_elem_of_In, bodiesOf_elem in Hin as (op & Hin & Hkeep & <-).
  apply HQP; [| done]. apply (proj1 (List.Forall_forall _ _) Hall).
  by apply list_elem_of_In.
Qed.

Lemma goodClient_mono (c0 c : LangSmithClient) (known known' : Body -> Prop) :
  (forall b, known b -> known' b) ->
  goodClient c0 known c -> goodClient c0 known' c.
Proof.
  intros Hmono (He & Hk & Hqueue & Hcalls). split; [done |]. split; [done |]. split.
  - eapply Forall_impl; [exact Hqueue |]. intros op [? ?]. auto.
  - eapply Forall_impl; [exact Hcalls |].
    intros req (Hreq & Hpost & Hpatch & Hrecords).
    split; [done |]. split; [done |]. split; [done |].
    eapply Forall_impl; [exact Hrecords |]. intros b [? ?]. auto.
Qed.

Lemma flush_good (c0 c : LangSmithClient) (known : Body -> Prop) :
  goodClient c0 known c -> goodClient c0 known (flush c).
Proof.
  intros (He & Hk & Hqueue & Hcalls).
  destruct (queue c) as [|op batch] eqn:Hq.
  { rewrite flush_empty by done. by rewrite <- Hq in Hqueue. }
  assert (Hne : queue c <> []) by by rewrite Hq.
  rewrite <- Hq in Hqueue.
  destruct (serializableBatch (queue c)) eqn:Hser.
  - destruct (flush_sent c Hne Hser)
      as (req & -> & Hurl & Hkey & Hp1 & Hp2 & Hpost & Hpatch).
    split; [done |]. split; [done |]. split; [constructor |].
    cbn [fetched]. apply Forall_app. split; [done |].
    constructor; [| constructor].
    assert (Hall : Forall (fun op => consistentOp op /\ known (body op)
                                     /\ serializableBody (body op) = true) (queue c)).
    { apply List.Forall_forall. intros o Hin.
      destruct (proj1 (List.Forall_forall _ _) Hqueue o Hin) as [Hcons Hknown].
      split; [done |]. split; [done |].
      unfold serializableBatch in Hser.
      apply (proj1 (forallb_forall _ _) Hser). by apply in_map. }
    split; [| split; [| split]].
    + split; [by rewrite Hurl, He |]. split; [by rewrite Hkey, Hk |].
      split; [| done]. unfold bodiesIn. rewrite Hpost, Hpatch.
      pose proof (flush_some c Hne) as Hsome.
      intros Hnil. apply app_eq_nil in Hnil as [Hc Hu]. rewrite Hc, Hu in Hsome.
      discriminate Hsome.
    + rewrite Hpost. eapply Forall_bodiesOf; [| exact Hall].
      intros o (Hcons & _) Hm. unfold consistentOp in Hcons. by rewrite Hm in Hcons.
    + rewrite Hpatch. eapply Forall_bodiesOf; [| exact Hall].
      intros o (Hcons & _) Hm. unfold consistentOp in Hcons.
      by destruct (isPost (method o)).
    + unfold bodiesIn. rewrite Hpost, Hpatch. apply Forall_app.
      split; (eapply Forall_bodiesOf; [| exact Hall]); by intros o (_ & ? & ?) _.
  - rewrite (flush_dropped c Hne Hser).
    split; [done |]. split; [done |]. split; [constructor | done].
Qed.

Lemma enqueue_good (c0 c : LangSmithClient) (known : Body -> Prop) (op : BatchOp) :
  consistentOp op -> known (body op) ->
  goodClient c0 known c -> goodClient c0 known (enqueue c op).
Proof.
  intros Hcons Hknown (He & Hk & Hqueue & Hcalls).
  assert (Hpushed : goodClient c0 known
                      (mkClient (queue c ++ [op]) (timer c) (endpoint c) (apiKey c)
                         (clientBatchMaxSize c) (fetched c) (warned c))).
  { split; [done |]. split; [done |]. split; [| done].
    apply Forall_app. split; [done |]. by constructor. }
  unfold enqueue. destruct (lengthReaches _ _); [by apply flush_good | done].
Qed.

Lemma clientStep_good (c0 c : LangSmithClient) (known : Body -> Prop) (st : ClientStep) :
  goodClient c0 known c ->
  goodClient c0 (fun b => known b \/ b ∈ enqueuedBodies [st]) (clientStep c st).
Proof.
  intros Hgood.
  assert (Hmore : goodClient c0 (fun b => known b \/ b ∈ enqueuedBodies [st]) c)
    by (eapply goodClient_mono; [| exact Hgood]; auto).
  destruct st; cbn [clientStep].
  - apply enqueue_good; [done | right; cbn; set_solver | done].
  - apply enqueue_good; [done | right; cbn; set_solver | done].
  - by apply flush_good.
  - destruct Hmore as (He & Hk & Hqueue & Hcalls).
    unfold flushSettled. destruct outcome as [status ?|?]; [destruct (isOk status) |];
      done.
Qed.

Lemma clientSteps_good (sts : list ClientStep) (c0 c : LangSmithClient)
    (known : Body -> Prop) :
  goodClient c0 known c ->
  goodClient c0 (fun b => known b \/ b ∈ enqueuedBodies sts) (clientSteps c sts).
Proof.
  revert c known. induction sts as [|st sts IH]; intros c known Hgood.
  - eapply goodClient_mono; [| exact Hgood]. auto.
  - unfold clientSteps in *. cbn [fold_left].
    eapply goodClient_mono; [| apply IH, clientStep_good, Hgood].
    cbn beta. intros b [[Hb | Hb] | Hb]; [by left | right | right].
    + unfold enqueuedBodies in *. destruct st; cbn in *; set_solver.
    + unfold enqueuedBodies in *. destruct st; cbn in *; set_solver.
Qed.

Lemma dropFinalSlash_snoc (s : string) : dropFinalSlash (s +:+ "/") = s.
Proof.
  induction s as [|c s IH]; [done |].
  rewrite append_cons. cbn [dropFinalSlash].
  destruct (s +:+ "/") eqn:Hs; [by destruct s | by rewrite IH].
Qed.

Lemma dropFinalSlash_id (s : string) :
  endsWithChar "/" s = false -> dropFinalSlash s = s.
Proof.
  induction s as [|c s IH]; [done |]. cbn [endsWithChar dropFinalSlash].
  destruct s as [|d s]; [by intros -> |].
  intros Hends. by rewrite IH.
Qed.

(** X3. Every call of [fetch] that a client makes goes to
    [<endpoint>/runs/batch], the endpoint of the configuration less one
    final slash, with the API key of the configuration as it is (absent
    when the configuration has none); it carries at least one record;
    its lists [post] and [patch] are absent when they would be empty;
    [post] holds new runs only and [patch] updates only; and each of its
    records was enqueued before and is one that [JSON.stringify]
    accepts. The call that a flush issues holds the buffered records: in
    [post] the runs handed to [createRun], in [patch] the updates handed
    to [updateRun], each list in the order of the buffer. *)
Theorem requests_well_formed (cfg : PluginConfig) (sts : list ClientStep) :
  Forall (fun req =>
            url req = dropFinalSlash (langsmithEndpoint cfg) +:+ "/runs/batch" /\
            apiKeyHeader req = langsmithApiKey cfg /\
            wellFormedRequest req /\
            Forall isCreate (default [] (post (requestBody req))) /\
            Forall isUpdate (default [] (patch (requestBody req))) /\
            Forall (fun b => b ∈ enqueuedBodies sts /\ serializableBody b = true)
              (bodiesIn (requestBody req)))
    (fetched (clientSteps (newClient cfg) sts)) /\
  (forall c, queue c <> [] -> serializableBatch (queue c) = true ->
     exists req,
       fetched (flush c) = (fetched c ++ [req])%list /\
       default [] (post (requestBody req)) = bodiesOf isPost (queue c) /\
       default [] (patch (requestBody req))
       = bodiesOf (fun m => negb (isPost m)) (queue c)) /\
  (forall e, dropFinalSlash (e +:+ "/") = e) /\
  (forall e, endsWithChar "/" e = false -> dropFinalSlash e = e).
Proof.
  split; [| split; [| split; [apply dropFinalSlash_snoc | apply dropFinalSlash_id]]].
  - assert (Hstart : goodClient (newClient cfg) (fun _ => False) (newClient cfg)).
    { split; [done |]. split; [done |]. split; constructor. }
    destruct (clientSteps_good sts _ _ _ Hstart) as (_ & _ & _ & Hcalls).
    eapply Forall_impl; [exact Hcalls |].
    intros req ((Hurl & Hkey & Hwf) & Hpost & Hpatch & Hrecords).
    split; [done |]. split; [done |]. split; [done |].
    split; [done |]. split; [done |].
    eapply Forall_impl; [exact Hrecords |]. intros b [[[] | Hb] Hser]. done.
  - intros c Hq Hser.
    destruct (flush_sent c Hq Hser) as (req & -> & _ & _ & _ & _ & Hpost & Hpatch).
    by exists req.
Qed.

Lemma requests_well_formed_witness :
  map url (fetched (clientSteps (newClient exampleConfig)
                      [DoUpdate toolIdA
                         (toolPatch (mkActiveRun toolIdA toolIdA "" None "" None)
                            JNull None (exampleDate 9));
                       DoFlush]))
  = ["https://api.smith.langchain.com/runs/batch"].
Proof.
  pose proof (proj1 (requests_well_formed exampleConfig
                       [DoUpdate toolIdA
                          (toolPatch (mkActiveRun toolIdA toolIdA "" None "" None)
                             JNull None (exampleDate 9));
                        DoFlush])) as Hall.
  destruct (fetched _) as [|req [|]] eqn:Hf; try (by vm_compute in Hf).
  apply Forall_cons in Hall as [(Hurl & _) _]. cbn [map]. rewrite Hurl. by vm_compute.
Defined.

(** ** The tracer: how its operations compose *)

Lemma tracerOp_other_turn (t : Tracer) (op : TracerOp) (sessionKey : string) :
  turnKeyOf op <> Some sessionKey ->
  activeAgentRuns (tracerOp t op).1 !! sessionKey = activeAgentRuns t !! sessionKey.
Proof.
  intros Hkey. destruct op; cbn in Hkey |- *.
  - apply lookup_insert_ne. congruence.
  - unfold endAgentRun. destruct (activeAgentRuns t !! sessionKey0); [| done].
    apply lookup_delete_ne. congruence.
  - done.
  - unfold endToolRun. by destruct (activeToolRuns t !! toolCallId).
  - by destruct (traceLlmCall_sessionModels t event nowStart nowEnd nowOrder) as [_ ->].
  - done.
Qed.

Lemma tracerOps_other_turn (ops : list TracerOp) (t : Tracer) (sessionKey : string) :
  Forall (fun op => turnKeyOf op <> Some sessionKey) ops ->
  activeAgentRuns (tracerOps t ops) !! sessionKey = activeAgentRuns t !! sessionKey.
Proof.
  intros Hops. revert t. induction Hops as [|op ops Hop _ IH]; intros t; [done |].
  unfold tracerOps in *. cbn [fold_left]. rewrite IH. by apply tracerOp_other_turn.
Qed.

Lemma endAgentRun_closed (t : Tracer) (sessionKey : string) (messages : JSValue)
    (success : bool) (usage : option TokenUsage.t) (durationMs : JSValue) (now : Date) :
  activeAgentRuns (endAgentRun t sessionKey messages success usage durationMs now).1
    !! sessionKey = None.
Proof.
  unfold endAgentRun. destruct (activeAgentRuns t !! sessionKey) eqn:Hopen; [| done].
  apply lookup_delete_eq.
Qed.

Lemma tracerOps_no_turn (ops : list TracerOp) (t : Tracer) (sessionKey : string) :
  Forall (fun op => ~ startsTurn sessionKey op) ops ->
  activeAgentRuns t !! sessionKey = None ->
  activeAgentRuns (tracerOps t ops) !! sessionKey = None.
Proof.
  intros Hops. revert t. induction Hops as [|op ops Hop _ IH]; intros t Hnone; [done |].
  unfold tracerOps in *. cbn [fold_left]. apply IH.
  destruct op; cbn in Hop |- *; try done.
  - rewrite lookup_insert_ne; [done | by intros ->].
  - destruct (decide (sessionKey0 = sessionKey)) as [->|Hne].
    + apply endAgentRun_closed.
    + rewrite <- Hnone.
      apply (tracerOp_other_turn t (OpEndAgent sessionKey0 messages success usage
                                      durationMs now)).
      cbn. congruence.
  - unfold endToolRun. by destruct (activeToolRuns t !! toolCallId).
  - by destruct (traceLlmCall_sessionModels t event nowStart nowEnd nowOrder) as [_ ->].
Qed.

(** X4. A span is closed once. After a turn-end event for a session, a
    second turn-end event for that session does nothing, whatever
    happened in between, as long as no turn was started for the session;
    after a tool-end event for an identifier, a second one does nothing,
    as long as no operation filed an entry under that identifier. *)
Theorem spans_close_once (t : Tracer) (ops : list TracerOp) :
  (forall sessionKey messages success usage durationMs now messages' success' usage'
          durationMs' now',
     Forall (fun op => ~ startsTurn sessionKey op) ops ->
     let closed := (endAgentRun t sessionKey messages success usage durationMs now).1 in
     endAgentRun (tracerOps closed ops) sessionKey messages' success' usage'
       durationMs' now'
     = (tracerOps closed ops, [])) /\
  (forall toolCallId result error now result' error' now',
     Forall (fun op => toolKeyOf op <> Some toolCallId) ops ->
     let closed := (endToolRun t toolCallId result error now).1 in
     endToolRun (tracerOps closed ops) toolCallId result' error' now'
     = (tracerOps closed ops, [])).
Proof.
  split.
  - intros * Hops closed. unfold endAgentRun at 1.
    rewrite tracerOps_no_turn; [done | done |]. apply endAgentRun_closed.
  - intros * Hops closed. unfold endToolRun at 1.
    rewrite tracerOps_other_tool by done.
    subst closed. unfold endToolRun.
    destruct (activeToolRuns t !! toolCallId) eqn:Hopen; cbn.
    + by rewrite lookup_delete_eq.
    + by rewrite Hopen.
Qed.

Lemma spans_close_once_witness :
  let closed := (endAgentRun exampleTurn exampleSession (JArr []) true None JUndefined
                   (exampleDate 9)).1 in
  let later := tracerOps closed [OpRecordLlm exampleSession "gpt-5.2" None] in
  endAgentRun later exampleSession (JArr []) false None JUndefined (exampleDate 10)
  = (later, []).
Proof.
  intros closed later.
  apply (proj1 (spans_close_once exampleTurn [OpRecordLlm exampleSession "gpt-5.2" None])).
  repeat constructor. intros [].
Defined.

(** X5. A second turn-start for a session that has an open turn replaces
    the first: the next turn-end event for the session closes the second
    run and no turn is left open for the session, so the first run gets
    no update from it or from a later turn-end event. *)
Theorem second_start_supersedes (t : Tracer) (sessionKey prompt1 prompt2 uuid1 uuid2 : string)
    (now1 nowOrder1 now2 nowOrder2 : Date) (messages : JSValue) (success : bool)
    (usage : option TokenUsage.t) (durationMs : JSValue) (nowEnd : Date) :
  let first := startAgentRun t sessionKey prompt1 uuid1 now1 nowOrder1 in
  let second := startAgentRun first.1 sessionKey prompt2 uuid2 now2 nowOrder2 in
  let ended := endAgentRun second.1 sessionKey messages success usage durationMs nowEnd in
  map LangSmithRun.id (createdRuns (first.2 ++ second.2)) = [uuid1; uuid2] /\
  updatedIds ended.2 = [uuid2] /\
  activeAgentRuns ended.1 !! sessionKey = None /\
  forall messages' success' usage' durationMs' now',
    (endAgentRun ended.1 sessionKey messages' success' usage' durationMs' now').2 = [].
Proof.
  cbv zeta. split; [done |].
  assert (Hopen : activeAgentRuns
                    (startAgentRun (startAgentRun t sessionKey prompt1 uuid1 now1 nowOrder1).1
                       sessionKey prompt2 uuid2 now2 nowOrder2).1 !! sessionKey
                  = Some {| runId := uuid2; traceId := uuid2;
                            dottedOrder := makeDottedOrder uuid2 None nowOrder2;
                            parentRunId := None; startTime := toISOString now2;
                            input := None |}).
  { cbn. by rewrite lookup_insert_eq. }
  rewrite (endAgentRun_open _ _ _ _ _ _ _ _ Hopen). cbn [fst snd].
  split; [done |]. split; [cbn; apply lookup_delete_eq |].
  intros. unfold endAgentRun. cbn. by rewrite lookup_delete_eq.
Qed.

(** X6. The update of a turn names the span that its create record
    made. A turn is started, operations follow that neither start nor end
    a turn for its session, and the turn-end event arrives: the create
    record is a root (its trace identifier is its own identifier, it has
    no parent), and the update carries the same identifier, trace
    identifier and ordering key. *)
Theorem turn_update_matches_create (t : Tracer) (sessionKey prompt uuid : string)
    (now nowOrder : Date) (ops : list TracerOp) (messages : JSValue) (success : bool)
    (usage : option TokenUsage.t) (durationMs : JSValue) (nowEnd : Date) :
  Forall (fun op => turnKeyOf op <> Some sessionKey) ops ->
  let started := startAgentRun t sessionKey prompt uuid now nowOrder in
  let ended := endAgentRun (tracerOps started.1 ops) sessionKey messages success usage
                 durationMs nowEnd in
  exists run p,
    started.2 = [CreateRun run] /\ ended.2 = [UpdateRun uuid p] /\
    LangSmithRun.id run = uuid /\ LangSmithRun.trace_id run = uuid /\
    LangSmithRun.parent_run_id run = None /\
    LangSmithRun.dotted_order run = makeDottedOrder uuid None nowOrder /\
    PartialRun.id p = Some uuid /\ PartialRun.trace_id p = Some uuid /\
    PartialRun.dotted_order p = Some (LangSmithRun.dotted_order run) /\
    PartialRun.end_time p = Some (toISOString nowEnd).
Proof.
  intros Hops started ended.
  assert (Hopen : activeAgentRuns (tracerOps started.1 ops) !! sessionKey
                  = Some {| runId := uuid; traceId := uuid;
                            dottedOrder := makeDottedOrder uuid None nowOrder;
                            parentRunId := None; startTime := toISOString now;
                            input := None |}).
  { rewrite tracerOps_other_turn by done. subst started. cbn.
    by rewrite lookup_insert_eq. }
  subst ended. rewrite (endAgentRun_open _ _ _ _ _ _ _ _ Hopen).
  eexists _, _. repeat split; reflexivity.
Qed.

Lemma turn_update_matches_create_witness :
  updatedIds
    (endAgentRun
       (tracerOps exampleTurn
          [OpStartTool exampleSession "read" JNull toolIdA (exampleDate 8) (exampleDate 8);
           OpStartAgent "agent:other" "hi" toolIdB (exampleDate 8) (exampleDate 8)])
       exampleSession (JArr []) true None JUndefined (exampleDate 9)).2
  = [turnId].
Proof.
  destruct (turn_update_matches_create (newTracer exampleConfig) exampleSession
              "run the nightly job" turnId (exampleDate 7) (exampleDate 7)
              [OpStartTool exampleSession "read" JNull toolIdA (exampleDate 8) (exampleDate 8);
               OpStartAgent "agent:other" "hi" toolIdB (exampleDate 8) (exampleDate 8)]
              (JArr []) true None JUndefined (exampleDate 9))
    as (run & p & _ & Hend & _).
  - repeat constructor; by vm_compute.
  - unfold exampleTurn. by rewrite Hend.
Defined.

(** ** The tracer: what every reachable state keeps *)

Lemma tracerOp_invariant (t : Tracer) (op : TracerOp) :
  tracerInvariant t -> tracerInvariant (tracerOp t op).1.
Proof.
  intros [Hturns Htools].
  assert (Hdel_turn : forall m : gmap string ActiveRun,
            (forall k a, m !! k = Some a -> rootEntry a) ->
            forall key k a, delete key m !! k = Some a -> rootEntry a).
  { intros m Hm key k a Hlook. apply lookup_delete_Some in Hlook as [_ Hlook]. eauto. }
  destruct op; cbn [tracerOp fst].
  - split; [| done]. cbn. intros k a Hlook.
    apply lookup_insert_Some in Hlook as [[_ <-]|[_ Hlook]]; [| eauto].
    repeat split. apply (makeDottedOrder_truthy uuid None nowOrder).
  - unfold endAgentRun. destruct (activeAgentRuns t !! sessionKey) as [e|]; [| done].
    split; [| done]. cbn. eauto.
  - split; [done |]. cbn. intros k a Hlook.
    apply lookup_insert_Some in Hlook as [[<- <-]|[_ Hlook]]; [| eauto].
    cbn. split; [by left |].
    by destruct (activeAgentRuns t !! sessionKey) as [e|].
  - unfold endToolRun. destruct (activeToolRuns t !! toolCallId) as [e|]; [| done].
    split; [done |]. cbn. intros k a Hlook.
    apply lookup_delete_Some in Hlook as [_ Hlook]. eauto.
  - unfold traceLlmCall. destruct (LlmTraceEvent.kind event); cbn.
    + split; [done |]. cbn. intros k a Hlook.
      apply lookup_insert_Some in Hlook as [[<- <-]|[_ Hlook]]; [| eauto].
      cbn. split; [by right | done].
    + split; [done |]. cbn. intros k a Hlook.
      destruct (activeToolRuns t !! _) as [e|]; [| eauto].
      apply lookup_delete_Some in Hlook as [_ Hlook]. eauto.
    + split; [done |]. cbn. intros k a Hlook.
      destruct (activeToolRuns t !! _) as [e|]; [| eauto].
      apply lookup_delete_Some in Hlook as [_ Hlook]. eauto.
  - done.
Qed.

Lemma tracerOps_invariant (ops : list TracerOp) (t : Tracer) :
  tracerInvariant t -> tracerInvariant (tracerOps t ops).
Proof.
  revert t. induction ops as [|op ops IH]; intros t Hinv; [done |].
  unfold tracerOps in *. cbn [fold_left]. apply IH. by apply tracerOp_invariant.
Qed.

Lemma newTracer_invariant (cfg : PluginConfig) : tracerInvariant (newTracer cfg).
Proof. split; intros k a Hlook; cbn in Hlook; by rewrite lookup_empty in Hlook. Qed.

(** X7. In every state that the tracer reaches from its empty state,
    each open turn is a root (its trace identifier is its own
    identifier, it has no parent, its ordering key is not empty); each
    entry of the map of open tool spans is filed under the identifier of
    its run, or under ["llm:"] followed by it for a started model call;
    and an entry without parent is its own trace. So a tool-end event
    updates the run whose identifier it names. *)
Theorem reachable_entries (cfg : PluginConfig) (ops : list TracerOp) :
  let t := tracerOps (newTracer cfg) ops in
  tracerInvariant t /\
  forall toolCallId result error now updated,
    In updated (updatedIds (endToolRun t toolCallId result error now).2) ->
    updated = toolCallId \/ "llm:" +:+ updated = toolCallId.
Proof.
  intros t.
  assert (Hinv : tracerInvariant t)
    by (apply tracerOps_invariant, newTracer_invariant).
  split; [exact Hinv |].
  intros toolCallId result error now updated. unfold endToolRun.
  destruct (activeToolRuns t !! toolCallId) as [a|] eqn:Hlook; cbn; [| done].
  intros [<-|[]].
  destruct Hinv as [_ Htools]. destruct (Htools _ _ Hlook) as [[->| ->] _]; auto.
Qed.

Lemma compare_prefix_lt (p : string) (c : ascii) (r : string) :
  String.compare p (p +:+ String c r) = Lt.
Proof.
  induction p as [|x p IH]; [done |].
  rewrite append_cons. cbn [String.compare]. by rewrite ascii_compare_refl.
Qed.

(** X8. A tool span started while a turn is open for its session, in a
    state reached from the empty tracer, belongs to the trace of that
    turn: its trace identifier and its parent are the identifier of the
    turn, and its ordering key is the ordering key of the turn, a dot,
    and its own timestamp and identifier, so it sorts strictly after the
    key of the turn. *)
Theorem tool_under_turn (cfg : PluginConfig) (ops : list TracerOp)
    (sessionKey toolName : string) (params : JSValue) (uuid : string)
    (now nowOrder : Date) (turn : ActiveRun) :
  let t := tracerOps (newTracer cfg) ops in
  activeAgentRuns t !! sessionKey = Some turn ->
  exists run,
    (startToolRun t sessionKey toolName params uuid now nowOrder).1.2 = [CreateRun run] /\
    LangSmithRun.trace_id run = runId turn /\
    LangSmithRun.parent_run_id run = Some (runId turn) /\
    LangSmithRun.dotted_order run
    = dottedOrder turn +:+ "." +:+ formatDottedOrderTime nowOrder
      +:+ JsString.removeAll "-" uuid /\
    strLt (dottedOrder turn) (LangSmithRun.dotted_order run).
Proof.
  intros t Hopen.
  destruct (tracerOps_invariant ops (newTracer cfg) (newTracer_invariant cfg))
    as [Hturns _].
  destruct (Hturns _ _ Hopen) as (Htrace & _ & Htruthy).
  eexists. split; [reflexivity |].
  cbn [LangSmithRun.trace_id LangSmithRun.parent_run_id LangSmithRun.dotted_order].
  fold t. rewrite Hopen. cbn [fmap option_fmap option_map default].
  split; [done |]. split; [done |].
  unfold makeDottedOrder. rewrite Htruthy.
  split; [done |]. apply compare_prefix_lt.
Qed.

Lemma tool_under_turn_witness :
  map LangSmithRun.trace_id
    (createdRuns (startToolRun exampleTurn exampleSession "read" JNull toolIdA
                    (exampleDate 8) (exampleDate 8)).1.2)
  = [turnId].
Proof.
  destruct (tool_under_turn exampleConfig
              [OpStartAgent exampleSession "run the nightly job" turnId
                 (exampleDate 7) (exampleDate 7)]
              exampleSession "read" JNull toolIdA (exampleDate 8) (exampleDate 8)
              {| runId := turnId; traceId := turnId;
                 dottedOrder := makeDottedOrder turnId None (exampleDate 7);
                 parentRunId := None; startTime := toISOString (exampleDate 7);
                 input := None |})
    as (run & Hrun & Htrace & _); [by vm_compute |].
  change (tracerOps (newTracer exampleConfig)
            [OpStartAgent exampleSession "run the nightly job" turnId
               (exampleDate 7) (exampleDate 7)]) with exampleTurn in Hrun.
  rewrite Hrun. cbn. by rewrite Htrace.
Defined.

Lemma tracerOp_other_ledger (t : Tracer) (op : TracerOp) (sessionKey : string) :
  sessionOf op <> Some sessionKey ->
  sessionModels (tracerOp t op).1 !! sessionKey = sessionModels t !! sessionKey.
Proof.
  intros Hkey. destruct op; cbn in Hkey |- *.
  - done.
  - unfold endAgentRun. destruct (activeAgentRuns t !! sessionKey0) as [e|]; [| done].
    apply lookup_delete_ne. congruence.
  - done.
  - unfold endToolRun. by destruct (activeToolRuns t !! toolCallId) as [e|].
  - by destruct (traceLlmCall_sessionModels t event nowStart nowEnd nowOrder) as [-> _].
  - apply lookup_insert_ne. congruence.
Qed.

(** X9. Sessions do not interfere: a sequence of operations none of
    which names a given session key (tool and model-call operations, and
    turn and ledger operations of other sessions) leaves the open turn
    and the ledger of that session as they were. *)
Theorem sessions_independent (ops : list TracerOp) (t : Tracer) (sessionKey : string) :
  Forall (fun op => sessionOf op <> Some sessionKey) ops ->
  activeAgentRuns (tracerOps t ops) !! sessionKey = activeAgentRuns t !! sessionKey /\
  sessionModels (tracerOps t ops) !! sessionKey = sessionModels t !! sessionKey.
Proof.
  intros Hops. revert t. induction Hops as [|op ops Hop _ IH]; intros t; [done |].
  unfold tracerOps in *. cbn [fold_left].
  destruct (IH (tracerOp t op).1) as [-> ->]. split.
  - apply tracerOp_other_turn. destruct op; cbn in Hop |- *; congruence.
  - by apply tracerOp_other_ledger.
Qed.

Lemma sessions_independent_witness :
  let t := tracerOps exampleTurn
             [OpStartAgent "agent:other" "hi" toolIdB (exampleDate 8) (exampleDate 8);
              OpRecordLlm "agent:other" "glm-4" None;
              OpEndAgent "agent:other" (JArr []) true None JUndefined (exampleDate 9)] in
  activeAgentRuns t !! exampleSession = activeAgentRuns exampleTurn !! exampleSession /\
  sessionModels t !! exampleSession = sessionModels exampleTurn !! exampleSession.
Proof.
  intros t. apply sessions_independent. repeat constructor; by vm_compute.
Defined.

(** ** Model calls ([traceLlmCall]) *)

Lemma traceLlmCall_terminal (event : LlmTraceEvent.t) (t : Tracer) (nowStart nowEnd nowOrder : Date) :
  LlmTraceEvent.kind event <> llm_start ->
  traceLlmCall t event nowStart nowEnd nowOrder =
  (mkTracer (activeAgentRuns t)
     match activeToolRuns t !! ("llm:" +:+ LlmTraceEvent.traceId event) with
     | Some _ => delete ("llm:" +:+ LlmTraceEvent.traceId event) (activeToolRuns t)
     | None => activeToolRuns t
     end (sessionModels t) (config t),
   [CreateRun (llmRun (config t) event
                 (activeToolRuns t !! ("llm:" +:+ LlmTraceEvent.traceId event))
                 nowStart nowEnd nowOrder)]).
Proof. intros Hkind. unfold traceLlmCall. by destruct (LlmTraceEvent.kind event). Qed.

Lemma tracerOps_config (ops : list TracerOp) (t : Tracer) :
  config (tracerOps t ops) = config t.
Proof.
  revert t. induction ops as [|op ops IH]; intros t; [done |].
  unfold tracerOps in *. cbn [fold_left]. by rewrite IH, tracerOp_config.
Qed.

(** X10. A model call that starts and then ends gives one run, created
    when it ends. The start event creates nothing. When the terminal
    event with the same trace identifier arrives, after operations that
    leave the entry of the call alone, the run created starts at the
    clock reading of the start event and ends at that of the terminal
    event, has the ordering key made at the start, is the root of its own
    trace, and has for prompt the input of the start event, or that of
    the terminal event when the start carried none, or ["(not
    captured)"]; and the entry of the call is gone. *)
Theorem llm_call_pairs (t : Tracer) (started ended : LlmTraceEvent.t) (ops : list TracerOp)
    (s1 e1 o1 s2 e2 o2 : Date) :
  LlmTraceEvent.kind started = llm_start ->
  LlmTraceEvent.kind ended <> llm_start ->
  LlmTraceEvent.traceId ended = LlmTraceEvent.traceId started ->
  Forall (fun op => toolKeyOf op <> Some ("llm:" +:+ LlmTraceEvent.traceId started)) ops ->
  let opened := traceLlmCall t started s1 e1 o1 in
  let closed := traceLlmCall (tracerOps opened.1 ops) ended s2 e2 o2 in
  opened.2 = [] /\
  activeToolRuns closed.1 !! ("llm:" +:+ LlmTraceEvent.traceId started) = None /\
  exists run,
    closed.2 = [CreateRun run] /\
    LangSmithRun.id run = LlmTraceEvent.traceId started /\
    LangSmithRun.trace_id run = LlmTraceEvent.traceId started /\
    LangSmithRun.parent_run_id run = None /\
    LangSmithRun.start_time run = toISOString s1 /\
    LangSmithRun.end_time run = Some (toISOString e2) /\
    LangSmithRun.dotted_order run
    = makeDottedOrder (LlmTraceEvent.traceId started) None o1 /\
    LangSmithRun.inputs run
    = JObj [("prompt",
             JStr (default "(not captured)"
                     (nullish (LlmTraceEvent.input started) (LlmTraceEvent.input ended))))].
Proof.
  intros Hstart Hend Hid Hops opened closed.
  assert (Hentry : activeToolRuns (tracerOps opened.1 ops)
                     !! ("llm:" +:+ LlmTraceEvent.traceId started)
                   = Some {| runId := LlmTraceEvent.traceId started;
                             traceId := LlmTraceEvent.traceId started;
                             dottedOrder :=
                               makeDottedOrder (LlmTraceEvent.traceId started) None o1;
                             parentRunId := None;
                             startTime := toISOString s1;
                             input := LlmTraceEvent.input started |}).
  { rewrite tracerOps_other_tool by done. subst opened. unfold traceLlmCall.
    rewrite Hstart. cbn. by rewrite lookup_insert_eq. }
  split; [subst opened; unfold traceLlmCall; by rewrite Hstart |].
  subst closed. rewrite traceLlmCall_terminal by done. rewrite Hid, Hentry. cbn [fst snd].
  split; [cbn; apply lookup_delete_eq |].
  eexists. split; [reflexivity |]. unfold llmRun. cbn. by rewrite Hid.
Qed.

Lemma llm_call_pairs_witness :
  let started :=
    {| LlmTraceEvent.kind := llm_start;
       LlmTraceEvent.traceId := LlmTraceEvent.traceId exampleLlmEnd;
       LlmTraceEvent.model := "gpt-5.2";
       LlmTraceEvent.operation := "extraction";
       LlmTraceEvent.input := Some "Extract the facts.";
       LlmTraceEvent.output := None;
       LlmTraceEvent.durationMs := JUndefined;
       LlmTraceEvent.error := None;
       LlmTraceEvent.tokenUsage := None |} in
  let opened := traceLlmCall exampleTurn started (exampleDate 8) (exampleDate 8)
                  (exampleDate 8) in
  map LangSmithRun.start_time
    (createdRuns (traceLlmCall opened.1 exampleLlmEnd (exampleDate 9) (exampleDate 9)
                    (exampleDate 9)).2)
  = [toISOString (exampleDate 8)].
Proof.
  intros started opened.
  destruct (llm_call_pairs exampleTurn started exampleLlmEnd [] (exampleDate 8)
              (exampleDate 8) (exampleDate 8) (exampleDate 9) (exampleDate 9)
              (exampleDate 9))
    as (_ & _ & run & Hrun & _ & _ & _ & Hstart & _);
    [done | done | done | constructor |].
  change (tracerOps (traceLlmCall exampleTurn started (exampleDate 8) (exampleDate 8)
                       (exampleDate 8)).1 []) with opened.1 in Hrun.
  rewrite Hrun. cbn. by rewrite Hstart.
Defined.

(** X11. A terminal model-call event without a start is a call of its
    own. When no entry is filed for its trace identifier, the event
    leaves the tracer as it is and creates one run that starts and ends
    at the clock readings of the event, has a fresh ordering key, and has
    for prompt the input of the event or ["(not captured)"]. The token
    fields of the run are those of the event, a missing count being 0 and
    a missing total the sum of the two counts, and are absent unless the
    total is positive. *)
Theorem llm_call_alone (t : Tracer) (event : LlmTraceEvent.t) (s e o : Date) :
  LlmTraceEvent.kind event <> llm_start ->
  activeToolRuns t !! ("llm:" +:+ LlmTraceEvent.traceId event) = None ->
  let usage := LlmTraceEvent.tokenUsage event in
  let promptTokens := default 0 (usage ≫= EventTokenUsage.input) in
  let completionTokens := default 0 (usage ≫= EventTokenUsage.output) in
  let totalTokens :=
    default (promptTokens + completionTokens) (usage ≫= EventTokenUsage.total) in
  exists run,
    traceLlmCall t event s e o = (t, [CreateRun run]) /\
    LangSmithRun.start_time run = toISOString s /\
    LangSmithRun.end_time run = Some (toISOString e) /\
    LangSmithRun.dotted_order run = makeDottedOrder (LlmTraceEvent.traceId event) None o /\
    LangSmithRun.inputs run
    = JObj [("prompt", JStr (default "(not captured)" (LlmTraceEvent.input event)))] /\
    (LangSmithRun.prompt_tokens run, LangSmithRun.completion_tokens run,
     LangSmithRun.total_tokens run)
    = (if 0 <? totalTokens
       then (Some promptTokens, Some completionTokens, Some totalTokens)
       else (None, None, None)).
Proof.
  intros Hkind Hnone. cbv zeta. rewrite traceLlmCall_terminal by done. rewrite Hnone.
  eexists. split; [by destruct t |]. unfold llmRun. cbn.
  repeat split. by destruct (0 <? _).
Qed.

Lemma llm_call_alone_witness :
  map LangSmithRun.total_tokens
    (createdRuns (traceLlmCall exampleTurn exampleLlmEnd (exampleDate 9) (exampleDate 9)
                    (exampleDate 9)).2)
  = [Some 120].
Proof.
  destruct (llm_call_alone exampleTurn exampleLlmEnd (exampleDate 9) (exampleDate 9)
              (exampleDate 9))
    as (run & Hrun & _ & _ & _ & _ & Htokens); [done | by vm_compute |].
  rewrite Hrun. cbn in Htokens |- *. by injection Htokens as _ _ ->.
Defined.

(** X12. Started model calls share the map of open tool spans, under
    keys that begin with ["llm:"]. A tool-end event whose identifier is
    such a key closes the started model call as if it were a tool span:
    it updates the run of the call, with the result of the tool, and
    removes the entry, so that the terminal event of the call is handled
    as a call without a start. *)
Theorem tool_end_closes_started_llm_call (t : Tracer) (started : LlmTraceEvent.t)
    (s e o : Date) (result : JSValue) (error : option string) (now : Date) :
  LlmTraceEvent.kind started = llm_start ->
  let key := "llm:" +:+ LlmTraceEvent.traceId started in
  let opened := traceLlmCall t started s e o in
  let closed := endToolRun opened.1 key result error now in
  activeToolRuns closed.1 !! key = None /\
  exists p,
    closed.2 = [UpdateRun (LlmTraceEvent.traceId started) p] /\
    PartialRun.outputs p = Some (JObj [("result", result)]) /\
    PartialRun.dotted_order p
    = Some (makeDottedOrder (LlmTraceEvent.traceId started) None o).
Proof.
  intros Hstart key opened closed. subst closed opened.
  unfold traceLlmCall. rewrite Hstart. cbn [fst]. unfold endToolRun.
  cbn [activeToolRuns]. fold key. rewrite lookup_insert_eq. cbn [fst snd].
  split; [cbn; apply lookup_delete_eq |].
  by eexists.
Qed.

Lemma tool_end_closes_started_llm_call_witness :
  let started :=
    {| LlmTraceEvent.kind := llm_start;
       LlmTraceEvent.traceId := "eeeeeeee-0000-4000-8000-000000000005";
       LlmTraceEvent.model := "gpt-5.2";
       LlmTraceEvent.operation := "extraction";
       LlmTraceEvent.input := None;
       LlmTraceEvent.output := None;
       LlmTraceEvent.durationMs := JUndefined;
       LlmTraceEvent.error := None;
       LlmTraceEvent.tokenUsage := None |} in
  updatedIds
    (endToolRun (traceLlmCall exampleTurn started (exampleDate 8) (exampleDate 8)
                   (exampleDate 8)).1
       "llm:eeeeeeee-0000-4000-8000-000000000005" JNull None (exampleDate 9)).2
  = ["eeeeeeee-0000-4000-8000-000000000005"].
Proof.
  intros started.
  destruct (tool_end_closes_started_llm_call exampleTurn started (exampleDate 8)
              (exampleDate 8) (exampleDate 8) JNull None (exampleDate 9) eq_refl)
    as (_ & p & Hp & _).
  change ("llm:" +:+ LlmTraceEvent.traceId started)
    with "llm:eeeeeeee-0000-4000-8000-000000000005" in Hp.
  by rewrite Hp.
Defined.

(** ** The models of a turn *)

Lemma agentPatch_metadata (active : ActiveRun) (modelInfo : option ModelInfo)
    (allModels : list string) (sessionKey : string) (messages : JSValue)
    (success : bool) (usage : option TokenUsage.t) (durationMs : JSValue) (now : Date) :
  exists extra,
    PartialRun.extra (agentPatch active modelInfo allModels sessionKey messages
                        success usage durationMs now) = Some extra /\
    Js.get (Js.get extra "metadata") "sessionKey" = JStr sessionKey /\
    Js.get (Js.get extra "metadata") "durationMs" = durationMs /\
    Js.get (Js.get extra "metadata") "models_used" =
    (if (0 <? length allModels)%nat then JArr (map JStr allModels) else JUndefined).
Proof.
  eexists. split; [reflexivity |].
  by destruct modelInfo as [mi|], (0 <? length allModels)%nat.
Qed.

Lemma firstOccurrences_head (l : list string) : head (firstOccurrences l) = head l.
Proof. by destruct l. Qed.

(** X13. The list of the models of a turn. When a turn closes, its
    update carries in [extra.metadata] the session key, the duration of
    the event and, unless the ledger of the session is empty, the list
    [models_used]: the [provider/model] labels of the identities of the
    ledger, each label once, in the order in which the labels first
    occur, so that it begins with the label of the first model recorded.
    The same list is put in the outputs as [all_models] when it has more
    than one label. A turn whose recorded identities all have the same
    label, however many they are, has that one label in [models_used] and
    no [all_models]. *)
Theorem models_of_a_turn (t : Tracer) (sessionKey : string) (messages : JSValue)
    (success : bool) (usage : option TokenUsage.t) (durationMs : JSValue) (now : Date)
    (active : ActiveRun) :
  activeAgentRuns t !! sessionKey = Some active ->
  let ledger := default [] (sessionModels t !! sessionKey) in
  exists p out extra labels,
    (endAgentRun t sessionKey messages success usage durationMs now).2
    = [UpdateRun (runId active) p] /\
    PartialRun.outputs p = Some out /\ PartialRun.extra p = Some extra /\
    Js.get (Js.get extra "metadata") "sessionKey" = JStr sessionKey /\
    Js.get (Js.get extra "metadata") "durationMs" = durationMs /\
    labels = firstOccurrences (map modelLabel ledger) /\
    NoDup labels /\
    (forall x, x ∈ labels <-> exists mi, mi ∈ ledger /\ modelLabel mi = x) /\
    head labels = modelLabel <$> head ledger /\
    Js.get (Js.get extra "metadata") "models_used"
    = match ledger with
      | [] => JUndefined
      | _ :: _ => JArr (map JStr labels)
      end /\
    Js.get out "all_models"
    = (if (1 <? length labels)%nat then JArr (map JStr labels) else JUndefined) /\
    (forall label, (forall mi, mi ∈ ledger -> modelLabel mi = label) ->
       (length labels <= 1)%nat /\ Js.get out "all_models" = JUndefined).
Proof.
  intros Hopen ledger. rewrite (endAgentRun_open _ _ _ _ _ _ _ active) by done.
  destruct (agentPatch_outputs_identity active (getSessionModelInfo t sessionKey)
              (getAllSessionModels t sessionKey) sessionKey messages success usage
              durationMs now) as (out & Hout & _ & _ & Hall).
  destruct (agentPatch_metadata active (getSessionModelInfo t sessionKey)
              (getAllSessionModels t sessionKey) sessionKey messages success usage
              durationMs now) as (extra & Hextra & Hkey & Hdur & Hused).
  destruct (getAllSessionModels_distinct t sessionKey) as [Hnd Hin].
  pose proof (getAllSessionModels_firstOccurrences t sessionKey) as Hlabels.
  fold ledger in Hin, Hlabels.
  assert (Hhead : head (getAllSessionModels t sessionKey) = modelLabel <$> head ledger).
  { rewrite Hlabels, firstOccurrences_head. by destruct ledger. }
  assert (Hsame : forall label, (forall mi, mi ∈ ledger -> modelLabel mi = label) ->
                    (length (getAllSessionModels t sessionKey) <= 1)%nat).
  { intros label Hlabel.
    assert (Hevery : forall x, x ∈ getAllSessionModels t sessionKey -> x = label).
    { intros x Hx. apply Hin, list_elem_of_fmap in Hx as (mi & -> & Hmi). by apply Hlabel. }
    destruct (getAllSessionModels t sessionKey) as [|a [|b rest]]; [cbn; lia .. |].
    apply NoDup_cons in Hnd as [Hnotin _]. destruct Hnotin.
    rewrite (Hevery a), (Hevery b) by set_solver. by left. }
  eexists _, out, extra, (getAllSessionModels t sessionKey).
  split; [reflexivity |]. split; [exact Hout |]. split; [exact Hextra |].
  split; [exact Hkey |]. split; [exact Hdur |]. split; [exact Hlabels |].
  split; [exact Hnd |]. split; [| split; [exact Hhead |]].
  { intros x. rewrite Hin, list_elem_of_fmap. naive_solver. }
  split; [| split; [exact Hall |]].
  - rewrite Hused. destruct ledger as [|first rest]; [by rewrite Hlabels |].
    cbn in Hhead. by destruct (getAllSessionModels t sessionKey).
  - intros label Hlabel. specialize (Hsame label Hlabel). split; [exact Hsame |].
    rewrite Hall. by destruct (Nat.ltb_spec 1 (length (getAllSessionModels t sessionKey))); [lia |].
Qed.

Lemma models_of_a_turn_witness :
  let t := recordLlmCall (recordLlmCall exampleTurn exampleSession "gpt-5.2" None)
             exampleSession "openai/gpt-5.2" None in
  exists p out extra,
    (endAgentRun t exampleSession (JArr []) true None JUndefined (exampleDate 9)).2
    = [UpdateRun turnId p] /\
    PartialRun.outputs p = Some out /\ PartialRun.extra p = Some extra /\
    Js.get (Js.get extra "metadata") "models_used" = JArr [JStr "openai/gpt-5.2"] /\
    Js.get out "all_models" = JUndefined.
Proof.
  intros t.
  destruct (models_of_a_turn t exampleSession (JArr []) true None JUndefined (exampleDate 9)
              {| runId := turnId; traceId := turnId;
                 dottedOrder := makeDottedOrder turnId None (exampleDate 7);
                 parentRunId := None; startTime := toISOString (exampleDate 7);
                 input := None |})
    as (p & out & extra & labels & Hcalls & Hout & Hextra & _ & _ & Hlabels & _ & _ & _
        & Hused & _ & Hsame); [by vm_compute |].
  exists p, out, extra. split; [exact Hcalls |]. split; [exact Hout |].
  split; [exact Hextra |]. split.
  - rewrite Hused, Hlabels. by vm_compute.
  - apply (Hsame "openai/gpt-5.2"). intros mi Hmi.
    change (mi ∈ [mkModelInfo "openai" "gpt-5.2"; mkModelInfo "openai" "gpt-5.2"]) in Hmi.
    set_solver.
Defined.

(** ** The hooks *)

(** X14. Events that carry no session key all belong to the session
    ["default"]. A turn started by an event without a session key is
    filed under ["default"]; a tool call that starts without a session
    key while it is open gets it as parent; and it is closed by a
    turn-end event without a session key, as well as by one for the
    session ["default"]. *)
Theorem keyless_events_share_a_session (t : Tracer) (prompt uuid1 uuid2 toolName : string)
    (params : JSValue) (now1 order1 now2 order2 : Date)
    (messages success durationMs : JSValue) (nowEnd : Date) :
  traceAgentTurns (config t) = true ->
  traceToolCalls (config t) = true ->
  prompt <> "" ->
  let started := onBeforeAgentStart t (Some prompt) None uuid1 now1 order1 in
  let tool := onBeforeToolCall started.1 toolName params None uuid2 now2 order2 in
  (runId <$> activeAgentRuns started.1 !! "default") = Some uuid1 /\
  map LangSmithRun.parent_run_id (createdRuns tool.1.2) = [Some uuid1] /\
  updatedIds (onAgentEnd tool.1.1 messages success durationMs None nowEnd).2 = [uuid1] /\
  updatedIds (onAgentEnd tool.1.1 messages success durationMs (Some "default") nowEnd).2
  = [uuid1].
Proof.
  intros Hturns Htools Hprompt started tool.
  assert (Htruthy : JsString.truthy prompt = true).
  { unfold JsString.truthy. by destruct (String.eqb_spec prompt ""). }
  assert (Hstarted : started = startAgentRun t "default" prompt uuid1 now1 order1).
  { subst started. unfold onBeforeAgentStart. rewrite Hturns. cbn [negb].
    by rewrite Htruthy. }
  assert (Hopen : activeAgentRuns started.1 !! "default"
                  = Some {| runId := uuid1; traceId := uuid1;
                            dottedOrder := makeDottedOrder uuid1 None order1;
                            parentRunId := None; startTime := toISOString now1;
                            input := None |}).
  { rewrite Hstarted. cbn. by rewrite lookup_insert_eq. }
  assert (Hcfg : config started.1 = config t) by by rewrite Hstarted.
  assert (Htool : tool.1 = (startToolRun started.1 "default" toolName params uuid2
                              now2 order2).1).
  { subst tool. unfold onBeforeToolCall. rewrite Hcfg, Htools. done. }
  split; [by rewrite Hopen |].
  split; [rewrite Htool; cbn; by rewrite Hopen |].
  assert (Hend : forall ctx, sessionKeyOf ctx = "default" ->
            updatedIds (onAgentEnd tool.1.1 messages success durationMs ctx nowEnd).2
            = [uuid1]).
  { intros ctx Hctx.
    rewrite (onAgentEnd_open _ _ _ _ _ _
               {| runId := uuid1; traceId := uuid1;
                  dottedOrder := makeDottedOrder uuid1 None order1;
                  parentRunId := None; startTime := toISOString now1;
                  input := None |}); [done | |].
    - rewrite Htool.
      change (config (startToolRun started.1 "default" toolName params uuid2 now2
                        order2).1.1) with (config started.1).
      by rewrite Hcfg.
    - rewrite Hctx, Htool. exact Hopen. }
  split; by apply Hend.
Qed.

Lemma keyless_events_share_a_session_witness :
  let started := onBeforeAgentStart (newTracer exampleConfig) (Some "hello") None turnId
                   (exampleDate 7) (exampleDate 7) in
  updatedIds (onAgentEnd
                (onBeforeToolCall started.1 "read" JNull None toolIdA (exampleDate 8)
                   (exampleDate 8)).1.1
                (JArr []) (JBool true) JUndefined (Some "default") (exampleDate 9)).2
  = [turnId].
Proof.
  intros started.
  apply (keyless_events_share_a_session (newTracer exampleConfig) "hello" turnId toolIdA
           "read" JNull (exampleDate 7) (exampleDate 7) (exampleDate 8) (exampleDate 8)
           (JArr []) (JBool true) JUndefined (exampleDate 9)); done.
Defined.

(** ** The end of the service *)

Lemma close_fields (c : LangSmithClient) :
  queue (close c) = queue c /\ fetched (close c) = fetched c /\ timer (close c) = false.
Proof. done. Qed.



(** ** Matching *)

Lemma substring_all (s : string) : String.substring 0 (String.length s) s = s.
Proof. induction s as [|c s IH]; [done |]. cbn. by rewrite IH. Qed.

Lemma substring_prefix (a b : string) :
  String.substring 0 (String.length a) (a +:+ b) = a.
Proof.
  induction a as [|c a IH]; [by destruct b |].
  rewrite append_cons. cbn. by rewrite IH.
Qed.

Lemma substring_suffix (a b : string) :
  String.substring (String.length a) (String.length b) (a +:+ b) = b.
Proof.
  induction a as [|c a IH]; [apply substring_all |].
  rewrite append_cons. cbn. exact IH.
Qed.

(** A literal at the head of the input is passed over. *)
Lemma lit_append {R : Type} (l x : string) (k : string -> option R) :
  Regex.lit l (l +:+ x) k = k x.
Proof.
  unfold Regex.lit. rewrite prefix_append, append_length.
  replace (String.length l + String.length x - String.length l)%nat
    with (String.length x) by lia.
  by rewrite substring_suffix.
Qed.

(** A greedy run takes all the characters of the class that it finds,
    when what follows can be matched from there. *)
Lemma star_greedy {R : Type} (cls : ascii -> bool) (a rest : string)
    (k : string -> option R) (r : R) :
  allChars cls a = true -> stopsAt cls rest = true -> k rest = Some r ->
  Regex.star cls (a +:+ rest) k = Some r.
Proof.
  intros Ha Hrest Hk. induction a as [|c a IH].
  - rewrite append_empty_l. destruct rest as [|d rest]; [done |].
    cbn in Hrest |- *. apply negb_true_iff in Hrest. by rewrite Hrest.
  - cbn in Ha. apply andb_true_iff in Ha as [Hc Ha].
    rewrite append_cons. cbn. rewrite Hc. by rewrite IH.
Qed.

(** The capture of a group that has matched [a] at the head of [a ++ rest]. *)
Lemma capture_prefix (a rest : string) :
  String.substring 0 (String.length (a +:+ rest) - String.length rest) (a +:+ rest) = a.
Proof.
  rewrite append_length.
  replace (String.length a + String.length rest - String.length rest)%nat
    with (String.length a) by lia.
  apply substring_prefix.
Qed.

(** ** Configuration *)

Lemma matchRest_no_dollar (c : ascii) (s : string) :
  c <> "$"%char -> matchRest envVarRegex (String c s) = None.
Proof.
  intros Hc. unfold matchRest, envVarRegex. cbn [Regex.run]. unfold Regex.lit.
  cbn [String.prefix]. by destruct (ascii_dec "$" c).
Qed.

Lemma replaceAll_no_dollar (f : option string -> string) (s : string) :
  JsString.includes "$" s = false -> replaceAll envVarRegex f s 0 = s.
Proof.
  induction s as [|c s IH]; [done |].
  rewrite includes_char. intros Hinc. apply orb_false_iff in Hinc as [Hc Hs].
  cbn [replaceAll]. rewrite matchRest_no_dollar; [by rewrite IH |].
  intros ->. discriminate Hc.
Qed.

Lemma replaceAll_skip (r : Regex.t) (f : option string -> string) (a rest : string) :
  replaceAll r f (a +:+ rest) (String.length a) = replaceAll r f rest 0.
Proof.
  induction a as [|c a IH]; [by destruct rest |].
  rewrite append_cons. cbn. exact IH.
Qed.

Lemma matchRest_variable (name rest : string) :
  name <> "" -> allChars (Regex.notChar "}") name = true ->
  matchRest envVarRegex ("${" +:+ name +:+ "}" +:+ rest) = Some (Some name, rest).
Proof.
  intros Hname Hchars. unfold matchRest, envVarRegex. cbn [Regex.run].
  rewrite lit_append.
  destruct name as [|c name]; [done |]. cbn in Hchars.
  apply andb_true_iff in Hchars as [Hc Hchars].
  rewrite append_cons. rewrite Hc.
  rewrite (star_greedy _ name ("}" +:+ rest) _ (Some (String c name), rest)); try done.
  rewrite <- (append_cons c name), (lit_append "}" rest).
  by rewrite capture_prefix.
Qed.

(** X16. Substitution of environment variables. A value without ["$"]
    is kept as it is. In a value that begins with text without ["$"],
    followed by [${name}] where the name is not empty and has no ["}"],
    the text is kept, [${name}] is replaced by what [process.env[name]]
    gives, and the rest of the value is substituted in the same way.
    [process.env[name]] is the value of the variable [name] when it is
    set; when it is not, the text of the member of that name that
    [process.env] inherits, as for [toString]; and nothing when there is
    neither. *)
Theorem resolveEnvVars_substitutes (env : Env) :
  resolveEnvVars env None = None /\
  (forall v, JsString.includes "$" v = false -> resolveEnvVars env (Some v) = Some v) /\
  (forall before name rest,
     JsString.includes "$" before = false ->
     name <> "" -> allChars (Regex.notChar "}") name = true ->
     resolveEnvVars env (Some (before +:+ "${" +:+ name +:+ "}" +:+ rest))
     = Some (before +:+ default "" (getenv env name)
             +:+ default "" (resolveEnvVars env (Some rest)))) /\
  (forall name v, variables env !! name = Some v -> getenv env name = Some v) /\
  (forall name, variables env !! name = None -> getenv env name = inherited env !! name).
Proof.
  split; [done |]. split; [| split; [| split]].
  - intros v Hv. unfold resolveEnvVars.
    destruct (JsString.truthy v); cbn [negb]; [| done].
    by rewrite replaceAll_no_dollar.
  - intros pre name rest Hpre Hname Hchars.
    set (f := fun name : option string => default "" (name ≫= getenv env)).
    assert (Hrest : default "" (resolveEnvVars env (Some rest))
                    = replaceAll envVarRegex f rest 0).
    { unfold resolveEnvVars. by destruct rest. }
    assert (Hvar : replaceAll envVarRegex f ("${" +:+ name +:+ "}" +:+ rest) 0
                   = default "" (getenv env name) +:+ replaceAll envVarRegex f rest 0).
    { change ("${" +:+ name +:+ "}" +:+ rest)
        with (String "$" ("{" +:+ name +:+ "}" +:+ rest)).
      cbn [replaceAll].
      change (String "$" ("{" +:+ name +:+ "}" +:+ rest))
        with ("${" +:+ name +:+ "}" +:+ rest).
      rewrite matchRest_variable by done. f_equal.
      replace ("{" +:+ name +:+ "}" +:+ rest) with (("{" +:+ name +:+ "}") +:+ rest)
        by by rewrite !append_assoc.
      rewrite append_length.
      replace (String.length ("{" +:+ name +:+ "}") + String.length rest
               - String.length rest)%nat
        with (String.length ("{" +:+ name +:+ "}")) by lia.
      apply replaceAll_skip. }
    assert (Htruthy : JsString.truthy (pre +:+ "${" +:+ name +:+ "}" +:+ rest) = true).
    { apply truthy_length. rewrite !append_length. cbn. lia. }
    rewrite Hrest, <- Hvar. unfold resolveEnvVars. fold f.
    rewrite Htruthy. cbn [negb]. f_equal. clear Htruthy Hvar.
    generalize ("${" +:+ name +:+ "}" +:+ rest). intros tail.
    induction pre as [|c pre IH]; [done |].
    rewrite includes_char in Hpre. apply orb_false_iff in Hpre as [Hc Hpre].
    rewrite !(append_cons c). cbn [replaceAll].
    rewrite matchRest_no_dollar by (intros ->; discriminate Hc).
    by rewrite IH.
  - intros name v Hv. unfold getenv. by rewrite Hv.
  - intros name Hv. unfold getenv. by rewrite Hv.
Qed.

Lemma resolveEnvVars_substitutes_witness :
  resolveEnvVars (processEnv {[ "LANGSMITH_API_KEY" := "lsv2_pt_example" ]})
    (Some ("Bearer " +:+ "${" +:+ "LANGSMITH_API_KEY" +:+ "}" +:+ ""))
  = Some "Bearer lsv2_pt_example" /\
  resolveEnvVars (processEnv ∅) (Some ("" +:+ "${" +:+ "toString" +:+ "}" +:+ ""))
  = Some "function toString() { [native code] }" /\
  resolveEnvVars (processEnv ∅) (Some ("" +:+ "${" +:+ "LANGSMITH_API_KEY" +:+ "}" +:+ ""))
  = Some "".
Proof.
  split; [| split].
  - rewrite (proj1 (proj2 (proj2 (resolveEnvVars_substitutes
                                    (processEnv {[ "LANGSMITH_API_KEY" := "lsv2_pt_example" ]}))))
               "Bearer " "LANGSMITH_API_KEY" "") by done.
    by vm_compute.
  - rewrite (proj1 (proj2 (proj2 (resolveEnvVars_substitutes (processEnv ∅))))
               "" "toString" "") by done.
    by vm_compute.
  - rewrite (proj1 (proj2 (proj2 (resolveEnvVars_substitutes (processEnv ∅))))
               "" "LANGSMITH_API_KEY" "") by done.
    by vm_compute.
Defined.

Lemma numberOr_truthy (n : option number) (d : number) :
  numberTruthy d = true ->
  numberTruthy (numberOr n d) = true /\
  (forall x, n = Some x -> numberTruthy x = true -> numberOr n d = x) /\
  (n = None \/ (exists x, n = Some x /\ numberTruthy x = false) -> numberOr n d = d).
Proof.
  intros Hd. unfold numberOr. destruct n as [x|].
  - destruct (numberTruthy x) eqn:Hx.
    + split; [done |]. split; [by intros ? [= <-] |].
      intros [|(y & [= <-] & Hy)]; congruence.
    + split; [done |]. split; [intros ? [= <-]; congruence | done].
  - split; [done |]. split; [done | done].
Qed.

(** X17. The flush threshold and the flush interval of a parsed
    configuration. Each is the number of the raw configuration when that
    is truthy, a negative number or a fraction as well as any other, and
    20 for the threshold and 1000 for the interval when it is missing, 0
    or [NaN]; so neither is ever 0 or [NaN]. The buffer of a client built
    from a parsed configuration is, after any sequence of steps, empty or
    shorter than the threshold; with a threshold that one record reaches
    (1, or less, or a negative number) it is empty after every step. *)
Theorem parsed_threshold (raw : option RawConfig.t) (env : Env) (sts : list ClientStep) :
  let cfg := parseConfig raw env in
  let size := raw ≫= RawConfig.batchMaxSize in
  let interval := raw ≫= RawConfig.batchIntervalMs in
  let c := clientSteps (newClient cfg) sts in
  (forall x, size = Some x -> numberTruthy x = true -> batchMaxSize cfg = x) /\
  (size = None \/ (exists x, size = Some x /\ numberTruthy x = false) ->
   batchMaxSize cfg = Finite 20) /\
  (forall x, interval = Some x -> numberTruthy x = true -> batchIntervalMs cfg = x) /\
  (interval = None \/ (exists x, interval = Some x /\ numberTruthy x = false) ->
   batchIntervalMs cfg = Finite 1000) /\
  numberTruthy (batchMaxSize cfg) = true /\ numberTruthy (batchIntervalMs cfg) = true /\
  (queue c = [] \/ lengthReaches (length (queue c)) (batchMaxSize cfg) = false) /\
  (lengthReaches 1 (batchMaxSize cfg) = true -> queue c = []).
Proof.
  intros cfg size interval c.
  assert (Hsize : batchMaxSize cfg = numberOr size (Finite 20)) by by destruct raw.
  assert (Hms : batchIntervalMs cfg = numberOr interval (Finite 1000)) by by destruct raw.
  destruct (numberOr_truthy size (Finite 20)) as (Ht1 & Hkeep1 & Hdef1); [done |].
  destruct (numberOr_truthy interval (Finite 1000)) as (Ht2 & Hkeep2 & Hdef2); [done |].
  rewrite Hsize, Hms.
  split; [done |]. split; [done |]. split; [done |]. split; [done |].
  split; [done |]. split; [done |].
  assert (Hinv : queue c = []
                 \/ lengthReaches (length (queue c)) (numberOr size (Finite 20)) = false).
  { rewrite <- Hsize.
    apply (clientSteps_empty_or_below sts (newClient cfg)). by left. }
  split; [exact Hinv |].
  intros Hone. destruct Hinv as [Hq | Hbelow]; [done |].
  destruct (queue c) as [|op rest]; [done |].
  rewrite (lengthReaches_mono 1 (length (op :: rest))) in Hbelow; [done | cbn; lia | done].
Qed.

Lemma parsed_threshold_witness :
  let raw :=
    RawConfig.mk None None None JUndefined JUndefined JUndefined
      (Some (Finite (5 # 2))) (Some (Finite (-5))) JUndefined in
  batchMaxSize (parseConfig (Some raw) (processEnv ∅)) = Finite (-5) /\
  batchIntervalMs (parseConfig (Some raw) (processEnv ∅)) = Finite (5 # 2) /\
  queue (clientSteps (newClient (parseConfig (Some raw) (processEnv ∅)))
           [DoUpdate toolIdA (toolPatch (mkActiveRun toolIdA toolIdA "" None "" None)
                                JNull None (exampleDate 9))]) = [].
Proof.
  intros raw.
  destruct (parsed_threshold (Some raw) (processEnv ∅)
              [DoUpdate toolIdA (toolPatch (mkActiveRun toolIdA toolIdA "" None "" None)
                                   JNull None (exampleDate 9))])
    as (Hsize & _ & Hms & _ & _ & _ & _ & Hempty).
  split; [by apply Hsize |]. split; [by apply Hms |]. apply Hempty.
  rewrite (Hsize (Finite (-5))); done.
Defined.

Lemma orElse_cases (a b : option string) :
  (exists k, a = Some k /\ k <> "" /\ orElse a b = Some k)
  \/ ((a = None \/ a = Some "") /\ orElse a b = b).
Proof.
  unfold orElse. destruct a as [k|]; cbn; [| right; auto].
  unfold JsString.truthy. destruct (String.eqb_spec k "") as [->|Hne]; cbn.
  - right. auto.
  - left. eauto.
Qed.

(** X18. The API key of a parsed configuration. It is the key of the raw
    configuration, with [${name}] substituted, when that is not empty;
    otherwise what [process.env.LANGSMITH_API_KEY] gives when that is
    not empty; otherwise there is none. The key is never the empty
    string, and [register] sets the plug-in up exactly when there is a
    key. A feature switch of the raw configuration turns its feature off
    only when it is the boolean [false]. *)
Theorem parsed_api_key (raw : option RawConfig.t) (env : Env) :
  let cfg := parseConfig raw env in
  let fromRaw := resolveEnvVars env (raw ≫= RawConfig.langsmithApiKey) in
  let fromEnv := getenv env "LANGSMITH_API_KEY" in
  (forall k, fromRaw = Some k -> k <> "" -> langsmithApiKey cfg = Some k) /\
  (fromRaw = None \/ fromRaw = Some "" ->
   forall k, fromEnv = Some k -> k <> "" -> langsmithApiKey cfg = Some k) /\
  (fromRaw = None \/ fromRaw = Some "" -> fromEnv = None \/ fromEnv = Some "" ->
   langsmithApiKey cfg = None) /\
  langsmithApiKey cfg <> Some "" /\
  (register cfg = None <-> langsmithApiKey cfg = None) /\
  (traceAgentTurns cfg = false <-> (raw ≫= Some ∘ RawConfig.traceAgentTurns) = Some (JBool false)) /\
  (traceToolCalls cfg = false <-> (raw ≫= Some ∘ RawConfig.traceToolCalls) = Some (JBool false)) /\
  (traceEngramLlm cfg = false <-> (raw ≫= Some ∘ RawConfig.traceEngramLlm) = Some (JBool false)).
Proof.
  intros cfg fromRaw fromEnv.
  assert (Hkey : langsmithApiKey cfg = orElse (orElse fromRaw fromEnv) None).
  { subst cfg fromRaw fromEnv. unfold parseConfig. cbn. by destruct raw. }
  assert (Hswitch : forall v, notFalse v = false <-> v = JBool false).
  { intros v. destruct v as [| |[]| | | | |]; cbn; split; congruence. }
  split; [| split; [| split; [| split; [| split; [| split; [| split]]]]]].
  - intros k Hk Hne. rewrite Hkey.
    destruct (orElse_cases fromRaw fromEnv) as [(k' & Hk' & _ & ->)|[[H|H] _]];
      [| congruence ..].
    assert (k' = k) as -> by congruence.
    destruct (orElse_cases (Some k) None) as [(? & [= <-] & _ & ->)|[[H|[= H]] _]]; done.
  - intros Hraw k Hk Hne. rewrite Hkey.
    destruct (orElse_cases fromRaw fromEnv) as [(k' & Hk' & Hne' & _)|[_ ->]].
    { destruct Hraw; congruence. }
    rewrite Hk.
    destruct (orElse_cases (Some k) None) as [(? & [= <-] & _ & ->)|[[H|[= H]] _]]; done.
  - intros Hraw Henv. rewrite Hkey.
    destruct (orElse_cases fromRaw fromEnv) as [(k' & Hk' & Hne' & _)|[_ ->]].
    { destruct Hraw; congruence. }
    destruct (orElse_cases fromEnv None) as [(k' & Hk' & Hne' & _)|[_ ->]]; [| done].
    destruct Henv; congruence.
  - rewrite Hkey.
    destruct (orElse_cases (orElse fromRaw fromEnv) None)
      as [(k & _ & Hne & ->)|[_ ->]]; congruence.
  - unfold register. rewrite Hkey.
    destruct (orElse_cases (orElse fromRaw fromEnv) None)
      as [(k & _ & Hne & ->)|[_ ->]]; cbn.
    + unfold JsString.truthy. destruct (String.eqb_spec k ""); [done |]. cbn.
      split; discriminate.
    + done.
  - subst cfg. cbn. rewrite Hswitch. destruct raw as [r|]; cbn; [| done].
    split; congruence.
  - subst cfg. cbn. rewrite Hswitch. destruct raw as [r|]; cbn; [| done].
    split; congruence.
  - subst cfg. cbn. rewrite Hswitch. destruct raw as [r|]; cbn; [| done].
    split; congruence.
Qed.

Lemma parsed_api_key_witness :
  let raw :=
    RawConfig.mk (Some ("" +:+ "${" +:+ "toString" +:+ "}" +:+ "")) None None
      JUndefined JUndefined (JBool false) None None JUndefined in
  let cfg := parseConfig (Some raw) (processEnv ∅) in
  langsmithApiKey cfg = Some "function toString() { [native code] }" /\
  register cfg <> None /\ traceEngramLlm cfg = false.
Proof.
  intros raw cfg.
  destruct (parsed_api_key (Some raw) (processEnv ∅))
    as (Hraw & _ & _ & _ & Hregister & _ & _ & Hengram).
  assert (Hkey : langsmithApiKey cfg = Some "function toString() { [native code] }").
  { apply Hraw; [by vm_compute | discriminate]. }
  split; [exact Hkey |]. split.
  - intros Hnone. apply Hregister in Hnone. fold cfg in Hnone. congruence.
  - by apply Hengram.
Defined.

(** ** Tags from the prompt *)

Lemma sessionTags_one_source (sessionKey : string) :
  ~ (In "cron" (sessionTags sessionKey) /\ In "discord" (sessionTags sessionKey)).
Proof.
  intros [Hcron Hdiscord].
  pose proof (source_in_sessionTags sessionKey None "cron") as H1.
  pose proof (source_in_sessionTags sessionKey None "discord") as H2.
  rewrite H1 in H2.
  - discriminate H2; [cbn; auto | by apply sessionTags_extractTags].
  - cbn. auto.
  - by apply sessionTags_extractTags.
Qed.

Lemma promptTag_length (prompt : option string) (tags : list string) (source : string)
    (r : Regex.t) (make : string -> string) :
  (length (promptTag prompt tags source r make) <= 1)%nat /\
  (promptTag prompt tags source r make <> [] ->
   In source tags /\ exists text, prompt = Some text /\ text <> "").
Proof.
  unfold promptTag.
  destruct (JsString.truthy_opt prompt) eqn:Hp; cbn [andb]; [| split; [cbn; lia | done]].
  destruct (JsString.arr_includes tags source) eqn:Hs; [| split; [cbn; lia | done]].
  apply arr_includes_In in Hs.
  assert (Htext : exists text, prompt = Some text /\ text <> "").
  { destruct prompt as [text|]; [| done]. exists text. split; [done |].
    intros ->. discriminate Hp. }
  destruct (Regex.exec _ _) as [[cap|]|]; cbn; [| split; [lia | done] ..].
  destruct (JsString.truthy cap); cbn; split; auto; lia.
Qed.

(** X19. The tags of the prompt come on top of those of the session key.
    The tags of a session key and a prompt are the tags of the session
    key alone, followed by at most one tag, which begins with ["name:"]
    when the source is cron and with ["guild:"] when it is discord, and
    is there only for a prompt that is not empty. Without a prompt, or
    with an empty one, or for a session key without source, the prompt
    adds nothing. *)
Theorem prompt_tags_are_added (sessionKey : string) (prompt : option string) :
  extractTags sessionKey None = sessionTags sessionKey /\
  extractTags sessionKey (Some "") = sessionTags sessionKey /\
  (sessionTags sessionKey = [] -> extractTags sessionKey prompt = []) /\
  exists added,
    extractTags sessionKey prompt = (sessionTags sessionKey ++ added)%list /\
    (length added <= 1)%nat /\
    forall x, In x added ->
      (exists text, prompt = Some text /\ text <> "") /\
      ((In "cron" (sessionTags sessionKey) /\ exists name, x = "name:" +:+ name)
       \/ (In "discord" (sessionTags sessionKey) /\ exists guild, x = "guild:" +:+ guild)).
Proof.
  split; [unfold extractTags, promptTag; cbn; by rewrite ?app_nil_r |].
  split; [unfold extractTags, promptTag; cbn; by rewrite ?app_nil_r |].
  split.
  { intros Hnone. unfold extractTags. rewrite Hnone. unfold promptTag. cbn.
    by rewrite !andb_false_r. }
  unfold extractTags. cbv zeta.
  set (tags := sessionTags sessionKey).
  set (cronTag := promptTag prompt tags "cron" cronPromptRegex _).
  set (guildTag := promptTag prompt (tags ++ cronTag) "discord" guildPromptRegex _).
  exists (cronTag ++ guildTag)%list. split; [by rewrite app_assoc |].
  destruct (promptTag_length prompt tags "cron" cronPromptRegex
              (fun cap => "name:" +:+ JsString.trim cap)) as [Hlen1 Hin1].
  destruct (promptTag_length prompt (tags ++ cronTag) "discord" guildPromptRegex
              (fun cap => "guild:" +:+ cap)) as [Hlen2 Hin2].
  fold cronTag in Hlen1, Hin1. fold guildTag in Hlen2, Hin2.
  assert (Hdiscord : guildTag <> [] -> In "discord" tags).
  { intros Hne. destruct (Hin2 Hne) as [Hin _].
    apply in_app_iff in Hin as [Hin|Hin]; [done |].
    apply promptTag_elem in Hin as [cap Hcap]. discriminate Hcap. }
  split.
  - rewrite length_app.
    destruct cronTag as [|x1 l1] eqn:E1; [cbn; lia |].
    destruct guildTag as [|x2 l2] eqn:E2; [cbn in *; lia |].
    destruct (sessionTags_one_source sessionKey). split.
    + by apply Hin1.
    + by apply Hdiscord.
  - intros x Hx. apply in_app_iff in Hx as [Hx|Hx].
    + assert (Hne : cronTag <> []) by (intros E; rewrite E in Hx; destruct Hx).
      destruct (Hin1 Hne) as [Hcron Htext]. split; [done |]. left. split; [done |].
      apply promptTag_elem in Hx as [cap ->]. eauto.
    + assert (Hne : guildTag <> []) by (intros E; rewrite E in Hx; destruct Hx).
      destruct (Hin2 Hne) as [_ Htext]. split; [done |]. right.
      split; [by apply Hdiscord |].
      apply promptTag_elem in Hx as [cap ->]. eauto.
Qed.

Section Run.
Context {R : Type}.

Lemma run_seq (r1 r2 : Regex.t) (s : string) (cap : option string)
    (k : string -> option string -> option R) :
  Regex.run (Regex.Seq r1 r2) s cap k
  = Regex.run r1 s cap (fun s' cap' => Regex.run r2 s' cap' k).
Proof. reflexivity. Qed.

Lemma run_lit (l x : string) (cap : option string)
    (k : string -> option string -> option R) :
  Regex.run (Regex.Lit l) (l +:+ x) cap k = k x cap.
Proof. cbn [Regex.run]. apply (lit_append l x (fun s' => k s' cap)). Qed.

Lemma run_plus_greedy (cls : ascii -> bool) (a rest : string) (cap : option string)
    (k : string -> option string -> option R) (r : R) :
  a <> "" -> allChars cls a = true -> stopsAt cls rest = true ->
  k rest cap = Some r ->
  Regex.run (Regex.Plus cls) (a +:+ rest) cap k = Some r.
Proof.
  intros Ha Hcls Hrest Hk. destruct a as [|c a]; [done |].
  cbn in Hcls. apply andb_true_iff in Hcls as [Hc Hcls].
  rewrite append_cons. cbn [Regex.run]. rewrite Hc.
  by apply (star_greedy cls a rest (fun s'' => k s'' cap)).
Qed.

Lemma run_star_stop (cls : ascii -> bool) (rest : string) (cap : option string)
    (k : string -> option string -> option R) :
  stopsAt cls rest = true ->
  Regex.run (Regex.Star cls) rest cap k = k rest cap.
Proof.
  intros Hrest. cbn [Regex.run]. destruct rest as [|c rest]; [done |].
  cbn in Hrest |- *. apply negb_true_iff in Hrest. by rewrite Hrest.
Qed.

Lemma run_group_plus (cls : ascii -> bool) (a rest : string) (cap : option string)
    (k : string -> option string -> option R) (r : R) :
  a <> "" -> allChars cls a = true -> stopsAt cls rest = true ->
  k rest (Some a) = Some r ->
  Regex.run (Regex.Group (Regex.Plus cls)) (a +:+ rest) cap k = Some r.
Proof.
  intros Ha Hcls Hrest Hk. cbn [Regex.run].
  change (Regex.run (Regex.Plus cls) (a +:+ rest) cap
            (fun s' _ =>
               k s' (Some (String.substring 0
                             (String.length (a +:+ rest) - String.length s')
                             (a +:+ rest)))) = Some r).
  apply run_plus_greedy; try done. by rewrite capture_prefix.
Qed.

End Run.

Lemma stopsAt_append (cls : ascii -> bool) (a b : string) :
  a <> "" -> stopsAt cls a = true -> stopsAt cls (a +:+ b) = true.
Proof. by destruct a. Qed.

Lemma exec_here (r : Regex.t) (s : string) (cap : option string) :
  Regex.matchHere r s = Some cap -> Regex.exec r s = Some cap.
Proof. intros H. destruct s; cbn; by rewrite H. Qed.

Lemma notSpace_stops_space (rest : string) :
  stopsAt Regex.notSpace (" " +:+ rest) = true.
Proof. done. Qed.

Lemma guild_match (name rest : string) :
  name <> "" -> allChars Regex.notSpace name = true ->
  stopsAt Regex.notSpace rest = true ->
  Regex.exec guildPromptRegex ("[Discord Guild #" +:+ name +:+ rest)
  = Some (Some ("#" +:+ name)).
Proof.
  intros Hname Hcls Hrest. apply exec_here.
  unfold Regex.matchHere, guildPromptRegex.
  change ("[Discord Guild #" +:+ name +:+ rest)
    with ("[Discord Guild " +:+ "#" +:+ name +:+ rest).
  cbn [Regex.run]. rewrite lit_append, lit_append.
  destruct name as [|c name]; [done |]. cbn in Hcls.
  apply andb_true_iff in Hcls as [Hc Hcls]. rewrite append_cons, Hc.
  rewrite (star_greedy _ name rest _ (Some ("#" +:+ String c name))); try done.
  change ("#" +:+ String c (name +:+ rest)) with (("#" +:+ String c name) +:+ rest).
  by rewrite capture_prefix.
Qed.

Lemma cron_match (id name rest : string) :
  id <> "" -> allChars Regex.notSpace id = true ->
  name <> "" -> allChars (Regex.notChar "(") name = true ->
  stopsAt JsString.isSpace name = true ->
  Regex.exec cronPromptRegex ("[cron:" +:+ id +:+ " " +:+ name +:+ "(" +:+ rest)
  = Some (Some name).
Proof.
  intros Hid Hidcls Hname Hnamecls Hhead. apply exec_here.
  unfold Regex.matchHere, cronPromptRegex.
  rewrite run_seq, run_lit, run_seq.
  apply run_plus_greedy; try done.
  rewrite run_seq.
  apply (run_plus_greedy JsString.isSpace " " (name +:+ "(" +:+ rest)); try done.
  { by apply stopsAt_append. }
  rewrite run_seq.
  apply (run_group_plus (Regex.notChar "(") name ("(" +:+ rest)); try done.
  rewrite run_seq, run_star_stop by done.
  apply (run_lit "(" rest).
Qed.

Lemma not_source (tags : list string) (a b : string) :
  head tags = Some a -> a <> b -> In b sourceTags ->
  (forall x, In x tags -> x = a \/ ~ In x sourceTags) -> ~ In b tags.
Proof. intros Hhead Hne Hb Hall Hin. destruct (Hall b Hin); congruence. Qed.

Lemma sessionTags_discord_no_cron (sessionKey : string) :
  In "discord" (sessionTags sessionKey) ->
  JsString.arr_includes (sessionTags sessionKey) "cron" = false.
Proof.
  intros Hd. apply arr_includes_not_In. intros Hc.
  by destruct (sessionTags_one_source sessionKey).
Qed.

Lemma sessionTags_cron_no_discord (sessionKey : string) (extra : string) :
  In "cron" (sessionTags sessionKey) -> extra <> "discord" ->
  JsString.arr_includes (sessionTags sessionKey ++ [extra]) "discord" = false.
Proof.
  intros Hc Hextra. apply arr_includes_not_In. intros Hd.
  apply in_app_iff in Hd as [Hd|[Hd|[]]]; [| congruence].
  by destruct (sessionTags_one_source sessionKey).
Qed.

Lemma promptTag_match (text : string) (tags : list string) (source : string)
    (r : Regex.t) (make : string -> string) (cap : string) :
  text <> "" -> In source tags -> cap <> "" ->
  Regex.exec r text = Some (Some cap) ->
  promptTag (Some text) tags source r make = [make cap].
Proof.
  intros Htext Hsource Hcap Hexec. unfold promptTag.
  apply arr_includes_In in Hsource. rewrite Hsource.
  change (default "" (Some text)) with text. rewrite Hexec.
  cbn [JsString.truthy_opt]. unfold JsString.truthy.
  destruct (String.eqb_spec text ""); [done |].
  by destruct (String.eqb_spec cap "").
Qed.

Lemma append_not_empty (a b : string) : a <> "" -> a +:+ b <> "".
Proof. by destruct a. Qed.

(** X20. The guild of a Discord prompt. For a Discord session and a
    prompt that begins with ["[Discord Guild #"] followed by a name
    without whitespace (at least one character), then whitespace or the
    end of the prompt, the tags are those of the session key followed by
    ["guild:#<name>"]. *)
Theorem guild_tag (sessionKey name rest : string) :
  In "discord" (sessionTags sessionKey) ->
  name <> "" -> allChars Regex.notSpace name = true ->
  stopsAt Regex.notSpace rest = true ->
  extractTags sessionKey (Some ("[Discord Guild #" +:+ name +:+ rest))
  = (sessionTags sessionKey ++ ["guild:#" +:+ name])%list.
Proof.
  intros Hdiscord Hname Hcls Hrest. unfold extractTags. cbv zeta.
  assert (Hcron : promptTag (Some ("[Discord Guild #" +:+ name +:+ rest))
                    (sessionTags sessionKey) "cron" cronPromptRegex
                    (fun cap => "name:" +:+ JsString.trim cap) = []).
  { unfold promptTag. rewrite sessionTags_discord_no_cron by done.
    by rewrite andb_false_r. }
  rewrite Hcron, app_nil_r. f_equal.
  rewrite (promptTag_match _ _ _ _ _ ("#" +:+ name)); [done | done | done | done |].
  by apply guild_match.
Qed.

Lemma guild_tag_witness :
  extractTags "agent:generalist:discord:channel:123"
    (Some ("[Discord Guild #" +:+ "proj-deckard" +:+ " channel id:123] hello"))
  = ["discord"; "channel:123"; "guild:#proj-deckard"].
Proof.
  rewrite (guild_tag "agent:generalist:discord:channel:123" "proj-deckard"
             " channel id:123] hello"); [done | | done | done | done].
  vm_compute. auto.
Defined.

(** X21. The name of a cron job. For a cron session and a prompt that
    begins with ["[cron:"], an identifier without whitespace, one space,
    a name that does not begin with whitespace and has no ["("], and
    ["("], the tags are those of the session key followed by
    ["name:<name>"], the name trimmed of the whitespace around it. *)
Theorem cron_name_tag (sessionKey id name rest : string) :
  In "cron" (sessionTags sessionKey) ->
  id <> "" -> allChars Regex.notSpace id = true ->
  name <> "" -> allChars (Regex.notChar "(") name = true ->
  stopsAt JsString.isSpace name = true ->
  extractTags sessionKey (Some ("[cron:" +:+ id +:+ " " +:+ name +:+ "(" +:+ rest))
  = (sessionTags sessionKey ++ ["name:" +:+ JsString.trim name])%list.
Proof.
  intros Hcron Hid Hidcls Hname Hnamecls Hhead. unfold extractTags. cbv zeta.
  assert (Htag : promptTag (Some ("[cron:" +:+ id +:+ " " +:+ name +:+ "(" +:+ rest))
                   (sessionTags sessionKey) "cron" cronPromptRegex
                   (fun cap => "name:" +:+ JsString.trim cap)
                 = ["name:" +:+ JsString.trim name]).
  { rewrite (promptTag_match _ _ _ _ _ name); [done | done | done | done |].
    by apply cron_match. }
  rewrite Htag.
  unfold promptTag at 1. rewrite sessionTags_cron_no_discord by done.
  by rewrite andb_false_r, app_nil_r.
Qed.

Lemma cron_name_tag_witness :
  extractTags "agent:generalist:cron:96b7"
    (Some ("[cron:" +:+ "96b7" +:+ " " +:+ "X Bookmarks pipeline " +:+ "("
           +:+ "0 * * * *)] go"))
  = ["cron"; "job:96b7"; "name:X Bookmarks pipeline"].
Proof.
  rewrite (cron_name_tag "agent:generalist:cron:96b7" "96b7" "X Bookmarks pipeline "
             "0 * * * *)] go"); [done | | done ..].
  vm_compute. auto.
Defined.

(** ** Labels of models *)

Lemma before_after (sep : ascii) (s : string) :
  JsString.includes (String sep "") s = true ->
  before sep s +:+ String sep "" +:+ after sep s = s.
Proof.
  induction s as [|c s IH]; [done |].
  rewrite includes_char. cbn [before after].
  destruct (Ascii.eqb_spec c sep) as [->|Hne]; [done |].
  cbn [orb]. intros Hinc. rewrite append_cons. by rewrite IH.
Qed.

Lemma before_after_append (sep : ascii) (p m : string) :
  JsString.includes (String sep "") p = false ->
  JsString.includes (String sep "") (p +:+ String sep "" +:+ m) = true /\
  before sep (p +:+ String sep "" +:+ m) = p /\
  after sep (p +:+ String sep "" +:+ m) = m.
Proof.
  induction p as [|c p IH].
  - intros _. rewrite append_empty_l, append_cons, append_empty_l.
    rewrite includes_char. cbn [before after]. by rewrite Ascii.eqb_refl.
  - rewrite includes_char. intros Hinc. apply orb_false_iff in Hinc as [Hc Hp].
    rewrite append_cons, includes_char. cbn [before after]. rewrite Hc. cbn [orb].
    destruct (IH Hp) as (-> & -> & ->). done.
Qed.

(** X22. Labels and model strings. The label [provider/model] of the
    identity resolved from a model string that contains ["/"], without
    provider, is that model string; and the identity resolved from the
    label of an identity whose provider has no ["/"] is that identity. *)
Theorem modelLabel_round_trip :
  (forall m, JsString.includes "/" m = true -> modelLabel (parseModelInfo m None) = m) /\
  (forall mi, JsString.includes "/" (provider mi) = false ->
              parseModelInfo (modelLabel mi) None = mi).
Proof.
  split.
  - intros m Hinc. cbn [parseModelInfo]. rewrite parseModelInfo_slash by done.
    unfold modelLabel. cbn [provider model]. by apply before_after.
  - intros [p m] Hp. cbn [provider] in Hp. unfold modelLabel. cbn [provider model].
    destruct (before_after_append "/" p m Hp) as (Hinc & Hbefore & Hafter).
    cbn [parseModelInfo]. rewrite parseModelInfo_slash by done.
    by rewrite Hbefore, Hafter.
Qed.

Lemma modelLabel_round_trip_witness :
  modelLabel (parseModelInfo "openrouter/anthropic/claude-opus-4-5" None)
  = "openrouter/anthropic/claude-opus-4-5".
Proof. by apply (proj1 modelLabel_round_trip). Defined.

(** ** Keys of root spans *)

Lemma removeAll_clean (c : ascii) (s : string) :
  JsString.includes (String c "") (JsString.removeAll c s) = false.
Proof.
  induction s as [|d s IH]; [done |]. cbn [JsString.removeAll].
  destruct (Ascii.eqb_spec d c) as [->|Hne]; [done |].
  rewrite includes_char, IH. by destruct (Ascii.eqb_spec d c).
Qed.

(** X23. The ordering key of a root span. It is the timestamp followed
    by the identifier without its dashes; an empty parent key counts as
    no parent. For a date in the ranges of the getters with a year of
    four digits the timestamp has 22 characters, and the keys of two root
    spans made at different milliseconds are ordered as their dates,
    whatever their identifiers. *)
Theorem root_keys_sort_by_time (id1 id2 : string) (d1 d2 : Date) :
  validDate d1 -> validDate d2 ->
  makeDottedOrder id1 None d1 = formatDottedOrderTime d1 +:+ JsString.removeAll "-" id1 /\
  makeDottedOrder id1 (Some "") d1 = makeDottedOrder id1 None d1 /\
  JsString.includes "-" (JsString.removeAll "-" id1) = false /\
  String.length (formatDottedOrderTime d1) = 22%nat /\
  (dateCompare d1 d2 = Lt ->
   strLt (makeDottedOrder id1 None d1) (makeDottedOrder id2 None d2)) /\
  (dateCompare d1 d2 = Gt ->
   strLt (makeDottedOrder id2 None d2) (makeDottedOrder id1 None d1)).
Proof.
  intros Hv1 Hv2. split; [done |]. split; [done |].
  split; [apply removeAll_clean |]. split.
  - rewrite formatDottedOrderTime_fixed by done.
    rewrite !append_length, !fixedWidth_length. done.
  - unfold strLt, makeDottedOrder.
    split; intros Hcmp.
    + by rewrite formatDottedOrderTime_compare, Hcmp.
    + rewrite String.compare_antisym, formatDottedOrderTime_compare, Hcmp by done.
      done.
Qed.

Lemma root_keys_sort_by_time_witness :
  strLt (makeDottedOrder toolIdB None (exampleDate 8))
        (makeDottedOrder toolIdA None (exampleDate 9)).
Proof.
  assert (Hv : forall ms, (ms <= 999)%nat -> validDate (exampleDate ms)).
  { intros ms Hms. unfold validDate. cbn [exampleDate getUTCFullYear getUTCMonth
      getUTCDate getUTCHours getUTCMinutes getUTCSeconds getUTCMilliseconds].
    assert (10 ^ 3 <= 2026 < 10 ^ 4)%nat by (split; vm_compute; lia).
    repeat split; lia. }
  destruct (root_keys_sort_by_time toolIdB toolIdA (exampleDate 8) (exampleDate 9))
    as (_ & _ & _ & _ & Hlt & _); [apply Hv; lia | apply Hv; lia |].
  apply Hlt. reflexivity.
Defined.
